(** * ccb_go: protocol markers, log tailers, pane registry, session resolver,
      daemon server and project identity

    A shallow embedding of the Go sources of the bridge and the properties
    its specification states about them.

    Go strings are byte sequences; they are modelled as [list ascii].  The
    regular expressions of [internal/protocol] and [internal/config] only
    use ASCII classes, so matching is done byte by byte. *)

From Stdlib Require Import List Ascii String ZArith NArith Lia Bool.
From Stdlib Require Import DecimalString.
From stdpp Require Import base option list gmap strings.
Import ListNotations.

Local Open Scope list_scope.
Local Open Scope Z_scope.

(** ** Go strings *)

Abbreviation gostring := (list ascii).

Definition str (s : string) : gostring := list_ascii_of_string s.

Definition LF : ascii := "010"%char.
Definition CR : ascii := "013"%char.
Definition TAB : ascii := "009"%char.
Definition VT : ascii := "011"%char.
Definition FF : ascii := "012"%char.
Definition SP : ascii := " "%char.

Definition code (c : ascii) : N := N_of_ascii c.

Definition between (lo hi : N) (c : ascii) : bool :=
  ((lo <=? code c) && (code c <=? hi))%N.

Definition isUpper (c : ascii) : bool := between 65 90 c.
Definition isLower (c : ascii) : bool := between 97 122 c.
Definition isDigit (c : ascii) : bool := between 48 57 c.
Definition isLetter (c : ascii) : bool := isUpper c || isLower c.

(** A lower-case hexadecimal digit, as [%x] prints them. *)
Definition isLowerHex (c : ascii) : bool := isDigit c || between 97 102 c.

Definition eqc (a b : ascii) : bool := Ascii.eqb a b.

(** [cutset] membership, as used by [strings.TrimRight] and friends. *)
Definition inSet (cutset : gostring) (c : ascii) : bool :=
  existsb (eqc c) cutset.

Fixpoint dropWhile {A} (p : A -> bool) (l : list A) : list A :=
  match l with
  | [] => []
  | x :: l' => if p x then dropWhile p l' else l
  end.

(** [strings.TrimRight(s, cutset)] *)
Definition TrimRight (s cutset : gostring) : gostring :=
  rev (dropWhile (inSet cutset) (rev s)).

(** [strings.TrimLeft(s, cutset)] *)
Definition TrimLeft (s cutset : gostring) : gostring :=
  dropWhile (inSet cutset) s.

(** The white space [strings.TrimSpace] removes, on ASCII bytes:
    ['\t', '\n', '\v', '\f', '\r', ' ']. *)
Definition isSpace (c : ascii) : bool :=
  inSet [TAB; LF; VT; FF; CR; SP] c.

(** [strings.TrimSpace(s)] *)
Definition TrimSpace (s : gostring) : gostring :=
  rev (dropWhile isSpace (rev (dropWhile isSpace s))).

(** [strings.Split(s, "\n")]: never empty, one more element than there
    are newlines. *)
Fixpoint SplitLF (s : gostring) : list gostring :=
  match s with
  | [] => [[]]
  | c :: s' =>
      if eqc c LF then [] :: SplitLF s'
      else match SplitLF s' with
           | l :: ls => (c :: l) :: ls
           | [] => [[c]]
           end
  end.

(** [strings.Join(lines, "\n")] *)
Fixpoint JoinLF (lines : list gostring) : gostring :=
  match lines with
  | [] => []
  | [l] => l
  | l :: ls => l ++ LF :: JoinLF ls
  end.

(** [strings.HasPrefix(s, p)] *)
Fixpoint HasPrefix (s p : gostring) : bool :=
  match p, s with
  | [], _ => true
  | _ :: _, [] => false
  | a :: p', b :: s' => eqc a b && HasPrefix s' p'
  end.


(** [strings.ReplaceAll(s, "\\", "/")], a byte for a byte. *)
Definition ReplaceByte (old new : ascii) (s : gostring) : gostring :=
  map (fun c => if eqc c old then new else c) s.

(** [strings.ToLower] on an ASCII byte. *)
Definition toLowerByte (c : ascii) : ascii :=
  if isUpper c then ascii_of_N (code c + 32) else c.

(** ** Regular expressions

    The patterns of the program are written as syntax trees and run by
    derivatives.  [Matches] is the usual declarative semantics; the
    matcher is proved equivalent to it below. *)

Inductive regex : Type :=
| Void : regex
| Eps : regex
| Class (p : ascii -> bool) : regex
| Seq (r1 r2 : regex) : regex
| Alt (r1 r2 : regex) : regex
| Star (r : regex) : regex.

Inductive Matches : regex -> gostring -> Prop :=
| MEps : Matches Eps []
| MClass p c : p c = true -> Matches (Class p) [c]
| MSeq r1 r2 s1 s2 :
    Matches r1 s1 -> Matches r2 s2 -> Matches (Seq r1 r2) (s1 ++ s2)
| MAltL r1 r2 s : Matches r1 s -> Matches (Alt r1 r2) s
| MAltR r1 r2 s : Matches r2 s -> Matches (Alt r1 r2) s
| MStarNil r : Matches (Star r) []
| MStarCons r s1 s2 :
    Matches r s1 -> Matches (Star r) s2 -> Matches (Star r) (s1 ++ s2).

Fixpoint nullable (r : regex) : bool :=
  match r with
  | Void => false
  | Eps => true
  | Class _ => false
  | Seq r1 r2 => nullable r1 && nullable r2
  | Alt r1 r2 => nullable r1 || nullable r2
  | Star _ => true
  end.

Fixpoint deriv (c : ascii) (r : regex) : regex :=
  match r with
  | Void => Void
  | Eps => Void
  | Class p => if p c then Eps else Void
  | Seq r1 r2 =>
      if nullable r1
      then Alt (Seq (deriv c r1) r2) (deriv c r2)
      else Seq (deriv c r1) r2
  | Alt r1 r2 => Alt (deriv c r1) (deriv c r2)
  | Star r1 => Seq (deriv c r1) (Star r1)
  end.

(** Whole-string match: what [MatchString] decides for a pattern
    anchored by [^] and [$]. *)
Fixpoint accepts (r : regex) (s : gostring) : bool :=
  match s with
  | [] => nullable r
  | c :: s' => accepts (deriv c r) s'
  end.

(** Pattern combinators. *)
Definition Lit (s : gostring) : regex :=
  fold_right (fun c r => Seq (Class (eqc c)) r) Eps s.

Definition cat (rs : list regex) : regex := fold_right Seq Eps rs.

Definition Opt (r : regex) : regex := Alt r Eps.

Definition Plus (r : regex) : regex := Seq r (Star r).

Fixpoint Rep (n : nat) (r : regex) : regex :=
  match n with
  | O => Eps
  | S n' => Seq r (Rep n' r)
  end.

(** [\s] of Go's regexp syntax: [[\t\n\f\r ]]. *)
Definition reSpace : regex := Class (inSet [TAB; LF; FF; CR; SP]).
(** [\d] *)
Definition reDigit : regex := Class isDigit.
(** A pattern without [$] matches whatever follows. *)
Definition AnyTail : regex := Star (Class (fun _ => true)).

(** ** internal/protocol: request markers *)

Module Protocol.

Definition DonePrefix : gostring := str "CCB_DONE:".

(** [[A-Z][A-Z0-9_]*_DONE] *)
Definition reTag : regex :=
  cat [Class isUpper;
       Star (Class (fun c => isUpper c || isDigit c || eqc c "_"));
       Lit (str "_DONE")].

(** [\d{8}-\d{6}-\d{3}-\d+], the shape [MakeReqID] prints:
    [YYYYMMDD-HHMMSS-mmm-PID]. *)
Definition reStamp : regex :=
  cat [Rep 8 reDigit; Lit (str "-"); Rep 6 reDigit; Lit (str "-");
       Rep 3 reDigit; Lit (str "-"); Plus reDigit].

(** [^\s*[A-Z][A-Z0-9_]*_DONE(?:\s*:\s*\d{8}-\d{6}-\d{3}-\d+)?\s*$] *)
Definition genericDoneTagRE : regex :=
  cat [Star reSpace; reTag;
       Opt (cat [Star reSpace; Lit (str ":"); Star reSpace; reStamp]);
       Star reSpace].

(** [^\s*CCB_DONE\s*:] *)
Definition ccbDonePrefixRE : regex :=
  cat [Star reSpace; Lit (str "CCB_DONE"); Star reSpace; Lit (str ":");
       AnyTail].

(** [^\s*CCB_DONE:\s*\d{8}-\d{6}-\d{3}-\d+\s*$] *)
Definition anyCCBDoneLineRE : regex :=
  cat [Star reSpace; Lit (str "CCB_DONE:"); Star reSpace; reStamp;
       Star reSpace].

Definition isGenericDoneTag (line : gostring) : bool :=
  accepts genericDoneTagRE line && negb (accepts ccbDonePrefixRE line).

(** A calendar time, as [time.Now()] gives it, by its fields. *)
Record Time : Type := mkTime {
  Year : Z; Month : Z; Day : Z;
  Hour : Z; Minute : Z; Second : Z;
  Nanosecond : Z
}.

(** The decimal digit of [n mod 10]. *)
Definition digit (n : Z) : ascii :=
  nth (Z.to_nat (n mod 10)) (str "0123456789") "0"%char.

(** [n] in decimal, zero-padded to [w] digits: what [%0wd] prints, and
    what [Format] prints for a field of a date, when [0 <= n < 10^w]. *)
Fixpoint padded (w : nat) (n : Z) : gostring :=
  match w with
  | O => []
  | S w' => padded w' (n / 10) ++ [digit n]
  end.

(** [%d] *)
Definition formatInt (n : Z) : gostring :=
  if n <? 0
  then "-"%char :: str (NilZero.string_of_uint (N.to_uint (Z.to_N (- n))))
  else str (NilZero.string_of_uint (N.to_uint (Z.to_N n))).

(** [MakeReqID] at time [now] in a process with id [pid]:
    [Sprintf("%s-%03d-%d", now.Format("20060102-150405"), ms, pid)].
    The layout prints a year from 0 to 9999 with four digits. *)
Definition MakeReqID (now : Time) (pid : Z) : gostring :=
  let ms := Nanosecond now / 1000000 in
  (padded 4 (Year now) ++ padded 2 (Month now) ++ padded 2 (Day now) ++
   str "-" ++
   padded 2 (Hour now) ++ padded 2 (Minute now) ++ padded 2 (Second now)) ++
  str "-" ++ padded 3 ms ++ str "-" ++ formatInt pid.

(** [DoneLineRE]: [^\s*CCB_DONE:\s*] then the quoted request id, then
    [\s*$].  [regexp.QuoteMeta] makes the id match itself. *)
Definition DoneLineRE (reqID : gostring) : regex :=
  cat [Star reSpace; Lit (str "CCB_DONE:"); Star reSpace; Lit reqID;
       Star reSpace].

Definition isTrailingNoiseLine (line : gostring) : bool :=
  if decide (TrimSpace line = []) then true else isGenericDoneTag line.

(** [splitLines]: nil for the empty text, else the pieces between
    newlines, each right-trimmed of ["\r\n"]. *)
Definition splitLines (text : gostring) : list gostring :=
  match text with
  | [] => []
  | _ => map (fun l => TrimRight l [CR; LF]) (SplitLF text)
  end.

(** The loops of the package all walk the line slice from its end; they
    are written over the reversed slice. *)
Fixpoint scanDone (re : regex) (rlines : list gostring) : bool :=
  match rlines with
  | [] => false
  | l :: rest =>
      if isTrailingNoiseLine l then scanDone re rest else accepts re l
  end.

Definition IsDoneText (text reqID : gostring) : bool :=
  scanDone (DoneLineRE reqID) (rev (splitLines text)).

Definition dropTrailing (p : gostring -> bool) (lines : list gostring)
  : list gostring :=
  rev (dropWhile p (rev lines)).

Definition dropLastIf (p : gostring -> bool) (lines : list gostring)
  : list gostring :=
  match rev lines with
  | l :: rest => if p l then rev rest else lines
  | [] => lines
  end.

Definition StripDoneText (text reqID : gostring) : gostring :=
  let lines := splitLines text in
  match lines with
  | [] => []
  | _ =>
      let lines := dropTrailing isTrailingNoiseLine lines in
      let lines := dropLastIf (accepts (DoneLineRE reqID)) lines in
      let lines := dropTrailing isTrailingNoiseLine lines in
      TrimRight (JoinLF lines) [LF; CR; TAB; SP]
  end.

Definition StripTrailingMarkers (text : gostring) : gostring :=
  let lines := splitLines text in
  let lines :=
    dropTrailing
      (fun last => isTrailingNoiseLine last || accepts anyCCBDoneLineRE last)
      lines in
  TrimRight (JoinLF lines) [LF; CR; TAB; SP].


End Protocol.


(** ** internal/comm: log tailers *)

Module Comm.

(** A Go call that returns [(value, error)]. *)
Inductive result (A : Type) : Type :=
| OK (v : A)
| Err.
Arguments OK {A} v.
Arguments Err {A}.

(** *** LogReader *)

Record LogReader : Type := mkLogReader {
  offset : Z;        (* current read position *)
  carry : gostring   (* incomplete line from last read *)
}.

Definition NewLogReader : LogReader := mkLogReader 0 [].

(** [ReadNew] on the file as it is at the time of the call: [None] when
    [os.Open] fails, else the file's bytes.  Returns the lines and the
    reader after the call. *)
Definition ReadNew (file : option gostring) (r : LogReader)
  : result (list gostring) * LogReader :=
  match file with
  | None => (Err, r)
  | Some content =>
      let size := Z.of_nat (length content) in
      (* file was truncated: reset offset *)
      let r := if size <? offset r then mkLogReader 0 [] else r in
      if size =? offset r then (OK [], r)  (* no new data *)
      else
        let data := drop (Z.to_nat (offset r)) content in
        let off := offset r + Z.of_nat (length data) in
        let text := carry r ++ data in
        let parts := SplitLF text in
        (* the last element is the carry, the others are lines *)
        (OK (map (fun p => TrimRight p [CR]) (List.removelast parts)),
         mkLogReader off (List.last parts []))
  end.

(** *** ReverseReader *)

Definition defaultChunkSize : Z := 8192.

Record ReverseReader : Type := mkReverseReader {
  ChunkSize : Z
}.

Definition NewReverseReader : ReverseReader :=
  mkReverseReader defaultChunkSize.

(** State of the backward loop of [ReadLastLines]. *)
Record scan : Type := mkScan {
  collected : list gostring;
  pos : nat;
  leftover : gostring
}.

(** One pass of the loop body: read the chunk that ends at [pos], glue
    the leftover behind it, split, keep the first piece as the new
    leftover unless the file start was reached, and prepend the rest. *)
Definition scanStep (content : gostring) (chunkSize : nat) (st : scan)
  : scan :=
  let readSize := Nat.min chunkSize (pos st) in
  let pos' := (pos st - readSize)%nat in
  let buf := take readSize (drop pos' content) in
  let chunk := buf ++ leftover st in
  let parts := SplitLF chunk in
  let lo := if (0 <? pos')%nat then List.hd [] parts else [] in
  let parts := if (0 <? pos')%nat then List.tl parts else parts in
  mkScan (map (fun p => TrimRight p [CR]) parts ++ collected st) pos' lo.

(** [for pos > 0 && len(collected) < n+1 { ... }].  Every pass lowers
    [pos], so [fuel = len(content)] passes are enough. *)
Fixpoint scanLoop (fuel : nat) (content : gostring) (chunkSize : nat)
  (n : Z) (st : scan) : scan :=
  match fuel with
  | O => st
  | S fuel' =>
      if (0 <? pos st)%nat && (Z.of_nat (length (collected st)) <? n + 1)
      then scanLoop fuel' content chunkSize n (scanStep content chunkSize st)
      else st
  end.

Definition isEmpty (l : gostring) : bool :=
  match l with [] => true | _ => false end.

(** [collected[len(collected)-n:]] when there are more than [n]. *)
Definition lastN (n : Z) (l : list gostring) : list gostring :=
  if n <? Z.of_nat (length l)
  then drop (length l - Z.to_nat n) l
  else l.

Definition ReadLastLines (file : option gostring) (r : ReverseReader)
  (n : Z) : result (list gostring) :=
  if n <=? 0 then OK []
  else
    match file with
    | None => Err
    | Some content =>
        let fileSize := length content in
        if (fileSize =? 0)%nat then OK []
        else
          let chunkSize :=
            if ChunkSize r <=? 0 then defaultChunkSize else ChunkSize r in
          let st := scanLoop fileSize content (Z.to_nat chunkSize) n
                      (mkScan [] fileSize []) in
          (* leftover at exit is prepended as a line *)
          let coll :=
            if isEmpty (leftover st) then collected st
            else TrimRight (leftover st) [CR] :: collected st in
          (* remove trailing empty lines *)
          let coll := rev (dropWhile isEmpty (rev coll)) in
          OK (lastN n coll)
    end.

(** [readAllLines]: the whole file at once. *)
Definition readAllLines (file : option gostring)
  : result (list gostring) :=
  match file with
  | None => Err
  | Some [] => OK []
  | Some text =>
      let lines := map (fun p => TrimRight p [CR]) (SplitLF text) in
      OK (rev (dropWhile isEmpty (rev lines)))
  end.

(** *** FindLast *)

(** The scan of [allLines] from its end for the last line the predicate
    holds for, with its index; [rlines] is the slice reversed. *)
Fixpoint scanBack (predicate : gostring -> bool) (rlines : list gostring)
  : option (gostring * Z) :=
  match rlines with
  | [] => None
  | l :: rest =>
      if predicate l then Some (l, Z.of_nat (length rest))
      else scanBack predicate rest
  end.

(** The chunk loop of [FindLast]: [inl line] when a line of a chunk
    satisfies the predicate, [inr leftover] when the loop has run to the
    file start.  The chunks are cut as in [ReadLastLines]; the slice
    [tailLines] the loop also builds is never read and is left out. *)
Fixpoint findLoop (fuel : nat) (content : gostring) (chunkSize : nat)
  (predicate : gostring -> bool) (pos : nat) (leftover : gostring)
  : gostring + gostring :=
  match fuel with
  | O => inr leftover
  | S fuel' =>
      if (0 <? pos)%nat then
        let readSize := Nat.min chunkSize pos in
        let pos' := (pos - readSize)%nat in
        let buf := take readSize (drop pos' content) in
        let chunk := buf ++ leftover in
        let parts := SplitLF chunk in
        let lo := if (0 <? pos')%nat then List.hd [] parts else [] in
        let parts := if (0 <? pos')%nat then List.tl parts else parts in
        (* the new lines, searched from the end *)
        match List.find predicate
                (rev (map (fun p => TrimRight p [CR]) parts)) with
        | Some line => inl line
        | None => findLoop fuel' content chunkSize predicate pos' lo
        end
      else inr leftover
  end.

(** [FindLast(predicate)]: the line and its index, [-1] for none.  The
    file is taken to be the same when it is read again for the index. *)
Definition FindLast (file : option gostring) (r : ReverseReader)
  (predicate : gostring -> bool) : result (gostring * Z) :=
  match file with
  | None => Err
  | Some content =>
      let fileSize := length content in
      if (fileSize =? 0)%nat then OK ([], -1)
      else
        let chunkSize :=
          if ChunkSize r <=? 0 then defaultChunkSize else ChunkSize r in
        match findLoop fileSize content (Z.to_nat chunkSize) predicate
                fileSize [] with
        | inl line =>
            match readAllLines file with
            | Err => OK (line, -1)
            | OK allLines =>
                match scanBack predicate (rev allLines) with
                | Some found => OK found
                | None => OK (line, -1)
                end
            end
        | inr leftover =>
            if isEmpty leftover then OK ([], -1)
            else
              let line := TrimRight leftover [CR] in
              if predicate line then OK (line, 0) else OK ([], -1)
        end
  end.

(** *** LogReader: the other methods *)

(** [ReadAll]: the whole file; blank lines before the first line that is
    not blank are skipped, trailing blank lines dropped; the reader is
    moved to the end of the file and its carry emptied. *)
Definition ReadAll (file : option gostring) (r : LogReader)
  : result (list gostring) * LogReader :=
  match file with
  | None => (Err, r)
  | Some data =>
      let r' := mkLogReader (Z.of_nat (length data)) [] in
      match data with
      | [] => (OK [], r')
      | _ =>
          let raw := SplitLF data in
          (* if line != "" || len(lines) > 0 { append } *)
          let lines :=
            dropWhile isEmpty (map (fun p => TrimRight p [CR]) raw) in
          (OK (rev (dropWhile isEmpty (rev lines))), r')
      end
  end.

(** [Reset] *)
Definition Reset (r : LogReader) : LogReader := mkLogReader 0 [].

(** What [os.Stat] answers. *)
Inductive statResult : Type :=
| StatSize (size : Z)
| StatNotExist
| StatError.

(** [SeekEnd]: the error, if any, and the reader afterwards. *)
Definition SeekEnd (st : statResult) (r : LogReader)
  : result unit * LogReader :=
  match st with
  | StatSize size => (OK tt, mkLogReader size [])
  | StatNotExist => (OK tt, mkLogReader 0 [])
  | StatError => (Err, r)
  end.

End Comm.

(** ** path/filepath on a POSIX build

    [filepath.Clean], [Join], [IsAbs] and [Abs] as the standard library
    defines them when the separator is ['/']. *)

Module Filepath.

Definition SLASH : ascii := "/"%char.

(** [strings.Split(s, sep)] and [strings.Join(l, sep)] for one-byte
    separators. *)
Fixpoint SplitOn (sep : ascii) (s : gostring) : list gostring :=
  match s with
  | [] => [[]]
  | c :: s' =>
      if eqc c sep then [] :: SplitOn sep s'
      else match SplitOn sep s' with
           | l :: ls => (c :: l) :: ls
           | [] => [[c]]
           end
  end.

Fixpoint JoinOn (sep : ascii) (elems : list gostring) : gostring :=
  match elems with
  | [] => []
  | [l] => l
  | l :: ls => l ++ sep :: JoinOn sep ls
  end.

Definition isDot (e : gostring) : bool :=
  match e with ["."%char] => true | _ => false end.

Definition isDotDot (e : gostring) : bool :=
  match e with ["."%char; "."%char] => true | _ => false end.

(** The element loop of [Clean]; [out] is the output so far, last
    element first.  A [..] removes the element before it, except at the
    root (dropped) and after a leading run of [..] (kept). *)
Fixpoint cleanElems (rooted : bool) (elems out : list gostring)
  : list gostring :=
  match elems with
  | [] => out
  | e :: rest =>
      if Comm.isEmpty e || isDot e then cleanElems rooted rest out
      else if isDotDot e then
        match out with
        | top :: out' =>
            if isDotDot top then cleanElems rooted rest (e :: out)
            else cleanElems rooted rest out'
        | [] =>
            if rooted then cleanElems rooted rest []
            else cleanElems rooted rest [e]
        end
      else cleanElems rooted rest (e :: out)
  end.

Definition Clean (path : gostring) : gostring :=
  match path with
  | [] => str "."
  | c :: _ =>
      let rooted := eqc c SLASH in
      let out := rev (cleanElems rooted (SplitOn SLASH path) []) in
      if rooted then SLASH :: JoinOn SLASH out
      else match out with
           | [] => str "."
           | _ => JoinOn SLASH out
           end
  end.

Definition IsAbs (path : gostring) : bool := HasPrefix path [SLASH].

(** [Join]: empty elements are ignored, the rest joined and cleaned. *)
Definition Join (elems : list gostring) : gostring :=
  match filter (fun e => negb (Comm.isEmpty e)) elems with
  | [] => []
  | es => Clean (JoinOn SLASH es)
  end.

(** [Abs]; [cwd] is what [os.Getwd] returns, [None] for an error. *)
Definition Abs (cwd : option gostring) (path : gostring)
  : option gostring :=
  if IsAbs path then Some (Clean path)
  else match cwd with
       | None => None
       | Some wd => Some (Join [wd; path])
       end.

End Filepath.

(** ** internal/config: project identity *)

Module Config.

(** What the process sees of its environment. *)
Record Env : Type := mkEnv {
  UserHomeDir : option gostring;   (* os.UserHomeDir, None on error *)
  Getwd : option gostring;         (* os.Getwd, None on error *)
  hasMSYSTEM : bool;               (* os.LookupEnv("MSYSTEM") *)
  GOOS : gostring;                 (* runtime.GOOS *)
  IsDir : gostring -> bool         (* os.Stat ok and info.IsDir() *)
}.

(** A [[32]byte]. *)
Record Array32 : Type := mkArray32 {
  bytes : gostring;
  bytes_len : length bytes = 32%nat
}.

Definition BACKSLASH : ascii := "\"%char.
Definition COLON : ascii := ":"%char.

(** [winDriveRE]: [^[A-Za-z]:([/\\]|$)] *)
Definition winDriveRE : regex :=
  cat [Class isLetter; Lit [COLON];
       Alt (Seq (Class (inSet [Filepath.SLASH; BACKSLASH])) AnyTail) Eps].

(** [mntDriveRE.FindStringSubmatch]: [/mnt/], one letter (the drive),
    [/], then the rest up to the end of the text; the rest is matched by
    dots, which do not match a newline. *)
Definition mntDrive (s : gostring) : option (ascii * gostring) :=
  match s with
  | "/"%char :: "m"%char :: "n"%char :: "t"%char :: "/"%char
      :: d :: "/"%char :: rest =>
      if isLetter d && negb (inSet rest LF) then Some (d, rest) else None
  | _ => None
  end.

(** [msysDriveRE.FindStringSubmatch]: [/], one letter (the drive), [/],
    then the rest, as above. *)
Definition msysDrive (s : gostring) : option (ascii * gostring) :=
  match s with
  | "/"%char :: d :: "/"%char :: rest =>
      if isLetter d && negb (inSet rest LF) then Some (d, rest) else None
  | _ => None
  end.

Definition cleanPosixPath (p : gostring) : gostring :=
  ReplaceByte BACKSLASH Filepath.SLASH (Filepath.Clean p).

Definition NormalizeWorkDir (env : Env) (value : gostring) : gostring :=
  let raw := TrimSpace value in
  match raw with
  | [] => []
  | _ =>
      (* expand "~" *)
      let raw :=
        if HasPrefix raw (str "~") then
          match UserHomeDir env with
          | Some home => home ++ drop 1 raw
          | None => raw
          end
        else raw in
      (* absolutize when relative *)
      let preview := ReplaceByte BACKSLASH Filepath.SLASH raw in
      let isAbs :=
        HasPrefix preview (str "/") || HasPrefix preview (str "//") ||
        HasPrefix raw [BACKSLASH; BACKSLASH] || accepts winDriveRE preview in
      let raw :=
        if isAbs then raw
        else match Getwd env with
             | Some cwd => Filepath.Join [cwd; raw]
             | None => raw
             end in
      let s := ReplaceByte BACKSLASH Filepath.SLASH raw in
      (* /mnt/<drive>/... and, under MSYS, /<drive>/... *)
      let s :=
        match mntDrive s with
        | Some (d, rest) => toLowerByte d :: COLON :: Filepath.SLASH :: rest
        | None =>
            match msysDrive s with
            | Some (d, rest) =>
                if hasMSYSTEM env ||
                   bool_decide (GOOS env = str "windows")
                then toLowerByte d :: COLON :: Filepath.SLASH :: rest
                else s
            | None => s
            end
        end in
      (* collapse redundant separators, keeping a leading "//" *)
      let s :=
        if HasPrefix s (str "//")
        then str "//" ++ TrimLeft (cleanPosixPath (drop 2 s)) (str "/")
        else cleanPosixPath s in
      (* lower-case a drive letter *)
      if accepts winDriveRE s
      then map toLowerByte (take 1 s) ++ drop 1 s
      else s
  end.

Definition findCCBConfigRoot (env : Env) (startDir : gostring)
  : gostring :=
  let abs :=
    match Filepath.Abs (Getwd env) startDir with
    | Some a => a
    | None => default [] (Getwd env)
    end in
  let cfg := Filepath.Join [abs; str ".ccb_config"] in
  if IsDir env cfg then abs else [].

Definition hexDigit (n : N) : ascii :=
  nth (N.to_nat n) (str "0123456789abcdef") "0"%char.

(** [fmt.Sprintf("%x", hash)]: two lower-case digits for each byte. *)
Definition hexBytes (b : gostring) : gostring :=
  flat_map (fun c => [hexDigit (code c / 16); hexDigit (code c mod 16)]%N) b.

Section ProjectID.

(** [crypto/sha256.Sum256] *)
Variable Sum256 : gostring -> Array32.

Definition ComputeCCBProjectID (env : Env) (workDir : gostring)
  : gostring :=
  let abs :=
    match Filepath.Abs (Getwd env) workDir with
    | Some a => a
    | None => default [] (Getwd env)
    end in
  let base := findCCBConfigRoot env abs in
  let base := match base with [] => abs | _ => base end in
  let norm := NormalizeWorkDir env base in
  let norm := match norm with [] => NormalizeWorkDir env abs | _ => norm end in
  hexBytes (bytes (Sum256 norm)).

End ProjectID.

End Config.

(** ** internal/session: pane registry *)

Module Session.

Record PaneEntry : Type := mkPaneEntry {
  PaneID : gostring;
  SessionID : gostring;
  ClaudePane : gostring;
  PaneTitleMarker : gostring;
  SessionPath : gostring;
  WorkDir : gostring;
  Terminal : gostring;
  UpdatedAt : Z
}.

(** provider -> projectID -> entry *)
Record RegistryData : Type := mkRegistryData {
  Providers : gmap gostring (gmap gostring PaneEntry);
  Version : Z;
  Legacy : gmap gostring gostring
}.

(** Times are nanoseconds since the epoch, durations nanoseconds. *)
Definition second : Z := 1000000000.
Definition hour : Z := 3600 * second.

(** [registryTTL = 7 * 24 * time.Hour] *)
Definition registryTTL : Z := 7 * 24 * hour.

(** [t.Unix()] *)
Definition Unix (t : Z) : Z := t / second.

Definition GetEntry (d : RegistryData) (provider projectID : gostring)
  : option PaneEntry :=
  match Providers d !! provider with
  | Some provMap => provMap !! projectID
  | None => None
  end.

Definition GetByProvider (d : RegistryData) (provider : gostring)
  : gmap gostring PaneEntry :=
  default ∅ (Providers d !! provider).

(** The entries in the order a [range] over the two maps meets them; Go
    leaves that order open, the model takes the one of [map_to_list]. *)
Definition rangeEntries (d : RegistryData)
  : list (gostring * PaneEntry) :=
  flat_map
    (fun pp : gostring * gmap gostring PaneEntry =>
       map (fun ke : gostring * PaneEntry => (fst pp, snd ke))
           (map_to_list (snd pp)))
    (map_to_list (Providers d)).

Definition GetBySessionID (d : RegistryData) (sessionID : gostring)
  : option (gostring * PaneEntry) :=
  List.find (fun pe => bool_decide (SessionID (snd pe) = sessionID))
            (rangeEntries d).

Definition GetByClaudePane (d : RegistryData) (claudePane : gostring)
  : option (gostring * PaneEntry) :=
  List.find (fun pe => bool_decide (ClaudePane (snd pe) = claudePane))
            (rangeEntries d).

(** The test of the inner loop of [PruneStalePanes]. *)
Definition stale (cutoff : Z) (entry : PaneEntry) : bool :=
  (0 <? UpdatedAt entry) && (UpdatedAt entry <? cutoff).

(** Body of the inner loop: [delete(provMap, projectID); removed++]. *)
Definition pruneEntry (cutoff : Z) (projectID : gostring)
  (entry : PaneEntry) (acc : gmap gostring PaneEntry * Z)
  : gmap gostring PaneEntry * Z :=
  if stale cutoff entry then (delete projectID (fst acc), snd acc + 1)
  else acc.

(** Body of the outer loop: prune the provider's map, drop the provider
    when nothing is left. *)
Definition pruneProvider (cutoff : Z) (provider : gostring)
  (provMap : gmap gostring PaneEntry)
  (acc : gmap gostring (gmap gostring PaneEntry) * Z)
  : gmap gostring (gmap gostring PaneEntry) * Z :=
  let r := map_fold (pruneEntry cutoff) (provMap, snd acc) provMap in
  (if bool_decide (size (fst r) = 0%nat)
   then delete provider (fst acc)
   else <[provider := fst r]> (fst acc),
   snd r).

(** [PruneStalePanes(ttl)] at time [now]: the registry after the call
    and the number returned. *)
Definition PruneStalePanes (now ttl : Z) (d : RegistryData)
  : RegistryData * Z :=
  let ttl := if ttl =? 0 then registryTTL else ttl in
  let cutoff := Unix (now - ttl) in
  let r := map_fold (pruneProvider cutoff) (Providers d, 0) (Providers d) in
  (mkRegistryData (fst r) (Version d) (Legacy d), snd r).

(** Number of entries of a registry. *)
Definition entryCount (ps : gmap gostring (gmap gostring PaneEntry)) : Z :=
  map_fold (fun _ provMap n => n + Z.of_nat (size provMap)) 0 ps.

(** [key]: the legacy registry key. *)
Definition key (provider projectID : gostring) : gostring :=
  provider ++ str ":" ++ projectID.

(** [Get]: the pane id, from the nested schema or else from the legacy
    keys; empty when there is none. *)
Definition Get (d : RegistryData) (provider projectID : gostring)
  : gostring :=
  match GetEntry d provider projectID with
  | Some entry => PaneID entry
  | None => default [] (Legacy d !! key provider projectID)
  end.

Definition setUpdatedAt (entry : PaneEntry) (t : Z) : PaneEntry :=
  mkPaneEntry (PaneID entry) (SessionID entry) (ClaudePane entry)
    (PaneTitleMarker entry) (SessionPath entry) (WorkDir entry)
    (Terminal entry) t.

(** [Upsert] at time [now]. *)
Definition Upsert (now : Z) (d : RegistryData)
  (provider projectID : gostring) (entry : PaneEntry) : RegistryData :=
  let entry :=
    if UpdatedAt entry =? 0 then setUpdatedAt entry (Unix now) else entry in
  let provMap := default ∅ (Providers d !! provider) in
  mkRegistryData
    (<[provider := <[projectID := entry]> provMap]> (Providers d))
    (Version d) (Legacy d).

(** [Set]: the simple form of [Upsert]. *)
Definition Set_ (now : Z) (d : RegistryData)
  (provider projectID paneID : gostring) : RegistryData :=
  Upsert now d provider projectID
    (mkPaneEntry paneID [] [] [] [] [] [] (Unix now)).

(** [Remove] *)
Definition Remove (d : RegistryData) (provider projectID : gostring)
  : RegistryData :=
  let providers :=
    match Providers d !! provider with
    | Some provMap =>
        let provMap := delete projectID provMap in
        if bool_decide (size provMap = 0%nat)
        then delete provider (Providers d)
        else <[provider := provMap]> (Providers d)
    | None => Providers d
    end in
  mkRegistryData providers (Version d)
    (delete (key provider projectID) (Legacy d)).

(** [VerifyAlive]; [backend] is [r.backend.IsAlive], [None] for no
    backend. *)
Definition VerifyAlive (backend : option (gostring -> bool))
  (d : RegistryData) (provider projectID : gostring) : bool :=
  match GetEntry d provider projectID with
  | None => false
  | Some entry =>
      match PaneID entry with
      | [] => false
      | _ =>
          match backend with
          | None => true   (* can't verify without backend, assume alive *)
          | Some isAlive => isAlive (PaneID entry)
          end
      end
  end.

(** The test of the inner loop of [PruneDeadPanes]. *)
Definition dead (isAlive : gostring -> bool) (entry : PaneEntry) : bool :=
  match PaneID entry with
  | [] => false
  | _ => negb (isAlive (PaneID entry))
  end.

(** The two loops of [PruneDeadPanes], as those of [PruneStalePanes]. *)
Definition pruneDeadEntry (isAlive : gostring -> bool)
  (projectID : gostring) (entry : PaneEntry)
  (acc : gmap gostring PaneEntry * Z) : gmap gostring PaneEntry * Z :=
  if dead isAlive entry then (delete projectID (fst acc), snd acc + 1)
  else acc.

Definition pruneDeadProvider (isAlive : gostring -> bool)
  (provider : gostring) (provMap : gmap gostring PaneEntry)
  (acc : gmap gostring (gmap gostring PaneEntry) * Z)
  : gmap gostring (gmap gostring PaneEntry) * Z :=
  let r := map_fold (pruneDeadEntry isAlive) (provMap, snd acc) provMap in
  (if bool_decide (size (fst r) = 0%nat)
   then delete provider (fst acc)
   else <[provider := fst r]> (fst acc),
   snd r).

(** [PruneDeadPanes]: the registry after the call and the number
    returned. *)
Definition PruneDeadPanes (backend : option (gostring -> bool))
  (d : RegistryData) : RegistryData * Z :=
  match backend with
  | None => (d, 0)
  | Some isAlive =>
      let r := map_fold (pruneDeadProvider isAlive) (Providers d, 0)
                 (Providers d) in
      (mkRegistryData (fst r) (Version d) (Legacy d), snd r)
  end.

(** [registryVersion] *)
Definition registryVersion : Z := 2.

(** [strings.SplitN(k, ":", 2)] when it gives two parts: the text before
    the first colon and the text after it; [None] when there is no
    colon. *)
Fixpoint splitColon (k : gostring) : option (gostring * gostring) :=
  match k with
  | [] => None
  | c :: k' =>
      if eqc c ":" then Some ([], k')
      else match splitColon k' with
           | Some (a, b) => Some (c :: a, b)
           | None => None
           end
  end.

(** Body of the loop of [MigrateLegacy] for the legacy key [k]; [clock k]
    is the time read for that key.  An entry that exists is not
    overwritten. *)
Definition migrateKey (clock : gostring -> Z) (k paneID : gostring)
  (ps : gmap gostring (gmap gostring PaneEntry))
  : gmap gostring (gmap gostring PaneEntry) :=
  match splitColon k with
  | None => ps
  | Some (provider, projectID) =>
      let provMap := default ∅ (ps !! provider) in
      match provMap !! projectID with
      | Some _ => <[provider := provMap]> ps
      | None =>
          <[provider :=
              <[projectID :=
                  mkPaneEntry paneID [] [] [] [] [] [] (Unix (clock k))]>
                provMap]> ps
      end
  end.

(** [MigrateLegacy] *)
Definition MigrateLegacy (clock : gostring -> Z) (d : RegistryData)
  : RegistryData :=
  if bool_decide (size (Legacy d) = 0%nat) then d
  else
    mkRegistryData (map_fold (migrateKey clock) (Providers d) (Legacy d))
      registryVersion ∅.

End Session.

(** ** internal/session: session resolver *)

Module Resolver.

Import Comm.

Record ResolvedSession : Type := mkResolved {
  SessionID : gostring;
  ProjectKey : gostring;
  LogFile : gostring;
  PaneID : gostring;
  Source : gostring
}.

Record ClaudeSessionInfo : Type := mkClaudeSessionInfo {
  infoSessionID : gostring;
  infoProjectKey : gostring;
  infoLogFile : gostring
}.

(** What a resolver reads: its two fields and the process environment.
    [ResolveClaudeSession] scans [~/.claude/projects]; its outcome for a
    work directory is taken as it comes. *)
Record World : Type := mkWorld {
  registry : option Session.RegistryData;      (* r.registry, may be nil *)
  backend : option (gostring -> bool);         (* r.backend.IsAlive *)
  Getenv : gostring -> gostring;               (* os.Getenv *)
  env : Config.Env;
  Stat : gostring -> bool;                     (* os.Stat succeeds *)
  ReadFile : gostring -> option gostring;      (* os.ReadFile *)
  ResolveClaudeSession : gostring -> result (option ClaudeSessionInfo)
}.

Definition CCBProjectConfigDirname : gostring := str ".ccb_config".

(** [config.FindProjectSessionFile] *)
Definition FindProjectSessionFile (w : World)
  (workDir sessionFilename : gostring) : gostring :=
  let abs := default workDir (Filepath.Abs (Config.Getwd (env w)) workDir) in
  let candidate :=
    Filepath.Join [abs; CCBProjectConfigDirname; sessionFilename] in
  if Stat w candidate then candidate
  else
    let legacy := Filepath.Join [abs; sessionFilename] in
    if Stat w legacy then legacy else [].

(** [config.ReadSessionFile] *)
Definition ReadSessionFile (w : World) (path : gostring) : gostring :=
  match ReadFile w path with
  | Some data => TrimSpace data
  | None => []
  end.

(** [r.backend != nil && !r.backend.IsAlive(pane)] *)
Definition knownDead (w : World) (pane : gostring) : bool :=
  match backend w with
  | Some isAlive => negb (isAlive pane)
  | None => false
  end.

(** Stage 1 *)
Definition resolveFromEnv (w : World) : option ResolvedSession :=
  let sessionID := TrimSpace (Getenv w (str "CCB_SESSION_ID")) in
  match sessionID with
  | [] => None
  | _ =>
      match
        match registry w with
        | Some d => Session.GetBySessionID d sessionID
        | None => None
        end
      with
      | Some (provider, entry) =>
          Some (mkResolved sessionID provider (Session.SessionPath entry)
                  (Session.PaneID entry) (str "env"))
      | None => Some (mkResolved sessionID [] [] [] (str "env"))
      end
  end.

(** Stage 2 *)
Definition resolveFromRegistryByProject (w : World) (projectID : gostring)
  : option ResolvedSession :=
  match registry w with
  | None => None
  | Some d =>
      match Session.GetEntry d (str "claude") projectID with
      | None => None
      | Some entry =>
          if Comm.isEmpty (Session.PaneID entry) then None
          else if knownDead w (Session.PaneID entry) then None
          else Some (mkResolved (Session.SessionID entry) projectID
                       (Session.SessionPath entry) (Session.PaneID entry)
                       (str "registry_project"))
      end
  end.

(** Loop body of stage 3: keep the alive entry updated last. *)
Definition betterEntry (w : World)
  (best : option (gostring * Session.PaneEntry) * Z)
  (ke : gostring * Session.PaneEntry)
  : option (gostring * Session.PaneEntry) * Z :=
  let entry := snd ke in
  if Comm.isEmpty (Session.PaneID entry) then best
  else if knownDead w (Session.PaneID entry) then best
  else if snd best <? Session.UpdatedAt entry
       then (Some ke, Session.UpdatedAt entry)
       else best.

(** Stage 3 *)
Definition resolveFromRegistryUnfiltered (w : World)
  : option ResolvedSession :=
  match registry w with
  | None => None
  | Some d =>
      let entries := Session.GetByProvider d (str "claude") in
      match fst (fold_left (betterEntry w) (map_to_list entries) (None, 0))
      with
      | None => None
      | Some (bestKey, bestEntry) =>
          Some (mkResolved (Session.SessionID bestEntry) bestKey
                  (Session.SessionPath bestEntry) (Session.PaneID bestEntry)
                  (str "registry_unfiltered"))
      end
  end.

(** Stage 4 *)
Definition resolveFromSessionFile (w : World) (workDir : gostring)
  : option ResolvedSession :=
  match FindProjectSessionFile w workDir (str ".claude-session") with
  | [] => None
  | sessionFile =>
      match ReadSessionFile w sessionFile with
      | [] => None
      | content => Some (mkResolved [] [] [] content (str "session_file"))
      end
  end.

(** Stage 5 *)
Definition resolveFromRegistryByPane (w : World)
  : option ResolvedSession :=
  match registry w with
  | None => None
  | Some d =>
      let currentPane := TrimSpace (Getenv w (str "TMUX_PANE")) in
      let currentPane :=
        match currentPane with
        | [] => TrimSpace (Getenv w (str "WEZTERM_PANE"))
        | _ => currentPane
        end in
      match currentPane with
      | [] => None
      | _ =>
          match Session.GetByClaudePane d currentPane with
          | None => None
          | Some (provider, entry) =>
              Some (mkResolved (Session.SessionID entry) provider
                      (Session.SessionPath entry) (Session.PaneID entry)
                      (str "registry_pane"))
          end
      end
  end.

(** Stage 6 *)
Definition resolveBestFallback (w : World) (workDir : gostring)
  : result (option ResolvedSession) :=
  match ResolveClaudeSession w workDir with
  | Err => Err
  | OK None => OK None
  | OK (Some info) =>
      OK (Some (mkResolved (infoSessionID info) (infoProjectKey info)
                  (infoLogFile info) [] (str "fallback")))
  end.

Section Resolve.

Variable Sum256 : gostring -> Config.Array32.

Definition Resolve (w : World) (workDir : gostring)
  : result (option ResolvedSession) :=
  match resolveFromEnv w with
  | Some result => OK (Some result)
  | None =>
      let projectID := Config.ComputeCCBProjectID Sum256 (env w) workDir in
      match resolveFromRegistryByProject w projectID with
      | Some result => OK (Some result)
      | None =>
          match resolveFromRegistryUnfiltered w with
          | Some result => OK (Some result)
          | None =>
              match resolveFromSessionFile w workDir with
              | Some result => OK (Some result)
              | None =>
                  match resolveFromRegistryByPane w with
                  | Some result => OK (Some result)
                  | None => resolveBestFallback w workDir
                  end
              end
          end
      end
  end.

(** What a stage yields when asked on its own: the six stages in the
    order of the chain, the last one seen as found or not. *)
Definition stages (w : World) (workDir : gostring)
  : list (option ResolvedSession) :=
  [ resolveFromEnv w;
    resolveFromRegistryByProject w
      (Config.ComputeCCBProjectID Sum256 (env w) workDir);
    resolveFromRegistryUnfiltered w;
    resolveFromSessionFile w workDir;
    resolveFromRegistryByPane w;
    match resolveBestFallback w workDir with
    | OK found => found
    | Err => None
    end ].

End Resolve.

(** The values of [ResolvedSession.Source], stage by stage. *)
Definition stageNames : list gostring :=
  [ str "env"; str "registry_project"; str "registry_unfiltered";
    str "session_file"; str "registry_pane"; str "fallback" ].

End Resolver.

(** ** internal/daemon: server *)

Module Daemon.

Import Comm.

(** A decoded JSON value ([interface{}] after [json.Decode]). *)
Inductive json : Type :=
| JNull
| JBool (b : bool)
| JNum (n : Z)
| JStr (s : gostring)
| JOther.

(** [map[string]interface{}] *)
Abbreviation object := (gmap gostring json).

(** [v, _ := m[key].(string)] *)
Definition getStr (m : object) (key : gostring) : gostring :=
  match m !! key with
  | Some (JStr s) => s
  | _ => []
  end.

Record Server : Type := mkServer {
  token : gostring;
  lastActive : Z;
  idleTimeout : Z;
  stateFile : gostring;
  logFile : gostring;
  parentPID : Z;
  listenerOpen : bool;      (* s.listener accepts *)
  shutdownClosed : bool;    (* close(s.shutdown) happened *)
  poolRunning : bool;       (* s.workerPool not shut down *)
  stateFilePresent : bool   (* the file s.stateFile exists on disk *)
}.

Record ServerConfig : Type := mkServerConfig {
  cfgHost : gostring;
  cfgPort : Z;
  cfgToken : gostring;
  cfgStateFile : gostring;
  cfgLogFile : gostring;
  cfgIdleTimeout : Z;
  cfgParentPID : Z
}.

(** [NewServer]; [fresh] is what [runtime.RandomToken()] returns. *)
Definition NewServer (cfg : ServerConfig) (fresh : gostring) (now : Z)
  : Server :=
  let idle :=
    if cfgIdleTimeout cfg =? 0 then 30 * 60 * Session.second
    else cfgIdleTimeout cfg in
  let tok := match cfgToken cfg with [] => fresh | t => t end in
  mkServer tok now idle (cfgStateFile cfg) (cfgLogFile cfg)
    (cfgParentPID cfg) false false true false.

Inductive handler : Type :=
| handlePing | handleShutdown | handleStatus | handleRequest | handlePend.

(** What a connection handler does, in order. *)
Inductive event : Type :=
| SetDeadline                (* conn.SetDeadline *)
| SendJSON (v : object)      (* s.sendJSON: the object, then a newline *)
| Dispatch (h : handler)     (* a method handler is run *)
| CloseConn.                 (* the deferred conn.Close *)

(** [s.sendError(conn, msg)] *)
Definition sendError (msg : gostring) : event :=
  SendJSON (<[str "status" := JStr (str "error")]>
             (<[str "error" := JStr msg]> ∅)).

(** [s.touchActivity()] *)
Definition touchActivity (now : Z) (s : Server) : Server :=
  mkServer (token s) now (idleTimeout s) (stateFile s) (logFile s)
    (parentPID s) (listenerOpen s) (shutdownClosed s) (poolRunning s)
    (stateFilePresent s).

(** The [switch method] of [handleConn]. *)
Definition route (method : gostring) : event :=
  if bool_decide (method = str "ping") || bool_decide (method = str ".ping")
  then Dispatch handlePing
  else if bool_decide (method = str "shutdown")
          || bool_decide (method = str ".shutdown")
  then Dispatch handleShutdown
  else if bool_decide (method = str "status")
          || bool_decide (method = str ".status")
  then Dispatch handleStatus
  else if bool_decide (method = str "request")
          || bool_decide (method = str ".request")
          || bool_decide (method = str "ask")
  then Dispatch handleRequest
  else if bool_decide (method = str "pend")
          || bool_decide (method = str ".pend")
  then Dispatch handlePend
  else sendError (str "unknown method: " ++ method).

(** [handleConn] at time [now] on a connection whose first JSON value
    decodes to [req] ([None] when decoding fails): the server afterwards
    and what happened on the connection. *)
Definition handleConn (now : Z) (s : Server) (req : option object)
  : Server * list event :=
  match req with
  | None => (s, [SetDeadline; sendError (str "invalid request"); CloseConn])
  | Some req =>
      if bool_decide (getStr req (str "token") = token s)
      then (touchActivity now s,
            [SetDeadline; route (getStr req (str "method")); CloseConn])
      else (s, [SetDeadline; sendError (str "invalid token"); CloseConn])
  end.

(** [Shutdown] *)
Definition Shutdown (s : Server) : Server :=
  mkServer (token s) (lastActive s) (idleTimeout s) (stateFile s)
    (logFile s) (parentPID s)
    false                                  (* s.listener.Close() *)
    true                                   (* close(s.shutdown) *)
    false                                  (* s.workerPool.Shutdown() *)
    (match stateFile s with                (* s.removeState() *)
     | [] => stateFilePresent s
     | _ => false
     end).

Inductive platform : Type := UnixLike | Windows.

(** The process table as [os.FindProcess] sees it. *)
Record OS : Type := mkOS {
  plat : platform;
  processExists : Z -> bool
}.

(** [os.FindProcess]: on Unix it always succeeds, whether or not the
    process exists; on Windows it opens the process and fails when
    there is none. *)
Definition FindProcess (os : OS) (pid : Z) : result Z :=
  match plat os with
  | UnixLike => OK pid
  | Windows => if processExists os pid then OK pid else Err
  end.

(** One firing of the 5 s ticker in [parentMonitor]: the server
    afterwards, and whether the monitor keeps running. *)
Definition parentMonitorTick (os : OS) (s : Server) : Server * bool :=
  match FindProcess os (parentPID s) with
  | Err => (Shutdown s, false)
  | OK _ => (s, true)
  end.

(** [Start] starts the monitor only for [parentPID > 0]. *)
Definition monitorsParent (s : Server) : bool := 0 <? parentPID s.


End Daemon.

(** * Vocabulary of the statements

    Notions the properties below are stated with; none of them is part
    of the program. *)

(** The first piece of a split, one byte longer. *)
Definition consHead (c : ascii) (ls : list gostring) : list gostring :=
  match ls with
  | l :: ls' => (c :: l) :: ls'
  | [] => [[c]]
  end.

(** All the classes of a pattern lie within [P]. *)
Fixpoint classesWithin (P : ascii -> bool) (r : regex) : Prop :=
  match r with
  | Void | Eps => True
  | Class p => forall c, p c = true -> P c = true
  | Seq r1 r2 | Alt r1 r2 => classesWithin P r1 /\ classesWithin P r2
  | Star r1 => classesWithin P r1
  end.

(** A reader is in step with a file content when it has read all of it
    and carries its unfinished last line. *)
Definition inStep (r : Comm.LogReader) (content : gostring) : Prop :=
  Comm.offset r = Z.of_nat (length content) /\
  Comm.carry r = List.last (SplitLF content) [].

(** The line form of a generic done tag as the specification words it:
    the tag, then optionally a colon and a time stamp, with no white
    space anywhere.  It is built from the pieces of [genericDoneTagRE]. *)
Definition doneTagLine : regex :=
  Seq Protocol.reTag (Opt (Seq (Lit (str ":")) Protocol.reStamp)).

(** The bytes such a line is made of. *)
Definition tagByte (c : ascii) : bool :=
  isUpper c || isDigit c || eqc c "_" || eqc c ":" || eqc c "-".



Definition doneLine (reqID : gostring) : gostring :=
  Protocol.DonePrefix ++ SP :: reqID.

(** The entries of a provider that a prune with [cutoff] takes and those
    it leaves. *)
Definition staleP (cutoff : Z) (ke : gostring * Session.PaneEntry) : Prop :=
  Session.stale cutoff (snd ke) = true.

Definition freshP (cutoff : Z) (ke : gostring * Session.PaneEntry) : Prop :=
  Session.stale cutoff (snd ke) = false.

#[global] Instance staleP_dec cutoff ke : Decision (staleP cutoff ke) :=
  decide (Session.stale cutoff (snd ke) = true).

#[global] Instance freshP_dec cutoff ke : Decision (freshP cutoff ke) :=
  decide (Session.stale cutoff (snd ke) = false).

(** A provider after a prune: its fresh entries, or nothing at all when
    none is left. *)
Definition prunedProvider (cutoff : Z)
  (provMap : gmap gostring Session.PaneEntry)
  : option (gmap gostring Session.PaneEntry) :=
  let kept := filter (freshP cutoff) provMap in
  if bool_decide (size kept = 0%nat) then None else Some kept.

(** Number of stale entries of a registry. *)
Definition staleCount (cutoff : Z)
  (ps : gmap gostring (gmap gostring Session.PaneEntry)) : Z :=
  map_fold (fun _ provMap n => n + Z.of_nat (size (filter (staleP cutoff) provMap)))
           0 ps.

(** The cutoff [PruneStalePanes(ttl)] computes at time [now]. *)
Definition pruneCutoff (now ttl : Z) : Z :=
  Session.Unix (now - (if ttl =? 0 then Session.registryTTL else ttl)).

(** *** Sample data

    A hash that is zero everywhere, and a world whose registry holds one
    live Claude pane under the project that hash gives. *)

Definition zeroSum (_ : gostring) : Config.Array32 :=
  Config.mkArray32 (repeat "000"%char 32) eq_refl.

Definition sampleEnv : Config.Env :=
  Config.mkEnv None (Some (str "/w")) false (str "linux") (fun _ => false).

Definition sampleEntry : Session.PaneEntry :=
  Session.mkPaneEntry (str "%1") (str "s-1") (str "%0") [] (str "/log/s-1.jsonl")
    (str "/w") (str "tmux") 1700000000.

Definition sampleRegistry : Session.RegistryData :=
  Session.mkRegistryData
    {[ str "claude" := {[ repeat "0"%char 64 := sampleEntry ]} ]} 2 ∅.

Definition sampleWorld : Resolver.World :=
  Resolver.mkWorld (Some sampleRegistry) None (fun _ => []) sampleEnv
    (fun _ => false) (fun _ => None) (fun _ => Comm.OK None).


(** Reading after each of a series of appends to a file that holds
    [content]: the outcome of every call and the reader at the end. *)
Fixpoint readAppends (content : gostring) (r : Comm.LogReader)
  (chunks : list gostring)
  : list (Comm.result (list gostring)) * Comm.LogReader :=
  match chunks with
  | [] => ([], r)
  | t :: rest =>
      let step := Comm.ReadNew (Some (content ++ t)) r in
      let more := readAppends (content ++ t) (snd step) rest in
      (fst step :: fst more, snd more)
  end.

(** The complete lines of a text: the pieces before each newline, without
    trailing carriage returns. *)
Definition completeLines (text : gostring) : list gostring :=
  map (fun p => TrimRight p [CR]) (List.removelast (SplitLF text)).

(** A list of lines without the empty lines at its end. *)
Definition dropTrailingEmpty (lines : list gostring) : list gostring :=
  rev (dropWhile Comm.isEmpty (rev lines)).

(** The pieces of a file between its newlines, without trailing carriage
    returns; the last of them is what follows the last newline. *)
Definition pieces (content : gostring) : list gostring :=
  map (fun p => TrimRight p [CR]) (SplitLF content).


(** The loop of [ReadLastLines] has read the file from [pos] on: the
    first piece of that part is the leftover and the others are
    collected; at the file start everything is collected. *)
Definition scanned (content : gostring) (st : Comm.scan) : Prop :=
  (Comm.pos st <= length content)%nat /\
  ((0 < Comm.pos st)%nat /\
   (exists P, SplitLF (drop (Comm.pos st) content) = Comm.leftover st :: P /\
              Comm.collected st = map (fun p => TrimRight p [CR]) P)
   \/
   (Comm.pos st = 0%nat /\ Comm.leftover st = [] /\
    Comm.collected st = pieces content)).

(** The same for a prune of dead panes. *)
Definition deadP (isAlive : gostring -> bool)
  (ke : gostring * Session.PaneEntry) : Prop :=
  Session.dead isAlive (snd ke) = true.

Definition liveP (isAlive : gostring -> bool)
  (ke : gostring * Session.PaneEntry) : Prop :=
  Session.dead isAlive (snd ke) = false.

#[global] Instance deadP_dec isAlive ke : Decision (deadP isAlive ke) :=
  decide (Session.dead isAlive (snd ke) = true).

#[global] Instance liveP_dec isAlive ke : Decision (liveP isAlive ke) :=
  decide (Session.dead isAlive (snd ke) = false).

Definition prunedDeadProvider (isAlive : gostring -> bool)
  (provMap : gmap gostring Session.PaneEntry)
  : option (gmap gostring Session.PaneEntry) :=
  let kept := filter (liveP isAlive) provMap in
  if bool_decide (size kept = 0%nat) then None else Some kept.

Definition deadCount (isAlive : gostring -> bool)
  (ps : gmap gostring (gmap gostring Session.PaneEntry)) : Z :=
  map_fold (fun _ provMap n => n + Z.of_nat (size (filter (deadP isAlive) provMap)))
           0 ps.

(** No provider of the registry is left without entries. *)
Definition noEmptyProvider (d : Session.RegistryData) : Prop :=
  forall provider provMap,
    Session.Providers d !! provider = Some provMap -> provMap <> ∅.

(** An entry stage 3 of the resolver may pick: it has a pane id and the
    backend, if there is one, does not report the pane dead. *)
Definition eligible (w : Resolver.World) (entry : Session.PaneEntry) : Prop :=
  Session.PaneID entry <> [] /\
  Resolver.knownDead w (Session.PaneID entry) = false.

(** The sample world with a backend that reports every pane alive. *)
Definition sampleWorldLive : Resolver.World :=
  Resolver.mkWorld (Some sampleRegistry) (Some (fun _ => true)) (fun _ => [])
    sampleEnv (fun _ => false) (fun _ => None) (fun _ => Comm.OK None).



(** The last two steps of [NormalizeWorkDir], on the path [s] with its
    drive mapped: redundant separators collapsed, the drive letter in
    lower case. *)
Definition collapsed (s : gostring) : gostring :=
  let s :=
    if HasPrefix s (str "//")
    then str "//" ++ TrimLeft (Config.cleanPosixPath (drop 2 s)) (str "/")
    else Config.cleanPosixPath s in
  if accepts Config.winDriveRE s
  then map toLowerByte (take 1 s) ++ drop 1 s
  else s.

(** The step before them: [/mnt/<drive>/...] and, under MSYS,
    [/<drive>/...] turned into [<drive>:/...]. *)
Definition driveMapped (env : Config.Env) (s : gostring) : gostring :=
  match Config.mntDrive s with
  | Some (d, rest) =>
      toLowerByte d :: Config.COLON :: Filepath.SLASH :: rest
  | None =>
      match Config.msysDrive s with
      | Some (d, rest) =>
          if Config.hasMSYSTEM env ||
             bool_decide (Config.GOOS env = str "windows")
          then toLowerByte d :: Config.COLON :: Filepath.SLASH :: rest
          else s
      | None => s
      end
  end.

(** The fields of a time are those of a date of the years 0 to 9999. *)
Definition validTime (t : Protocol.Time) : Prop :=
  0 <= Protocol.Year t <= 9999 /\
  1 <= Protocol.Month t <= 12 /\ 1 <= Protocol.Day t <= 31 /\
  0 <= Protocol.Hour t <= 23 /\ 0 <= Protocol.Minute t <= 59 /\
  0 <= Protocol.Second t <= 59 /\
  0 <= Protocol.Nanosecond t <= 999999999.


(** * Properties *)

(** ** Lists and strings *)

Lemma eqc_true (a b : ascii) : eqc a b = true <-> a = b.
Proof. unfold eqc. apply Ascii.eqb_eq. Qed.

Lemma eqc_false (a b : ascii) : eqc a b = false <-> a <> b.
Proof. unfold eqc. apply Ascii.eqb_neq. Qed.

Lemma eqc_refl (a : ascii) : eqc a a = true.
Proof. apply eqc_true. reflexivity. Qed.

Lemma inSet_In (cutset : gostring) (c : ascii) :
  inSet cutset c = true <-> In c cutset.
Proof.
  unfold inSet. rewrite existsb_exists. split.
  - intros [x [Hin Heq]]. apply eqc_true in Heq. subst. exact Hin.
  - intros Hin. exists c. split; [exact Hin | apply eqc_refl].
Qed.

Lemma inSet_false (cutset : gostring) (c : ascii) :
  inSet cutset c = false -> ~ In c cutset.
Proof. intros H Hin. apply inSet_In in Hin. congruence. Qed.

Lemma inSet_not_In (cutset : gostring) (c : ascii) :
  ~ In c cutset -> inSet cutset c = false.
Proof.
  intros H. destruct (inSet cutset c) eqn:E; [|reflexivity].
  apply inSet_In in E. contradiction.
Qed.

Lemma dropWhile_all {A} (p : A -> bool) (l : list A) :
  Forall (fun x => p x = true) l -> dropWhile p l = [].
Proof.
  induction 1 as [|x l Hx _ IH]; simpl; [reflexivity|].
  rewrite Hx. exact IH.
Qed.

Lemma dropWhile_app_all {A} (p : A -> bool) (l k : list A) :
  Forall (fun x => p x = true) l -> dropWhile p (l ++ k) = dropWhile p k.
Proof.
  induction 1 as [|x l Hx _ IH]; simpl; [reflexivity|].
  rewrite Hx. exact IH.
Qed.

Lemma dropWhile_nil_inv {A} (p : A -> bool) (l : list A) :
  dropWhile p l = [] -> Forall (fun x => p x = true) l.
Proof.
  induction l as [|x l IH]; simpl; intros H; [constructor|].
  destruct (p x) eqn:Hx; [|discriminate].
  constructor; auto.
Qed.

Lemma dropWhile_head {A} (p : A -> bool) (x : A) (l : list A) :
  p x = false -> dropWhile p (x :: l) = x :: l.
Proof. intros H. simpl. rewrite H. reflexivity. Qed.

(** A string that does not end in the cutset is its own right trim. *)
Lemma TrimRight_snoc (s cutset : gostring) (c : ascii) :
  inSet cutset c = false -> TrimRight (s ++ [c]) cutset = s ++ [c].
Proof.
  intros H. unfold TrimRight. rewrite rev_app_distr. simpl.
  rewrite H. simpl. rewrite rev_involutive. reflexivity.
Qed.

Lemma TrimRight_nil (cutset : gostring) : TrimRight [] cutset = [].
Proof. reflexivity. Qed.

Lemma TrimRight_clean (s cutset : gostring) :
  Forall (fun c => inSet cutset c = false) s -> TrimRight s cutset = s.
Proof.
  intros H. destruct s as [|a s] using rev_ind; [reflexivity|].
  apply TrimRight_snoc. apply Forall_app in H as [_ H].
  inversion H; subst; assumption.
Qed.

(** Trimming drops a tail made of cutset bytes only. *)
Lemma TrimRight_app_all (s t cutset : gostring) :
  Forall (fun c => inSet cutset c = true) t ->
  TrimRight (s ++ t) cutset = TrimRight s cutset.
Proof.
  intros H. unfold TrimRight. rewrite rev_app_distr.
  rewrite dropWhile_app_all; [reflexivity|].
  apply List.Forall_forall. intros x Hx. apply in_rev in Hx.
  rewrite List.Forall_forall in H. auto.
Qed.

Lemma TrimSpace_nil_inv (s : gostring) :
  TrimSpace s = [] -> Forall (fun c => isSpace c = true) s.
Proof.
  unfold TrimSpace. intros H.
  assert (H1 : dropWhile isSpace (rev (dropWhile isSpace s)) = []).
  { rewrite <- (rev_involutive (dropWhile _ (rev _))). rewrite H.
    reflexivity. }
  apply dropWhile_nil_inv in H1.
  assert (H2 : dropWhile isSpace s = []).
  { destruct (dropWhile isSpace s) as [|x l] eqn:E; [reflexivity|].
    exfalso.
    assert (Hx : isSpace x = true).
    { rewrite List.Forall_forall in H1. apply H1. apply in_rev.
      rewrite rev_involutive. left. reflexivity. }
    clear H H1. induction s as [|y s IH]; simpl in E; [discriminate|].
    destruct (isSpace y) eqn:Hy; [auto|].
    injection E as -> _. congruence. }
  apply dropWhile_nil_inv. exact H2.
Qed.

Lemma TrimSpace_nil : TrimSpace [] = [].
Proof. reflexivity. Qed.

(** ** Splitting and joining lines *)

Lemma SplitLF_cons (c : ascii) (s : gostring) :
  SplitLF (c :: s) =
  if eqc c LF then [] :: SplitLF s else consHead c (SplitLF s).
Proof. reflexivity. Qed.

Lemma SplitLF_nonempty (s : gostring) : SplitLF s <> [].
Proof.
  destruct s as [|c s]; simpl; [discriminate|].
  destruct (eqc c LF); [discriminate|].
  destruct (SplitLF s); discriminate.
Qed.

Lemma SplitLF_clean (s : gostring) : ~ In LF s -> SplitLF s = [s].
Proof.
  induction s as [|c s IH]; intros H; [reflexivity|].
  rewrite SplitLF_cons.
  destruct (eqc c LF) eqn:E.
  - apply eqc_true in E. subst. exfalso. apply H. left. reflexivity.
  - rewrite IH; [reflexivity|]. intros Hin. apply H. right. exact Hin.
Qed.

(** Text before a newline and text after it split independently. *)
Lemma SplitLF_app_LF (a b : gostring) :
  SplitLF (a ++ LF :: b) = SplitLF a ++ SplitLF b.
Proof.
  induction a as [|c a IH]; [reflexivity|].
  change ((c :: a) ++ LF :: b) with (c :: (a ++ LF :: b)).
  rewrite !SplitLF_cons, IH.
  destruct (eqc c LF); [reflexivity|].
  pose proof (SplitLF_nonempty a) as Hne.
  destruct (SplitLF a); [congruence | reflexivity].
Qed.

(** The general case: whatever is appended continues the last piece. *)
Lemma SplitLF_app (a b : gostring) :
  SplitLF (a ++ b) =
  List.removelast (SplitLF a) ++ SplitLF (List.last (SplitLF a) [] ++ b).
Proof.
  induction a as [|c a IH]; [reflexivity|].
  change ((c :: a) ++ b) with (c :: (a ++ b)).
  rewrite !SplitLF_cons, IH.
  pose proof (SplitLF_nonempty a) as Hne.
  destruct (eqc c LF) eqn:E.
  - destruct (SplitLF a) as [|l ls]; [congruence|]. reflexivity.
  - destruct (SplitLF a) as [|l ls]; [congruence|].
    destruct ls as [|l2 ls].
    + simpl. rewrite E. reflexivity.
    + reflexivity.
Qed.




(** No piece of a split holds a newline. *)
Lemma SplitLF_no_LF (s l : gostring) : In l (SplitLF s) -> ~ In LF l.
Proof.
  revert l. induction s as [|c s IH]; intros l Hl.
  - destruct Hl as [<-|[]]. intros [].
  - rewrite SplitLF_cons in Hl.
    destruct (eqc c LF) eqn:E.
    + destruct Hl as [<-|Hl]; [intros []|auto].
    + pose proof (SplitLF_nonempty s) as Hne.
      destruct (SplitLF s) as [|l0 ls]; [congruence|].
      destruct Hl as [<-|Hl].
      * intros [H|H].
        -- apply eqc_false in E. congruence.
        -- apply (IH l0); [left; reflexivity | exact H].
      * apply IH. right. exact Hl.
Qed.

(** ** Regular expressions: the matcher is the semantics *)

Lemma Matches_Seq_inv (r1 r2 : regex) (s : gostring) :
  Matches (Seq r1 r2) s ->
  exists s1 s2, s = s1 ++ s2 /\ Matches r1 s1 /\ Matches r2 s2.
Proof. inversion 1; subst. eauto. Qed.

Lemma Matches_Eps_inv (s : gostring) : Matches Eps s -> s = [].
Proof. inversion 1. reflexivity. Qed.

Lemma Matches_Class_inv (p : ascii -> bool) (s : gostring) :
  Matches (Class p) s -> exists c, s = [c] /\ p c = true.
Proof. inversion 1; subst. eauto. Qed.

Lemma nullable_Matches (r : regex) : nullable r = true <-> Matches r [].
Proof.
  induction r as [| |p|r1 IH1 r2 IH2|r1 IH1 r2 IH2|r IH]; simpl.
  - split; [discriminate | inversion 1].
  - split; [constructor | reflexivity].
  - split; [discriminate | inversion 1].
  - rewrite andb_true_iff, IH1, IH2. split.
    + intros [H1 H2]. exact (MSeq _ _ [] [] H1 H2).
    + intros H. apply Matches_Seq_inv in H as (s1 & s2 & Heq & H1 & H2).
      symmetry in Heq. apply app_eq_nil in Heq as [-> ->]. auto.
  - rewrite orb_true_iff, IH1, IH2. split.
    + intros [H|H]; [apply MAltL | apply MAltR]; exact H.
    + inversion 1; subst; auto.
  - split; [constructor | reflexivity].
Qed.

Lemma Matches_Star_cons_gen (r' : regex) (cs : gostring) :
  Matches r' cs ->
  forall r c s, r' = Star r -> cs = c :: s ->
  exists s1 s2, s = s1 ++ s2 /\ Matches r (c :: s1) /\ Matches (Star r) s2.
Proof.
  induction 1 as [| | | | | |r0 t1 t2 H1 _ H2 IH2]; intros rr a u Er Es;
    try discriminate.
  injection Er as ->.
  destruct t1 as [|c1 t1].
  - apply IH2; [reflexivity | exact Es].
  - simpl in Es. injection Es as Ha Hu. subst. exists t1, t2. auto.
Qed.

Lemma Matches_Star_cons (r : regex) (c : ascii) (s : gostring) :
  Matches (Star r) (c :: s) ->
  exists s1 s2, s = s1 ++ s2 /\ Matches r (c :: s1) /\ Matches (Star r) s2.
Proof. intros H. exact (Matches_Star_cons_gen _ _ H r c s eq_refl eq_refl). Qed.

Lemma deriv_Matches (c : ascii) (r : regex) (s : gostring) :
  Matches (deriv c r) s <-> Matches r (c :: s).
Proof.
  revert s.
  induction r as [| |p|r1 IH1 r2 IH2|r1 IH1 r2 IH2|r IH]; intros s; simpl.
  - split; inversion 1.
  - split; inversion 1.
  - destruct (p c) eqn:Hp; split.
    + inversion 1; subst. constructor. exact Hp.
    + inversion 1; subst. constructor.
    + inversion 1.
    + inversion 1; subst. congruence.
  - assert (Hseq : Matches (Seq (deriv c r1) r2) s ->
                   Matches (Seq r1 r2) (c :: s)).
    { intros H. apply Matches_Seq_inv in H as (s1 & s2 & -> & H1 & H2).
      apply IH1 in H1. exact (MSeq _ _ (c :: s1) s2 H1 H2). }
    assert (Hinv : Matches (Seq r1 r2) (c :: s) ->
                   Matches (Seq (deriv c r1) r2) s \/
                   (Matches r1 [] /\ Matches r2 (c :: s))).
    { intros H. apply Matches_Seq_inv in H as (s1 & s2 & Heq & H1 & H2).
      destruct s1 as [|c1 s1].
      - right. simpl in Heq. subst. auto.
      - left. simpl in Heq. injection Heq as Ha Hu. subst.
        apply MSeq; [apply IH1; exact H1 | exact H2]. }
    destruct (nullable r1) eqn:Hn; split.
    + inversion 1; subst; [auto|].
      apply nullable_Matches in Hn.
      apply (MSeq _ _ [] (c :: s) Hn). apply IH2. assumption.
    + intros H. destruct (Hinv H) as [H'|[_ H']].
      * apply MAltL. exact H'.
      * apply MAltR. apply IH2. exact H'.
    + exact Hseq.
    + intros H. destruct (Hinv H) as [H'|[H' _]]; [exact H'|].
      apply nullable_Matches in H'. congruence.
  - split.
    + inversion 1; subst; [apply MAltL; apply IH1 | apply MAltR; apply IH2];
        assumption.
    + inversion 1; subst; [apply MAltL; apply IH1 | apply MAltR; apply IH2];
        assumption.
  - split.
    + intros H. apply Matches_Seq_inv in H as (s1 & s2 & -> & H1 & H2).
      apply IH in H1. exact (MStarCons _ (c :: s1) s2 H1 H2).
    + intros H. apply Matches_Star_cons in H as (s1 & s2 & -> & H1 & H2).
      apply MSeq; [apply IH; exact H1 | exact H2].
Qed.

Theorem accepts_Matches (r : regex) (s : gostring) :
  accepts r s = true <-> Matches r s.
Proof.
  revert r. induction s as [|c s IH]; intros r; simpl.
  - apply nullable_Matches.
  - rewrite IH. apply deriv_Matches.
Qed.

Lemma accepts_false (r : regex) (s : gostring) :
  accepts r s = false <-> ~ Matches r s.
Proof.
  rewrite <- accepts_Matches. destruct (accepts r s); split; congruence.
Qed.

(** *** Reading and building matches *)

Lemma Matches_Lit (l s : gostring) : Matches (Lit l) s <-> s = l.
Proof.
  revert s. induction l as [|c l IH]; intros s; simpl.
  - split; [apply Matches_Eps_inv | intros ->; constructor].
  - split.
    + intros H. apply Matches_Seq_inv in H as (s1 & s2 & -> & H1 & H2).
      apply Matches_Class_inv in H1 as (c' & -> & Hc).
      apply eqc_true in Hc. apply IH in H2. subst. reflexivity.
    + intros ->. apply (MSeq _ _ [c] l).
      * constructor. apply eqc_refl.
      * apply IH. reflexivity.
Qed.

Lemma Matches_Star_Class_gen (r : regex) (s : gostring) :
  Matches r s ->
  forall p, r = Star (Class p) -> Forall (fun c => p c = true) s.
Proof.
  induction 1 as [| | | | | |r0 t1 t2 H1 _ H2 IH2]; intros q Er;
    try discriminate.
  - constructor.
  - injection Er as ->. apply Forall_app. split; [|auto].
    apply Matches_Class_inv in H1 as (c & -> & Hc). repeat constructor.
    exact Hc.
Qed.

Lemma Matches_Star_Class (p : ascii -> bool) (s : gostring) :
  Matches (Star (Class p)) s <-> Forall (fun c => p c = true) s.
Proof.
  split.
  - intros H. exact (Matches_Star_Class_gen _ _ H p eq_refl).
  - induction 1 as [|c s Hc _ IH]; [constructor|].
    apply (MStarCons _ [c] s); [constructor; exact Hc | exact IH].
Qed.

Lemma Matches_AnyTail (s : gostring) : Matches AnyTail s.
Proof.
  apply Matches_Star_Class. apply List.Forall_forall. reflexivity.
Qed.

(** Every byte of a match lies in one of the classes of the pattern. *)
Lemma Matches_within (P : ascii -> bool) (r : regex) (s : gostring) :
  classesWithin P r -> Matches r s -> Forall (fun c => P c = true) s.
Proof.
  intros Hr H. induction H; simpl in Hr.
  - constructor.
  - repeat constructor. auto.
  - destruct Hr. apply Forall_app. auto.
  - destruct Hr. auto.
  - destruct Hr. auto.
  - constructor.
  - apply Forall_app. auto.
Qed.

Lemma classesWithin_Lit (P : ascii -> bool) (l : gostring) :
  Forall (fun c => P c = true) l -> classesWithin P (Lit l).
Proof.
  induction 1 as [|c l Hc _ IH]; simpl; [exact I|].
  split; [|exact IH]. intros c' Hc'. apply eqc_true in Hc'. subst. exact Hc.
Qed.

Lemma classesWithin_Rep (P : ascii -> bool) (n : nat) (r : regex) :
  classesWithin P r -> classesWithin P (Rep n r).
Proof. intros H. induction n; simpl; auto. Qed.

(** ** internal/protocol: markers *)

Lemma tagByte_plain (c : ascii) :
  tagByte c = true ->
  isSpace c = false /\ inSet [CR; LF] c = false /\ c <> LF.
Proof.
  destruct c as [[] [] [] [] [] [] [] []]; vm_compute; intros H;
    try discriminate H; repeat split; discriminate.
Qed.

Lemma TrimSpace_clean (s : gostring) :
  Forall (fun c => isSpace c = false) s -> TrimSpace s = s.
Proof.
  intros H. unfold TrimSpace.
  assert (Hd : dropWhile isSpace s = s).
  { destruct H as [|c s Hc _]; [reflexivity|]. apply dropWhile_head. exact Hc. }
  rewrite Hd. apply (TrimRight_clean s [TAB; LF; VT; FF; CR; SP]). exact H.
Qed.

Lemma splitLines_nonempty (text : gostring) :
  text <> [] ->
  Protocol.splitLines text =
  map (fun l => TrimRight l [CR; LF]) (SplitLF text).
Proof. destruct text; [congruence | reflexivity]. Qed.

(** The lines of a text with one more line appended. *)
Lemma splitLines_snoc (reply x : gostring) :
  ~ In LF x ->
  Protocol.splitLines (reply ++ LF :: x) =
  map (fun l => TrimRight l [CR; LF]) (SplitLF reply) ++ [TrimRight x [CR; LF]].
Proof.
  intros Hx. rewrite splitLines_nonempty by (destruct reply; discriminate).
  rewrite SplitLF_app_LF, (SplitLF_clean x Hx), map_app. reflexivity.
Qed.


Lemma dropTrailing_snoc (p : gostring -> bool) (lines : list gostring)
  (l : gostring) :
  p l = true ->
  Protocol.dropTrailing p (lines ++ [l]) = Protocol.dropTrailing p lines.
Proof.
  intros H. unfold Protocol.dropTrailing. rewrite rev_app_distr. simpl.
  rewrite H. reflexivity.
Qed.

Lemma dropTrailing_keep (p : gostring -> bool) (lines : list gostring)
  (l : gostring) :
  p l = false ->
  Protocol.dropTrailing p (lines ++ [l]) = lines ++ [l].
Proof.
  intros H. unfold Protocol.dropTrailing. rewrite rev_app_distr. simpl.
  rewrite H. simpl. rewrite rev_involutive. reflexivity.
Qed.

(** A trailing noise line does not change done detection. *)
Lemma IsDoneText_skip (reply x reqID : gostring) :
  ~ In LF x ->
  Protocol.isTrailingNoiseLine (TrimRight x [CR; LF]) = true ->
  Protocol.IsDoneText (reply ++ LF :: x) reqID = Protocol.IsDoneText reply reqID.
Proof.
  intros Hx Hn. unfold Protocol.IsDoneText.
  rewrite splitLines_snoc by exact Hx.
  rewrite rev_app_distr. cbn [rev app Protocol.scanDone]. rewrite Hn.
  destruct reply as [|c reply]; [reflexivity|].
  rewrite splitLines_nonempty by discriminate. reflexivity.
Qed.

(** Nor what [StripDoneText] returns. *)
Lemma StripDoneText_skip (reply x reqID : gostring) :
  ~ In LF x ->
  Protocol.isTrailingNoiseLine (TrimRight x [CR; LF]) = true ->
  Protocol.StripDoneText (reply ++ LF :: x) reqID =
  Protocol.StripDoneText reply reqID.
Proof.
  intros Hx Hn. unfold Protocol.StripDoneText.
  rewrite splitLines_snoc by exact Hx.
  pose proof (SplitLF_nonempty reply) as Hne.
  destruct (map _ (SplitLF reply) ++ [_]) as [|l0 ls0] eqn:E.
  { apply app_eq_nil in E as [_ E]. discriminate. }
  rewrite <- E. clear E l0 ls0.
  rewrite dropTrailing_snoc by exact Hn.
  destruct reply as [|c reply].
  - reflexivity.
  - rewrite splitLines_nonempty by discriminate.
    destruct (map _ (SplitLF (c :: reply))) as [|l1 ls1] eqn:E; [|reflexivity].
    apply map_eq_nil in E. congruence.
Qed.

(** Nor what [StripTrailingMarkers] returns. *)
Lemma StripTrailingMarkers_skip (reply x : gostring) :
  ~ In LF x ->
  Protocol.isTrailingNoiseLine (TrimRight x [CR; LF]) = true ->
  Protocol.StripTrailingMarkers (reply ++ LF :: x) =
  Protocol.StripTrailingMarkers reply.
Proof.
  intros Hx Hn. unfold Protocol.StripTrailingMarkers.
  rewrite splitLines_snoc by exact Hx.
  rewrite dropTrailing_snoc by (rewrite Hn; reflexivity).
  destruct reply as [|c reply]; [reflexivity|].
  rewrite splitLines_nonempty by discriminate. reflexivity.
Qed.

(** *** Generic done tags *)

Lemma Matches_cat_cons (r : regex) (rs : list regex) (s1 s2 : gostring) :
  Matches r s1 -> Matches (cat rs) s2 -> Matches (cat (r :: rs)) (s1 ++ s2).
Proof. intros H1 H2. exact (MSeq _ _ _ _ H1 H2). Qed.

Lemma Matches_cat_nil : Matches (cat []) [].
Proof. constructor. Qed.

Lemma Matches_cat_inv (r : regex) (rs : list regex) (s : gostring) :
  Matches (cat (r :: rs)) s ->
  exists s1 s2, s = s1 ++ s2 /\ Matches r s1 /\ Matches (cat rs) s2.
Proof. apply Matches_Seq_inv. Qed.

Lemma Matches_Star_nil (r : regex) : Matches (Star r) [].
Proof. constructor. Qed.

(** A line of the tag form is matched by [genericDoneTagRE]. *)
Lemma doneTagLine_generic (x : gostring) :
  Matches doneTagLine x -> Matches Protocol.genericDoneTagRE x.
Proof.
  intros H. apply Matches_Seq_inv in H as (s1 & s2 & -> & H1 & H2).
  unfold Protocol.genericDoneTagRE.
  change (s1 ++ s2) with ([] ++ (s1 ++ s2)).
  apply Matches_cat_cons; [apply Matches_Star_nil|].
  apply Matches_cat_cons; [exact H1|].
  rewrite <- (app_nil_r s2).
  apply Matches_cat_cons.
  - inversion H2 as [| | |? ? ? Hm|? ? ? Hm| |]; subst.
    + apply MAltL.
      apply Matches_Seq_inv in Hm as (a & b & -> & Ha & Hb).
      change (a ++ b) with ([] ++ (a ++ b)).
      apply Matches_cat_cons; [apply Matches_Star_nil|].
      apply Matches_cat_cons; [exact Ha|].
      change b with ([] ++ b).
      apply Matches_cat_cons; [apply Matches_Star_nil|].
      rewrite <- (app_nil_r b).
      apply Matches_cat_cons; [exact Hb | apply Matches_cat_nil].
    + apply MAltR. exact Hm.
  - change (@nil ascii) with (@nil ascii ++ []).
    apply Matches_cat_cons; [apply Matches_Star_nil | apply Matches_cat_nil].
Qed.

Lemma classesWithin_cat (P : ascii -> bool) (rs : list regex) :
  Forall (classesWithin P) rs -> classesWithin P (cat rs).
Proof.
  induction 1 as [|r rs Hr _ IH]; [exact I|]. split; assumption.
Qed.

Lemma classesWithin_reStamp (P : ascii -> bool) :
  (forall c, isDigit c = true -> P c = true) -> P "-"%char = true ->
  classesWithin P Protocol.reStamp.
Proof.
  intros Hd Hm. unfold Protocol.reStamp.
  assert (HL : classesWithin P (Lit (str "-"))).
  { apply classesWithin_Lit. repeat constructor. exact Hm. }
  assert (HR : forall n, classesWithin P (Rep n reDigit)).
  { intros n. apply classesWithin_Rep. exact Hd. }
  apply classesWithin_cat.
  repeat (apply List.Forall_cons; [first [apply HR | exact HL]|]).
  apply List.Forall_cons; [|apply List.Forall_nil].
  split; exact Hd.
Qed.

Lemma classesWithin_doneTagLine : classesWithin tagByte doneTagLine.
Proof.
  assert (Hup : forall c, isUpper c = true -> tagByte c = true).
  { intros c H. unfold tagByte. rewrite H. reflexivity. }
  assert (Hdig : forall c, isDigit c = true -> tagByte c = true).
  { intros c H. unfold tagByte. rewrite H, orb_true_r. reflexivity. }
  split; [|split; [split|exact I]].
  - unfold Protocol.reTag. apply classesWithin_cat.
    apply List.Forall_cons; [exact Hup|].
    apply List.Forall_cons; [intros c H; unfold tagByte; rewrite H; reflexivity|].
    apply List.Forall_cons; [|apply List.Forall_nil].
    apply classesWithin_Lit. repeat constructor.
  - apply classesWithin_Lit. repeat constructor.
  - apply classesWithin_reStamp; [exact Hdig | reflexivity].
Qed.

Lemma Matches_reTag_nonempty (s : gostring) :
  Matches Protocol.reTag s -> s <> [].
Proof.
  intros H. apply Matches_cat_inv in H as (s1 & s2 & -> & H1 & _).
  apply Matches_Class_inv in H1 as (c & -> & _). discriminate.
Qed.

(** What a line of the tag form looks like to the line classifier. *)
Lemma doneTagLine_plain (x : gostring) :
  Matches doneTagLine x ->
  ~ In LF x /\ TrimRight x [CR; LF] = x /\ TrimSpace x = x /\ x <> [].
Proof.
  intros H.
  pose proof (Matches_within tagByte _ _ classesWithin_doneTagLine H) as Hb.
  rewrite List.Forall_forall in Hb.
  repeat split.
  - intros Hin. apply Hb in Hin. apply tagByte_plain in Hin as (_ & _ & Hne).
    congruence.
  - apply TrimRight_clean. apply List.Forall_forall. intros c Hc.
    apply Hb in Hc. apply tagByte_plain in Hc. tauto.
  - apply TrimSpace_clean. apply List.Forall_forall. intros c Hc.
    apply Hb in Hc. apply tagByte_plain in Hc. tauto.
  - apply Matches_Seq_inv in H as (s1 & s2 & -> & H1 & _).
    apply Matches_reTag_nonempty in H1. destruct s1; [congruence|discriminate].
Qed.

Lemma doneTagLine_noise (x : gostring) :
  accepts doneTagLine x = true ->
  accepts Protocol.ccbDonePrefixRE x = false ->
  ~ In LF x /\ Protocol.isTrailingNoiseLine (TrimRight x [CR; LF]) = true.
Proof.
  intros Hx Hc. apply accepts_Matches in Hx.
  destruct (doneTagLine_plain x Hx) as (HLF & Htrim & Hsp & Hne).
  split; [exact HLF|]. rewrite Htrim.
  unfold Protocol.isTrailingNoiseLine. rewrite Hsp.
  destruct (decide (x = [])) as [->|_]; [reflexivity|].
  unfold Protocol.isGenericDoneTag. rewrite Hc.
  apply doneTagLine_generic, accepts_Matches in Hx. rewrite Hx. reflexivity.
Qed.

(** C1: for every reply, every request id [r] and every line [x] of the
    form: a tag [[A-Z][A-Z0-9_]*_DONE], optionally followed by a colon and
    a stamp [\d{8}-\d{6}-\d{3}-\d+], that is not a CCB_DONE line (the
    pattern [ccbDonePrefixRE] does not match it), appending [x] as a new
    last line leaves done detection as it was. *)
Theorem IsDoneText_ignores_generic_tag (reply r x : gostring) :
  accepts doneTagLine x = true ->
  accepts Protocol.ccbDonePrefixRE x = false ->
  Protocol.IsDoneText (reply ++ LF :: x) r = Protocol.IsDoneText reply r.
Proof.
  intros Hx Hc. destruct (doneTagLine_noise x Hx Hc) as [HLF Hn].
  apply IsDoneText_skip; assumption.
Qed.

Lemma IsDoneText_ignores_generic_tag_witness :
  let r := str "20260125-143000-123-12345" in
  let reply := str "all good" ++ LF :: str "CCB_DONE: " ++ r in
  Protocol.IsDoneText (reply ++ LF :: str "CODEX_DONE:20260125-143000-123-777") r
  = Protocol.IsDoneText reply r /\
  Protocol.IsDoneText reply r = true.
Proof.
  intros r reply. split.
  - apply (IsDoneText_ignores_generic_tag reply r
             (str "CODEX_DONE:20260125-143000-123-777")).
    + vm_compute. reflexivity.
    + vm_compute. reflexivity.
  - vm_compute. reflexivity.
Defined.

(** *** CCB_DONE lines *)

(** A line [ccbDonePrefixRE] matches holds the word CCB_DONE. *)
Lemma ccbDonePrefix_not_blank (line : gostring) :
  accepts Protocol.ccbDonePrefixRE line = true -> TrimSpace line <> [].
Proof.
  intros H Hb. apply accepts_Matches in H.
  apply Matches_cat_inv in H as (s1 & s' & -> & _ & H).
  apply Matches_cat_inv in H as (s2 & s'' & -> & H2 & _).
  apply Matches_Lit in H2. subst s2.
  apply TrimSpace_nil_inv in Hb. rewrite List.Forall_forall in Hb.
  specialize (Hb "C"%char). discriminate Hb.
  apply in_or_app. right. left. reflexivity.
Qed.

Lemma ccbDonePrefix_not_noise (line : gostring) :
  accepts Protocol.ccbDonePrefixRE line = true ->
  Protocol.isTrailingNoiseLine line = false.
Proof.
  intros H. unfold Protocol.isTrailingNoiseLine.
  destruct (decide (TrimSpace line = [])) as [Hb|_].
  - exfalso. exact (ccbDonePrefix_not_blank line H Hb).
  - unfold Protocol.isGenericDoneTag. rewrite H. apply andb_false_r.
Qed.

(** C10: the bare line CCB_DONE, without a colon, is trailing noise;
    appended as a last line to any reply it changes neither
    [IsDoneText], for any request id, nor what [StripDoneText] and
    [StripTrailingMarkers] return.  No line that [ccbDonePrefixRE]
    matches, that is CCB_DONE followed by a colon, is noise. *)
Theorem bare_CCB_DONE_is_noise :
  Protocol.isTrailingNoiseLine (str "CCB_DONE") = true /\
  (forall reply r,
     Protocol.IsDoneText (reply ++ LF :: str "CCB_DONE") r =
     Protocol.IsDoneText reply r) /\
  (forall reply r,
     Protocol.StripDoneText (reply ++ LF :: str "CCB_DONE") r =
     Protocol.StripDoneText reply r) /\
  (forall reply,
     Protocol.StripTrailingMarkers (reply ++ LF :: str "CCB_DONE") =
     Protocol.StripTrailingMarkers reply) /\
  (forall line,
     accepts Protocol.ccbDonePrefixRE line &&
     Protocol.isTrailingNoiseLine line = false).
Proof.
  assert (HLF : ~ In LF (str "CCB_DONE")).
  { intros H. repeat (destruct H as [H|H]; [discriminate H|]). exact H. }
  assert (Hn : Protocol.isTrailingNoiseLine
                 (TrimRight (str "CCB_DONE") [CR; LF]) = true)
    by (vm_compute; reflexivity).
  split; [vm_compute; reflexivity|].
  split; [intros; apply IsDoneText_skip; assumption|].
  split; [intros; apply StripDoneText_skip; assumption|].
  split; [intros; apply StripTrailingMarkers_skip; assumption|].
  intros line.
  destruct (accepts Protocol.ccbDonePrefixRE line) eqn:H; [|reflexivity].
  apply ccbDonePrefix_not_noise. exact H.
Qed.

(** *** Wrapped prompts *)


Lemma notSpace_plain (c : ascii) :
  isSpace c = false ->
  inSet [CR; LF] c = false /\ inSet [LF; CR; TAB; SP] c = false /\ c <> LF.
Proof.
  destruct c as [[] [] [] [] [] [] [] []]; vm_compute; intros H;
    try discriminate H; repeat split; discriminate.
Qed.

Lemma dropLastIf_snoc (p : gostring -> bool) (lines : list gostring)
  (l : gostring) :
  p l = true -> Protocol.dropLastIf p (lines ++ [l]) = lines.
Proof.
  intros H. unfold Protocol.dropLastIf. rewrite rev_app_distr. simpl.
  rewrite H. apply rev_involutive.
Qed.

Lemma Matches_cat_single (r : regex) (s : gostring) :
  Matches r s -> Matches (cat [r]) s.
Proof.
  intros H. rewrite <- (app_nil_r s). apply Matches_cat_cons; [exact H|].
  apply Matches_cat_nil.
Qed.

Lemma Matches_cat_end (r : regex) (rs : list regex) (s : gostring) :
  Matches r s -> Matches (cat rs) [] -> Matches (cat (r :: rs)) s.
Proof.
  intros H1 H2. rewrite <- (app_nil_r s). apply Matches_cat_cons; assumption.
Qed.

Lemma Matches_spaces (s : gostring) :
  Forall (fun c => inSet [TAB; LF; FF; CR; SP] c = true) s ->
  Matches (Star reSpace) s.
Proof. apply Matches_Star_Class. Qed.

(** The done line of a request is matched by its own pattern and by the
    CCB_DONE prefix pattern. *)
Lemma doneLine_DoneLineRE (r : gostring) :
  accepts (Protocol.DoneLineRE r) (doneLine r) = true.
Proof.
  apply accepts_Matches. unfold Protocol.DoneLineRE.
  change (doneLine r) with ([] ++ (str "CCB_DONE:" ++ ([SP] ++ r))).
  apply Matches_cat_cons; [apply Matches_Star_nil|].
  apply Matches_cat_cons; [apply Matches_Lit; reflexivity|].
  apply Matches_cat_cons; [apply Matches_spaces; repeat constructor|].
  apply Matches_cat_end; [apply Matches_Lit; reflexivity|].
  apply Matches_cat_single, Matches_Star_nil.
Qed.

Lemma doneLine_prefix (r : gostring) :
  accepts Protocol.ccbDonePrefixRE (doneLine r) = true.
Proof.
  apply accepts_Matches. unfold Protocol.ccbDonePrefixRE.
  change (doneLine r)
    with ([] ++ (str "CCB_DONE" ++ ([] ++ (str ":" ++ (SP :: r))))).
  apply Matches_cat_cons; [apply Matches_Star_nil|].
  apply Matches_cat_cons; [apply Matches_Lit; reflexivity|].
  apply Matches_cat_cons; [apply Matches_Star_nil|].
  apply Matches_cat_cons; [apply Matches_Lit; reflexivity|].
  apply Matches_cat_single, Matches_AnyTail.
Qed.

Lemma doneLine_not_noise (r : gostring) :
  Protocol.isTrailingNoiseLine (doneLine r) = false.
Proof. apply ccbDonePrefix_not_noise, doneLine_prefix. Qed.


Lemma TrimRight_keep_suffix (pre s cutset : gostring) :
  s <> [] -> Forall (fun c => inSet cutset c = false) s ->
  TrimRight (pre ++ s) cutset = pre ++ s.
Proof.
  intros Hne Hall. destruct s as [|d s0] using rev_ind; [congruence|].
  rewrite app_assoc. apply TrimRight_snoc.
  apply Forall_app in Hall as [_ Hd]. inversion Hd; subst. assumption.
Qed.

Lemma plain_no_LF (r : gostring) :
  Forall (fun c => isSpace c = false) r -> ~ In LF r.
Proof.
  intros Hr H. rewrite List.Forall_forall in Hr. apply Hr in H. discriminate H.
Qed.

(** Text that ends in an id without white space is its own right trim. *)
Lemma plain_trim (pre r : gostring) :
  r <> [] -> Forall (fun c => isSpace c = false) r ->
  TrimRight (pre ++ r) [CR; LF] = pre ++ r.
Proof.
  intros Hne Hr. apply TrimRight_keep_suffix; [exact Hne|].
  eapply Forall_impl; [exact Hr|].
  intros c Hc. apply notSpace_plain in Hc. tauto.
Qed.


Section Wrapped.

Variables m r : gostring.
Hypothesis r_nonempty : r <> [].
Hypothesis r_plain : Forall (fun c => isSpace c = false) r.





End Wrapped.

Lemma In_dropWhile {A} (p : A -> bool) (l : list A) (x : A) :
  In x (dropWhile p l) -> In x l.
Proof.
  induction l as [|y l IH]; simpl; [tauto|].
  destruct (p y); [right; auto | tauto].
Qed.






(** *** Done detection *)


Lemma doneLine_no_LF (r : gostring) :
  ~ In LF r -> ~ In LF (doneLine r).
Proof.
  intros Hr H. unfold doneLine in H. apply in_app_or in H as [H|[H|H]].
  - repeat (destruct H as [H|H]; [discriminate H|]). exact H.
  - discriminate H.
  - exact (Hr H).
Qed.

Lemma doneLine_trim (r : gostring) :
  r <> [] -> Forall (fun c => isSpace c = false) r ->
  TrimRight (doneLine r) [CR; LF] = doneLine r.
Proof.
  intros Hne Hr. unfold doneLine. change (SP :: r) with ([SP] ++ r).
  rewrite app_assoc. apply plain_trim; assumption.
Qed.

(** Scanning for the done line is a look at the last line that is not
    noise. *)
Lemma scanDone_dropWhile (re : regex) (rlines : list gostring) :
  Protocol.scanDone re rlines =
  match dropWhile Protocol.isTrailingNoiseLine rlines with
  | [] => false
  | l :: _ => accepts re l
  end.
Proof.
  induction rlines as [|l rest IH]; [reflexivity|].
  simpl. destruct (Protocol.isTrailingNoiseLine l); [exact IH | reflexivity].
Qed.










(** *** Stripping markers *)

Lemma dropWhile_idem {A} (p : A -> bool) (l : list A) :
  dropWhile p (dropWhile p l) = dropWhile p l.
Proof.
  induction l as [|x l IH]; [reflexivity|].
  simpl. destruct (p x) eqn:E; [exact IH|]. simpl. rewrite E. reflexivity.
Qed.

(** On a text that is not done, [StripDoneText] only drops the trailing
    noise. *)
Lemma StripDoneText_not_done (lines : list gostring) (reqID : gostring) :
  Protocol.scanDone (Protocol.DoneLineRE reqID) (rev lines) = false ->
  Protocol.dropTrailing Protocol.isTrailingNoiseLine
    (Protocol.dropLastIf (accepts (Protocol.DoneLineRE reqID))
       (Protocol.dropTrailing Protocol.isTrailingNoiseLine lines)) =
  Protocol.dropTrailing Protocol.isTrailingNoiseLine lines.
Proof.
  intros H. rewrite scanDone_dropWhile in H.
  unfold Protocol.dropLastIf, Protocol.dropTrailing.
  rewrite rev_involutive.
  pose proof (dropWhile_idem Protocol.isTrailingNoiseLine (rev lines)) as Hi.
  destruct (dropWhile Protocol.isTrailingNoiseLine (rev lines))
    as [|l rest].
  - reflexivity.
  - rewrite H, rev_involutive, Hi. reflexivity.
Qed.

(** X4: Appending the done line of the request to a reply that is not done
    and stripping it again gives what stripping the reply alone gives. *)
Theorem StripDoneText_appended_done (reply r : gostring) :
  r <> [] ->
  Forall (fun c => isSpace c = false) r ->
  Protocol.IsDoneText reply r = false ->
  Protocol.StripDoneText (reply ++ LF :: str "CCB_DONE: " ++ r) r =
  Protocol.StripDoneText reply r.
Proof.
  intros Hne Hr Hnot.
  change (str "CCB_DONE: " ++ r) with (doneLine r).
  unfold Protocol.StripDoneText.
  rewrite splitLines_snoc by (apply doneLine_no_LF, plain_no_LF, Hr).
  rewrite doneLine_trim by assumption.
  set (L := map (fun l => TrimRight l [CR; LF]) (SplitLF reply)).
  destruct (L ++ [doneLine r]) as [|l0 ls0] eqn:E.
  { apply app_eq_nil in E as [_ E]. discriminate. }
  rewrite <- E. clear E l0 ls0.
  rewrite dropTrailing_keep by apply doneLine_not_noise.
  rewrite dropLastIf_snoc by apply doneLine_DoneLineRE.
  destruct reply as [|c reply].
  - reflexivity.
  - rewrite splitLines_nonempty by discriminate. fold L.
    destruct L as [|l1 ls1] eqn:EL.
    { apply map_eq_nil in EL. pose proof (SplitLF_nonempty (c :: reply)).
      congruence. }
    rewrite <- EL. rewrite StripDoneText_not_done; [reflexivity|].
    unfold Protocol.IsDoneText in Hnot.
    rewrite splitLines_nonempty in Hnot by discriminate. exact Hnot.
Qed.

Lemma StripDoneText_appended_done_witness :
  let r := str "20260125-143000-123-12345" in
  let reply := str "the answer is 42" ++ [LF] ++ str "CODEX_DONE" in
  Protocol.StripDoneText (reply ++ LF :: str "CCB_DONE: " ++ r) r =
  Protocol.StripDoneText reply r.
Proof.
  intros r reply.
  apply (StripDoneText_appended_done reply r).
  - discriminate.
  - repeat constructor.
  - vm_compute. reflexivity.
Defined.

Lemma stamp_plain (r : gostring) :
  accepts Protocol.reStamp r = true ->
  r <> [] /\ Forall (fun c => isSpace c = false) r.
Proof.
  intros H. apply accepts_Matches in H. split.
  - intros ->. apply accepts_Matches in H. discriminate H.
  - assert (Hc : classesWithin tagByte Protocol.reStamp).
    { apply classesWithin_reStamp; [|reflexivity].
      intros c Hd. unfold tagByte. rewrite Hd, orb_true_r. reflexivity. }
    pose proof (Matches_within tagByte _ _ Hc H) as Hb.
    eapply Forall_impl; [exact Hb|].
    intros c Ht. apply tagByte_plain in Ht. tauto.
Qed.

Lemma doneLine_anyCCBDone (r : gostring) :
  accepts Protocol.reStamp r = true ->
  accepts Protocol.anyCCBDoneLineRE (doneLine r) = true.
Proof.
  intros H. apply accepts_Matches in H. apply accepts_Matches.
  unfold Protocol.anyCCBDoneLineRE.
  change (doneLine r) with ([] ++ (str "CCB_DONE:" ++ ([SP] ++ r))).
  apply Matches_cat_cons; [apply Matches_Star_nil|].
  apply Matches_cat_cons; [apply Matches_Lit; reflexivity|].
  apply Matches_cat_cons; [apply Matches_spaces; repeat constructor|].
  apply Matches_cat_end; [exact H|].
  apply Matches_cat_single, Matches_Star_nil.
Qed.

(** X5: [StripTrailingMarkers] drops a trailing done line of any request
    whose id has the shape [MakeReqID] prints. *)
Theorem StripTrailingMarkers_done_line (reply r : gostring) :
  accepts Protocol.reStamp r = true ->
  Protocol.StripTrailingMarkers (reply ++ LF :: str "CCB_DONE: " ++ r) =
  Protocol.StripTrailingMarkers reply.
Proof.
  intros Hs. destruct (stamp_plain r Hs) as [Hne Hr].
  change (str "CCB_DONE: " ++ r) with (doneLine r).
  unfold Protocol.StripTrailingMarkers.
  rewrite splitLines_snoc by (apply doneLine_no_LF, plain_no_LF, Hr).
  rewrite doneLine_trim by assumption.
  rewrite dropTrailing_snoc
    by (rewrite (doneLine_anyCCBDone r Hs); apply orb_true_r).
  destruct reply as [|c reply]; [reflexivity|].
  rewrite splitLines_nonempty by discriminate. reflexivity.
Qed.

Lemma StripTrailingMarkers_done_line_witness :
  Protocol.StripTrailingMarkers
    (str "result: ok" ++ LF :: str "CCB_DONE: " ++ str "20260125-143000-123-12345")
  = Protocol.StripTrailingMarkers (str "result: ok").
Proof.
  apply (StripTrailingMarkers_done_line (str "result: ok")
           (str "20260125-143000-123-12345")).
  vm_compute. reflexivity.
Defined.

(** *** Request ids *)

Lemma digit_isDigit (n : Z) : isDigit (Protocol.digit n) = true.
Proof.
  unfold Protocol.digit.
  assert (H : (Z.to_nat (n mod 10) < 10)%nat).
  { pose proof (Z.mod_pos_bound n 10 ltac:(lia)). lia. }
  generalize dependent (Z.to_nat (n mod 10)). intros k Hk.
  do 10 (destruct k as [|k]; [reflexivity|]). lia.
Qed.

Lemma padded_digits (w : nat) (n : Z) :
  length (Protocol.padded w n) = w /\
  Forall (fun c => isDigit c = true) (Protocol.padded w n).
Proof.
  revert n. induction w as [|w IH]; intros n; cbn [Protocol.padded].
  - split; [reflexivity | constructor].
  - destruct (IH (n / 10)) as [Hl Hd]. split.
    + rewrite length_app, Hl. cbn. lia.
    + apply Forall_app. split; [exact Hd|].
      repeat constructor. apply digit_isDigit.
Qed.

Lemma uint_digits (u : Decimal.uint) :
  Forall (fun c => isDigit c = true) (str (NilEmpty.string_of_uint u)).
Proof.
  induction u; cbn [NilEmpty.string_of_uint str list_ascii_of_string];
    constructor; try reflexivity; assumption.
Qed.

Lemma formatInt_digits (n : Z) :
  0 <= n ->
  Protocol.formatInt n <> [] /\
  Forall (fun c => isDigit c = true) (Protocol.formatInt n).
Proof.
  intros Hn. unfold Protocol.formatInt.
  destruct (Z.ltb_spec n 0) as [H|_]; [lia|].
  unfold NilZero.string_of_uint.
  destruct (N.to_uint (Z.to_N n)) as [|u|u|u|u|u|u|u|u|u|u] eqn:E;
    (split; [discriminate|]); cbv iota;
    first [ apply uint_digits | repeat constructor ].
Qed.

Lemma Matches_Rep_digits (s : gostring) :
  Forall (fun c => isDigit c = true) s ->
  Matches (Rep (length s) reDigit) s.
Proof.
  induction 1 as [|c s Hc _ IH]; cbn [length Rep]; [constructor|].
  change (c :: s) with ([c] ++ s). apply MSeq; [constructor; exact Hc | exact IH].
Qed.

Lemma Matches_Rep_app (n m : nat) (r : regex) (s t : gostring) :
  Matches (Rep n r) s -> Matches (Rep m r) t -> Matches (Rep (n + m) r) (s ++ t).
Proof.
  revert s. induction n as [|n IH]; intros s Hs Ht; cbn [Rep Nat.add] in *.
  - apply Matches_Eps_inv in Hs. subst. exact Ht.
  - apply Matches_Seq_inv in Hs as (s1 & s2 & -> & H1 & H2).
    rewrite <- app_assoc. apply MSeq; [exact H1 | apply IH; assumption].
Qed.

Lemma Matches_padded (w : nat) (n : Z) :
  Matches (Rep w reDigit) (Protocol.padded w n).
Proof.
  destruct (padded_digits w n) as [Hl Hd].
  rewrite <- Hl at 1. apply Matches_Rep_digits. exact Hd.
Qed.

Lemma MakeReqID_stamp (now : Protocol.Time) (pid : Z) :
  0 <= pid -> accepts Protocol.reStamp (Protocol.MakeReqID now pid) = true.
Proof.
  intros Hpid. apply accepts_Matches.
  unfold Protocol.MakeReqID, Protocol.reStamp. cbv zeta.
  rewrite <- !app_assoc.
  rewrite (app_assoc (Protocol.padded 4 _)), (app_assoc (_ ++ _) (Protocol.padded 2 (Protocol.Day now))).
  apply Matches_cat_cons.
  { apply (Matches_Rep_app 6 2); [apply (Matches_Rep_app 4 2)|];
      apply Matches_padded. }
  apply Matches_cat_cons; [apply Matches_Lit; reflexivity|].
  rewrite (app_assoc (Protocol.padded 2 _)),
    (app_assoc (_ ++ _) (Protocol.padded 2 (Protocol.Second now))).
  apply Matches_cat_cons.
  { apply (Matches_Rep_app 4 2); [apply (Matches_Rep_app 2 2)|];
      apply Matches_padded. }
  apply Matches_cat_cons; [apply Matches_Lit; reflexivity|].
  apply Matches_cat_cons; [apply Matches_padded|].
  apply Matches_cat_cons; [apply Matches_Lit; reflexivity|].
  apply Matches_cat_single.
  destruct (formatInt_digits pid Hpid) as [Hne Hd].
  destruct (Protocol.formatInt pid) as [|c s]; [congruence|].
  inversion Hd as [|? ? Hc Hs]; subst.
  change (c :: s) with ([c] ++ s). apply MSeq; [constructor; exact Hc|].
  apply Matches_Star_Class. exact Hs.
Qed.

(** X6: Every id [MakeReqID] makes, at a time of the years 0 to 9999 in a
    process with a non-negative id, has the shape
    [\d{8}-\d{6}-\d{3}-\d+] the marker patterns expect; it is not empty
    and holds no white space. *)
Theorem MakeReqID_shape (now : Protocol.Time) (pid : Z) :
  validTime now -> 0 <= pid ->
  accepts Protocol.reStamp (Protocol.MakeReqID now pid) = true /\
  Protocol.MakeReqID now pid <> [] /\
  Forall (fun c => isSpace c = false) (Protocol.MakeReqID now pid).
Proof.
  intros _ Hpid. pose proof (MakeReqID_stamp now pid Hpid) as H.
  split; [exact H | exact (stamp_plain _ H)].
Qed.

Lemma MakeReqID_shape_witness :
  Protocol.MakeReqID (Protocol.mkTime 2026 1 25 14 30 0 123456789) 12345
  = str "20260125-143000-123-12345" /\
  accepts Protocol.reStamp (str "20260125-143000-123-12345") = true.
Proof.
  split; [vm_compute; reflexivity|].
  change (str "20260125-143000-123-12345")
    with (Protocol.MakeReqID (Protocol.mkTime 2026 1 25 14 30 0 123456789) 12345).
  apply (MakeReqID_shape (Protocol.mkTime 2026 1 25 14 30 0 123456789) 12345).
  - unfold validTime. cbn. lia.
  - lia.
Defined.

(** ** internal/comm: the forward tailer *)

Lemma last_app_nonempty {A} (l k : list A) (d : A) :
  k <> [] -> List.last (l ++ k) d = List.last k d.
Proof.
  intros Hk. induction l as [|x l IH]; [reflexivity|].
  simpl. rewrite IH. destruct (l ++ k) eqn:E; [|reflexivity].
  apply app_eq_nil in E as [_ ->]. congruence.
Qed.

Lemma inStep_new : inStep Comm.NewLogReader [].
Proof. split; reflexivity. Qed.

(** Reading after [t] was appended gives the lines [t] completed. *)
Lemma ReadNew_append (r : Comm.LogReader) (content t : gostring) :
  inStep r content ->
  exists lines r',
    Comm.ReadNew (Some (content ++ t)) r = (Comm.OK lines, r') /\
    inStep r' (content ++ t) /\
    map (fun p => TrimRight p [CR]) (List.removelast (SplitLF content))
      ++ lines
    = map (fun p => TrimRight p [CR])
          (List.removelast (SplitLF (content ++ t))).
Proof.
  intros [Hoff Hcarry]. unfold Comm.ReadNew.
  rewrite length_app, Nat2Z.inj_add, Hoff.
  destruct (Z.ltb_spec (Z.of_nat (length content) + Z.of_nat (length t))
              (Z.of_nat (length content))) as [Hlt|_]; [lia|].
  rewrite Hoff.
  destruct (Z.eqb_spec (Z.of_nat (length content) + Z.of_nat (length t))
              (Z.of_nat (length content))) as [Heq|Hne].
  - assert (t = []) as -> by (destruct t; [reflexivity|simpl in Heq; lia]).
    exists [], r. rewrite !app_nil_r. repeat split; assumption.
  - rewrite Nat2Z.id, drop_app_length, Hcarry.
    eexists _, _. split; [reflexivity|].
    pose proof (SplitLF_nonempty (List.last (SplitLF content) [] ++ t)) as Hne'.
    unfold inStep. rewrite (SplitLF_app content t).
    split; [split|].
    + cbn [Comm.offset]. rewrite length_app. lia.
    + cbn [Comm.carry]. rewrite last_app_nonempty by assumption. reflexivity.
    + rewrite List.removelast_app by assumption.
      rewrite map_app. reflexivity.
Qed.

(** C3: a text written to the log in two pieces [t1] and [t2], wherever
    the cut falls, read by one [ReadNew] after each write: both calls
    succeed, the first returns the complete lines of [t1], the two
    together return the complete (newline-terminated) lines of
    [t1 ++ t2] in order, each once and stripped of trailing carriage
    returns, and the reader is left carrying the unfinished last line. *)
Theorem ReadNew_two_pieces (t1 t2 : gostring) :
  exists l1 l2 r1 r2,
    Comm.ReadNew (Some t1) Comm.NewLogReader = (Comm.OK l1, r1) /\
    Comm.ReadNew (Some (t1 ++ t2)) r1 = (Comm.OK l2, r2) /\
    l1 = map (fun p => TrimRight p [CR]) (List.removelast (SplitLF t1)) /\
    l1 ++ l2 =
      map (fun p => TrimRight p [CR]) (List.removelast (SplitLF (t1 ++ t2))) /\
    Comm.carry r2 = List.last (SplitLF (t1 ++ t2)) [].
Proof.
  destruct (ReadNew_append Comm.NewLogReader [] t1 inStep_new)
    as (l1 & r1 & E1 & S1 & L1).
  destruct (ReadNew_append r1 t1 t2 S1) as (l2 & r2 & E2 & S2 & L2).
  change ([] ++ t1) with t1 in *. change (SplitLF []) with [[]:gostring] in L1.
  cbn [List.removelast map app] in L1.
  exists l1, l2, r1, r2.
  split; [exact E1|]. split; [exact E2|]. split; [exact L1|].
  split; [rewrite L1; exact L2 | apply S2].
Qed.

(** ** internal/comm: the backward tailer *)

(** C4: a file that ends in an empty line, read backwards in chunks of
    three bytes: the one line asked for comes back as the fragment [z] of
    the line [xyz]; the same file read in one chunk gives [xyz]. *)
Theorem ReadLastLines_chunk_fragment :
  Comm.ReadLastLines (Some (str "xyz" ++ [LF; LF])) (Comm.mkReverseReader 3) 1
    = Comm.OK [str "z"] /\
  Comm.ReadLastLines (Some (str "xyz" ++ [LF; LF]))
    (Comm.mkReverseReader 8192) 1 = Comm.OK [str "xyz"] /\
  Comm.readAllLines (Some (str "xyz" ++ [LF; LF])) = Comm.OK [str "xyz"].
Proof. repeat split; vm_compute; reflexivity. Qed.

(** ** internal/comm: more on the forward tailer *)

Lemma readAppends_inStep (chunks : list gostring) (content : gostring)
  (r : Comm.LogReader) :
  inStep r content ->
  exists ls,
    fst (readAppends content r chunks) = map Comm.OK ls /\
    completeLines content ++ concat ls =
      completeLines (content ++ concat chunks) /\
    inStep (snd (readAppends content r chunks)) (content ++ concat chunks).
Proof.
  revert content r. induction chunks as [|t rest IH]; intros content r Hs.
  - exists []. cbn. rewrite !app_nil_r. auto.
  - destruct (ReadNew_append r content t Hs) as (l & r' & E & Hs' & HL).
    destruct (IH (content ++ t) r' Hs') as (ls & E' & HL' & Hs'').
    exists (l :: ls). cbn [readAppends concat map]. rewrite E. cbn [fst snd].
    rewrite E'. rewrite (app_assoc content t).
    split; [reflexivity|]. split; [|exact Hs''].
    rewrite <- HL'. unfold completeLines. rewrite <- HL.
    rewrite <- !app_assoc. reflexivity.
Qed.

(** X7: Any number of appends, one [ReadNew] after each, from a new reader:
    every call succeeds; the lines returned, taken together, are the
    complete lines of everything written, in order and each once; the
    unfinished last line is in the carry. *)
Theorem ReadNew_appends (chunks : list gostring) :
  exists ls,
    fst (readAppends [] Comm.NewLogReader chunks) = map Comm.OK ls /\
    concat ls = completeLines (concat chunks) /\
    Comm.carry (snd (readAppends [] Comm.NewLogReader chunks)) =
      List.last (SplitLF (concat chunks)) [].
Proof.
  destruct (readAppends_inStep chunks [] Comm.NewLogReader inStep_new)
    as (ls & E & HL & Hs).
  exists ls. split; [exact E|]. split; [exact HL | apply Hs].
Qed.




(** X9: A file that has become shorter is read again from its start: the
    call returns the complete lines of the new content and forgets the
    old carry.  A file rewritten to the same length is taken as
    unchanged. *)
Theorem ReadNew_truncated (r : Comm.LogReader) (old new : gostring) :
  inStep r old ->
  ((length new < length old)%nat ->
   exists r',
     Comm.ReadNew (Some new) r = (Comm.OK (completeLines new), r') /\
     inStep r' new) /\
  (length new = length old -> Comm.ReadNew (Some new) r = (Comm.OK [], r)).
Proof.
  intros [Hoff Hcarry]. unfold Comm.ReadNew. rewrite Hoff. split.
  - intros Hlt.
    destruct (Z.ltb_spec (Z.of_nat (length new)) (Z.of_nat (length old)))
      as [_|Hge]; [|lia].
    cbn [Comm.offset Comm.carry].
    destruct new as [|c new].
    + exists (Comm.mkLogReader 0 []). split; [reflexivity|]. split; reflexivity.
    + destruct (Z.eqb_spec (Z.of_nat (length (c :: new))) 0) as [E|_];
        [simpl in E; lia|].
      eexists. split; [reflexivity|]. split.
      * cbn [Comm.offset]. simpl. lia.
      * reflexivity.
  - intros Heq. rewrite Heq, Z.ltb_irrefl, Hoff, Z.eqb_refl. reflexivity.
Qed.

Lemma ReadNew_truncated_witness :
  exists r',
    Comm.ReadNew (Some (str "x" ++ [LF] ++ str "y"))
      (Comm.mkLogReader 12 (str "tail")) =
      (Comm.OK (completeLines (str "x" ++ [LF] ++ str "y")), r') /\
    inStep r' (str "x" ++ [LF] ++ str "y").
Proof.
  apply (ReadNew_truncated (Comm.mkLogReader 12 (str "tail"))
           (str "one" ++ [LF] ++ str "two" ++ [LF] ++ str "tail")
           (str "x" ++ [LF] ++ str "y")).
  - split; reflexivity.
  - vm_compute. lia.
Defined.

(** X10: After [ReadAll], and after [SeekEnd], the next [ReadNew] returns the
    complete lines of what was appended since, and of that alone: an
    unfinished last line of the old content is not joined with its
    continuation. *)
Theorem ReadNew_after_ReadAll (r : Comm.LogReader) (content t : gostring) :
  t <> [] ->
  Comm.ReadNew (Some (content ++ t)) (snd (Comm.ReadAll (Some content) r)) =
    (Comm.OK (completeLines t),
     Comm.mkLogReader (Z.of_nat (length (content ++ t)))
       (List.last (SplitLF t) [])) /\
  Comm.ReadNew (Some (content ++ t))
    (snd (Comm.SeekEnd (Comm.StatSize (Z.of_nat (length content))) r)) =
    (Comm.OK (completeLines t),
     Comm.mkLogReader (Z.of_nat (length (content ++ t)))
       (List.last (SplitLF t) [])).
Proof.
  intros Ht.
  assert (H : Comm.ReadNew (Some (content ++ t))
                (Comm.mkLogReader (Z.of_nat (length content)) []) =
              (Comm.OK (completeLines t),
               Comm.mkLogReader (Z.of_nat (length (content ++ t)))
                 (List.last (SplitLF t) []))).
  { unfold Comm.ReadNew. cbn [Comm.offset Comm.carry].
    rewrite length_app, Nat2Z.inj_add.
    destruct (Z.ltb_spec (Z.of_nat (length content) + Z.of_nat (length t))
                (Z.of_nat (length content))) as [Hlt|_]; [lia|].
    cbn [Comm.offset Comm.carry].
    destruct (Z.eqb_spec (Z.of_nat (length content) + Z.of_nat (length t))
                (Z.of_nat (length content))) as [Heq|_].
    { destruct t; [congruence | simpl in Heq; lia]. }
    rewrite Nat2Z.id, drop_app_length. cbn [app].
    rewrite <- Nat2Z.inj_add. reflexivity. }
  split.
  - destruct content; exact H.
  - exact H.
Qed.

Lemma ReadNew_after_ReadAll_witness :
  Comm.ReadNew (Some (str "par" ++ str "tial" ++ [LF]))
    (snd (Comm.ReadAll (Some (str "par")) Comm.NewLogReader)) =
  (Comm.OK [str "tial"], Comm.mkLogReader 8 []).
Proof.
  apply (ReadNew_after_ReadAll Comm.NewLogReader (str "par") (str "tial" ++ [LF])).
  discriminate.
Defined.

(** ** internal/comm: more on the backward tailer *)

(** Text put in front of a split text continues its first piece. *)
Lemma SplitLF_glue (a b l : gostring) (P : list gostring) :
  SplitLF b = l :: P -> SplitLF (a ++ b) = SplitLF (a ++ l) ++ P.
Proof.
  intros Hb. induction a as [|c a IH].
  - cbn [app]. rewrite Hb. rewrite SplitLF_clean; [reflexivity|].
    apply (SplitLF_no_LF b). rewrite Hb. left. reflexivity.
  - change ((c :: a) ++ b) with (c :: (a ++ b)).
    change ((c :: a) ++ l) with (c :: (a ++ l)).
    rewrite !SplitLF_cons, IH.
    destruct (eqc c LF); [reflexivity|].
    pose proof (SplitLF_nonempty (a ++ l)) as Hne.
    destruct (SplitLF (a ++ l)); [congruence | reflexivity].
Qed.

Lemma scanned_start (content : gostring) :
  content <> [] -> scanned content (Comm.mkScan [] (length content) []).
Proof.
  intros Hne. split; [cbn; lia|]. left. cbn [Comm.pos Comm.leftover Comm.collected].
  split; [destruct content; [congruence | simpl; lia]|].
  exists []. rewrite drop_all. split; reflexivity.
Qed.

Lemma scanStep_scanned (content : gostring) (chunkSize : nat) (st : Comm.scan) :
  (0 < chunkSize)%nat -> (0 < Comm.pos st)%nat ->
  scanned content st ->
  scanned content (Comm.scanStep content chunkSize st) /\
  (Comm.pos (Comm.scanStep content chunkSize st) < Comm.pos st)%nat.
Proof.
  intros Hc Hp [Hle [[_ (P & HP & HC)]|[H0 _]]]; [|lia].
  unfold Comm.scanStep.
  set (rs := Nat.min chunkSize (Comm.pos st)).
  set (pos' := (Comm.pos st - rs)%nat).
  assert (Hrs : (0 < rs <= Comm.pos st)%nat) by (unfold rs; lia).
  assert (Hdrop : drop pos' content =
                  take rs (drop pos' content) ++ drop (Comm.pos st) content).
  { rewrite <- (take_drop rs (drop pos' content)) at 1.
    rewrite drop_drop. replace (pos' + rs)%nat with (Comm.pos st)
      by (unfold pos'; lia). reflexivity. }
  pose proof (SplitLF_glue (take rs (drop pos' content)) _ _ _ HP) as Hg.
  rewrite <- Hdrop in Hg.
  pose proof (SplitLF_nonempty (take rs (drop pos' content) ++ Comm.leftover st))
    as Hne.
  split; [|cbn [Comm.pos]; unfold pos'; lia].
  split; [cbn [Comm.pos]; unfold pos'; lia|].
  cbn [Comm.pos Comm.leftover Comm.collected].
  destruct (Nat.ltb_spec 0 pos') as [Hpos|Hpos].
  - left. split; [exact Hpos|].
    destruct (SplitLF (take rs (drop pos' content) ++ Comm.leftover st))
      as [|h T]; [congruence|].
    exists (T ++ P). cbn [List.hd List.tl]. split; [exact Hg|].
    rewrite map_app, HC. reflexivity.
  - right. assert (pos' = 0%nat) as E by lia.
    split; [exact E|]. split; [reflexivity|].
    unfold pieces. rewrite HC, <- map_app, <- Hg, E, drop_0. reflexivity.
Qed.


Lemma lastN_drop (n : Z) (l : list gostring) :
  Comm.lastN n l = drop (length l - Z.to_nat n) l.
Proof.
  unfold Comm.lastN. destruct (Z.ltb_spec n (Z.of_nat (length l))) as [H|H].
  - reflexivity.
  - replace (length l - Z.to_nat n)%nat with 0%nat by lia. reflexivity.
Qed.





Lemma readAllLines_pieces (content : gostring) :
  Comm.readAllLines (Some content) =
  Comm.OK (match content with
           | [] => []
           | _ => dropTrailingEmpty (pieces content)
           end).
Proof. destruct content; reflexivity. Qed.



Lemma dropWhile_first {A} (p : A -> bool) (l : list A) (x : A) (t : list A) :
  dropWhile p l = x :: t -> p x = false.
Proof.
  induction l as [|y l IH]; simpl; [discriminate|].
  destruct (p y) eqn:E; [exact IH|]. intros H. injection H as <- _. exact E.
Qed.

Lemma last_drop {A} (k : nat) (l : list A) (d : A) :
  drop k l <> [] -> List.last (drop k l) d = List.last l d.
Proof.
  revert l. induction k as [|k IH]; intros l H; [rewrite drop_0; reflexivity|].
  destruct l as [|x l]; [reflexivity|].
  cbn [drop] in *. rewrite IH by exact H.
  destruct l; [rewrite drop_nil in H; congruence | reflexivity].
Qed.

Lemma dropTrailingEmpty_last (l : list gostring) :
  dropTrailingEmpty l <> [] -> List.last (dropTrailingEmpty l) [] <> [].
Proof.
  unfold dropTrailingEmpty.
  destruct (dropWhile Comm.isEmpty (rev l)) as [|x t] eqn:E;
    [intros H; exfalso; apply H; reflexivity|].
  intros _. cbn [rev]. rewrite last_last.
  apply dropWhile_first in E. destruct x; [discriminate E | discriminate].
Qed.

(** X12: Whatever the file and the chunk size, [ReadLastLines(n)] returns at
    most [n] lines, and the last of them is not empty. *)
Theorem ReadLastLines_bounds (file : option gostring) (r : Comm.ReverseReader)
  (n : Z) (lines : list gostring) :
  Comm.ReadLastLines file r n = Comm.OK lines ->
  Z.of_nat (length lines) <= Z.max n 0 /\
  (lines <> [] -> List.last lines [] <> []).
Proof.
  unfold Comm.ReadLastLines. intros H.
  destruct (Z.leb_spec n 0) as [Hn|Hn].
  { injection H as <-. split; [simpl; lia | congruence]. }
  destruct file as [content|]; [|discriminate].
  destruct (length content =? 0)%nat.
  { injection H as <-. split; [simpl; lia | congruence]. }
  injection H as <-. rewrite lastN_drop.
  match goal with
  | |- context [rev (dropWhile Comm.isEmpty (rev ?c))] =>
      change (rev (dropWhile Comm.isEmpty (rev c))) with (dropTrailingEmpty c);
      set (D := dropTrailingEmpty c)
  end.
  split.
  - rewrite length_drop. lia.
  - intros Hne. rewrite last_drop by exact Hne.
    apply dropTrailingEmpty_last. intros E. apply Hne.
    unfold D. rewrite E. apply drop_nil.
Qed.

Lemma ReadLastLines_bounds_witness :
  Z.of_nat (length [str "z"]) <= Z.max 1 0 /\
  ([str "z"] <> [] -> List.last [str "z"] [] <> []).
Proof.
  apply (ReadLastLines_bounds (Some (str "xyz" ++ [LF; LF]))
           (Comm.mkReverseReader 3) 1 [str "z"]).
  vm_compute. reflexivity.
Defined.

(** *** FindLast *)

Lemma scanned_pieces (content : gostring) (st : Comm.scan) :
  scanned content st ->
  exists front, pieces content = front ++ Comm.collected st.
Proof.
  intros [_ [[_ (P & HP & HC)]|(_ & _ & HC)]].
  - exists (pieces (take (Comm.pos st) content ++ Comm.leftover st)).
    unfold pieces. rewrite HC, <- map_app. f_equal.
    rewrite <- (take_drop (Comm.pos st) content) at 1.
    apply SplitLF_glue. exact HP.
  - exists []. symmetry. exact HC.
Qed.

Lemma findLoop_spec (predicate : gostring -> bool) (content : gostring)
  (chunkSize : nat) (fuel : nat) (st : Comm.scan) :
  (0 < chunkSize)%nat -> (Comm.pos st <= fuel)%nat ->
  scanned content st ->
  Forall (fun l => predicate l = false) (Comm.collected st) ->
  match Comm.findLoop fuel content chunkSize predicate
          (Comm.pos st) (Comm.leftover st) with
  | inl line => predicate line = true /\ In line (pieces content)
  | inr lo => lo = [] /\ Forall (fun l => predicate l = false) (pieces content)
  end.
Proof.
  intros Hc. revert st. induction fuel as [|fuel IH]; intros st Hf Hs Hall.
  - cbn [Comm.findLoop].
    destruct Hs as [_ [[Hp _]|(_ & Hlo & HC)]]; [lia|].
    rewrite <- HC. auto.
  - cbn [Comm.findLoop].
    destruct (Nat.ltb_spec 0 (Comm.pos st)) as [Hp|Hp].
    + destruct (scanStep_scanned content chunkSize st Hc Hp Hs) as [Hs' Hlt].
      specialize (IH (Comm.scanStep content chunkSize st)).
      unfold Comm.scanStep in IH, Hs', Hlt.
      cbn [Comm.pos Comm.leftover Comm.collected] in IH, Hlt.
      cbv zeta.
      match goal with
      | |- context [List.find predicate (rev ?ps)] =>
          set (new := ps) in *; destruct (List.find predicate (rev new)) as [line|] eqn:E
      end.
      * apply find_some in E as [Hin Hpred]. split; [exact Hpred|].
        destruct (scanned_pieces _ _ Hs') as [front Hfront].
        rewrite Hfront. cbn [Comm.collected]. apply in_or_app. right.
        apply in_or_app. left. apply in_rev. exact Hin.
      * apply IH; [lia | exact Hs'|].
        apply Forall_app. split; [|exact Hall].
        apply List.Forall_forall. intros l Hl.
        apply (find_none _ _ E). apply in_rev in Hl. exact Hl.
    + destruct Hs as [_ [[Hp' _]|(_ & Hlo & HC)]]; [lia|].
      rewrite <- HC. auto.
Qed.

Lemma scanBack_Some (predicate : gostring -> bool) (rl : list gostring)
  (l : gostring) (j : Z) :
  Comm.scanBack predicate rl = Some (l, j) ->
  exists pre post,
    rl = pre ++ l :: post /\ Forall (fun x => predicate x = false) pre /\
    predicate l = true /\ j = Z.of_nat (length post).
Proof.
  induction rl as [|x rl IH]; [discriminate|].
  cbn [Comm.scanBack]. destruct (predicate x) eqn:E.
  - intros H. injection H as <- <-. exists [], rl. auto.
  - intros H. destruct (IH H) as (pre & post & -> & Hpre & Hl & Hj).
    exists (x :: pre), post. repeat split; auto.
Qed.

Lemma scanBack_None (predicate : gostring -> bool) (rl : list gostring) :
  Comm.scanBack predicate rl = None ->
  Forall (fun x => predicate x = false) rl.
Proof.
  induction rl as [|x rl IH]; [constructor|].
  cbn [Comm.scanBack]. destruct (predicate x) eqn:E; [discriminate|].
  intros H. constructor; auto.
Qed.

Lemma dropWhile_split {A} (p : A -> bool) (l : list A) :
  exists pre, l = pre ++ dropWhile p l /\ Forall (fun x => p x = true) pre.
Proof.
  induction l as [|x l (pre & E & Hpre)]; [exists []; auto|].
  simpl. destruct (p x) eqn:Hx.
  - exists (x :: pre). split; [simpl; congruence | constructor; assumption].
  - exists []. auto.
Qed.

Lemma In_dropTrailingEmpty (lines : list gostring) (l : gostring) :
  In l lines -> In l (dropTrailingEmpty lines) \/ l = [].
Proof.
  intros H. unfold dropTrailingEmpty.
  destruct (dropWhile_split Comm.isEmpty (rev lines)) as (pre & E & Hpre).
  apply in_rev in H. rewrite E in H. apply in_app_or in H as [H|H].
  - right. rewrite List.Forall_forall in Hpre. apply Hpre in H.
    destruct l; [reflexivity | discriminate H].
  - left. apply in_rev in H. exact H.
Qed.

(** X13: [FindLast] finds the last line of the file, as [readAllLines] gives
    the lines, that satisfies the predicate, with its index, whatever
    the chunk size; when no line does it returns the empty line with
    index -1. *)
Theorem FindLast_last_match (content : gostring) (chunk : Z)
  (predicate : gostring -> bool) :
  exists lines,
    Comm.readAllLines (Some content) = Comm.OK lines /\
    ((exists l j,
        Comm.FindLast (Some content) (Comm.mkReverseReader chunk) predicate =
          Comm.OK (l, Z.of_nat j) /\
        lines !! j = Some l /\ predicate l = true /\
        forall k l', (j < k)%nat -> lines !! k = Some l' ->
                     predicate l' = false)
     \/
     (Comm.FindLast (Some content) (Comm.mkReverseReader chunk) predicate =
        Comm.OK ([], -1) /\
      forall l, In l lines -> predicate l = false)).
Proof.
  rewrite readAllLines_pieces. eexists. split; [reflexivity|].
  destruct content as [|c0 content0].
  { right. split; [reflexivity | intros l []]. }
  set (content := c0 :: content0).
  unfold Comm.FindLast. change (length content =? 0)%nat with false. cbv iota.
  cbn [Comm.ChunkSize].
  set (cs := Z.to_nat (if chunk <=? 0 then Comm.defaultChunkSize else chunk)).
  assert (Hcs : (0 < cs)%nat).
  { unfold cs, Comm.defaultChunkSize. destruct (Z.leb_spec chunk 0); lia. }
  pose proof (findLoop_spec predicate content cs (length content)
                (Comm.mkScan [] (length content) []) Hcs (le_n _)
                (scanned_start content ltac:(discriminate))
                (List.Forall_nil _)) as Hloop.
  cbn [Comm.pos Comm.leftover] in Hloop.
  rewrite readAllLines_pieces. fold content.
  change (match content with [] => [] | _ :: _ => dropTrailingEmpty (pieces content) end)
    with (dropTrailingEmpty (pieces content)).
  set (lines := dropTrailingEmpty (pieces content)).
  destruct (Comm.findLoop _ _ _ _ _ _) as [line|lo].
  - destruct Hloop as [Hpred Hin].
    destruct (Comm.scanBack predicate (rev lines)) as [[l j]|] eqn:E.
    + left. apply scanBack_Some in E as (pre & post & Hrev & Hpre & Hl & ->).
      assert (Hlines : lines = rev post ++ l :: rev pre).
      { rewrite <- (rev_involutive lines), Hrev, rev_app_distr. cbn [rev].
        rewrite <- app_assoc. reflexivity. }
      exists l, (length post). split; [reflexivity|].
      rewrite Hlines. split; [|split; [exact Hl|]].
      * rewrite lookup_app_r by (rewrite length_rev; lia).
        rewrite length_rev, Nat.sub_diag. reflexivity.
      * intros k l' Hk Hlook.
        rewrite lookup_app_r in Hlook by (rewrite length_rev; lia).
        rewrite length_rev in Hlook.
        destruct (k - length post)%nat as [|k'] eqn:Ek; [lia|].
        cbn in Hlook. apply list_elem_of_lookup_2 in Hlook.
        apply list_elem_of_In, in_rev in Hlook.
        rewrite List.Forall_forall in Hpre. auto.
    + right. apply scanBack_None in E.
      assert (Hnone : forall l, In l lines -> predicate l = false).
      { intros l Hl. rewrite List.Forall_forall in E. apply E.
        apply (proj1 (in_rev lines l)). exact Hl. }
      split; [|exact Hnone].
      destruct (In_dropTrailingEmpty _ _ Hin) as [Hl| ->]; [|reflexivity].
      apply Hnone in Hl. congruence.
  - destruct Hloop as [-> Hall]. right. split; [reflexivity|].
    intros l Hl. rewrite List.Forall_forall in Hall. apply Hall.
    unfold lines, dropTrailingEmpty in Hl. apply in_rev, In_dropWhile in Hl.
    apply in_rev in Hl. exact Hl.
Qed.

(** ** internal/config: project identity *)

Lemma code_lt_256 (c : ascii) : (code c < 256)%N.
Proof. unfold code. apply N_ascii_bounded. Qed.

Lemma hexDigit_lower (n : N) :
  (n < 16)%N -> isLowerHex (Config.hexDigit n) = true.
Proof.
  intros H. rewrite <- (N2Nat.id n) in *.
  assert (Hk : (N.to_nat n < 16)%nat) by lia.
  generalize dependent (N.to_nat n). intros k _ Hk.
  do 16 (destruct k as [|k]; [reflexivity|]). lia.
Qed.

Lemma hexBytes_length (b : gostring) :
  length (Config.hexBytes b) = (2 * length b)%nat.
Proof.
  unfold Config.hexBytes. induction b as [|c b IH]; [reflexivity|].
  cbn [flat_map length app]. rewrite IH. lia.
Qed.

Lemma hexBytes_lower (b : gostring) :
  Forall (fun c => isLowerHex c = true) (Config.hexBytes b).
Proof.
  unfold Config.hexBytes. induction b as [|c b IH]; [constructor|].
  cbn [flat_map app]. pose proof (code_lt_256 c) as Hc.
  constructor; [|constructor; [|exact IH]]; apply hexDigit_lower.
  - apply N.Div0.div_lt_upper_bound. exact Hc.
  - apply N.mod_lt. discriminate.
Qed.

(** C9: the project ID is a function of the environment and the work
    directory; whatever they are it has 64 characters, each a lower-case
    hexadecimal digit.  In every environment the Windows, the
    forward-slash and the WSL spelling of one directory normalise to the
    same path, [c:/Users/x]. *)
Theorem ComputeCCBProjectID_shape (Sum256 : gostring -> Config.Array32)
  (env : Config.Env) (workDir : gostring) :
  length (Config.ComputeCCBProjectID Sum256 env workDir) = 64%nat /\
  Forall (fun c => isLowerHex c = true)
         (Config.ComputeCCBProjectID Sum256 env workDir) /\
  Config.NormalizeWorkDir env (str "C:\Users\x") = str "c:/Users/x" /\
  Config.NormalizeWorkDir env (str "c:/Users/x") = str "c:/Users/x" /\
  Config.NormalizeWorkDir env (str "/mnt/c/Users/x") = str "c:/Users/x".
Proof.
  split; [|split].
  - unfold Config.ComputeCCBProjectID. rewrite hexBytes_length.
    rewrite Config.bytes_len. reflexivity.
  - apply hexBytes_lower.
  - repeat split; vm_compute; reflexivity.
Qed.

(** *** The canonical form of a work directory *)

Lemma ReplaceByte_no_old (old new : ascii) (s : gostring) :
  new <> old -> ~ In old (ReplaceByte old new s).
Proof.
  intros Hne H. unfold ReplaceByte in H. apply in_map_iff in H as (c & E & _).
  destruct (eqc c old) eqn:Ec.
  - congruence.
  - apply eqc_false in Ec. congruence.
Qed.

Lemma toLowerByte_backslash (c : ascii) :
  toLowerByte c = Config.BACKSLASH -> c = Config.BACKSLASH.
Proof.
  destruct c as [[] [] [] [] [] [] [] []]; vm_compute; intros H;
    first [reflexivity | discriminate H].
Qed.

Lemma cleanPosixPath_no_backslash (p : gostring) :
  ~ In Config.BACKSLASH (Config.cleanPosixPath p).
Proof. apply ReplaceByte_no_old. discriminate. Qed.

Lemma lowerDrive_no_backslash (s : gostring) :
  ~ In Config.BACKSLASH s ->
  ~ In Config.BACKSLASH
      (if accepts Config.winDriveRE s
       then map toLowerByte (take 1 s) ++ drop 1 s else s).
Proof.
  intros Hs. destruct (accepts Config.winDriveRE s); [|exact Hs].
  destruct s as [|c s]; [exact Hs|]. cbn [take drop map app].
  intros [H|H].
  - apply toLowerByte_backslash in H. apply Hs. left. exact H.
  - apply Hs. right. rewrite drop_0 in H. exact H.
Qed.

(** X14: The canonical form never holds a backslash, whatever the input and
    the environment. *)
Theorem NormalizeWorkDir_no_backslash (env : Config.Env) (value : gostring) :
  ~ In Config.BACKSLASH (Config.NormalizeWorkDir env value).
Proof.
  unfold Config.NormalizeWorkDir.
  destruct (TrimSpace value) as [|c raw]; [intros []|].
  cbv zeta. apply lowerDrive_no_backslash.
  match goal with
  | |- ~ In _ (if ?b then _ else _) => destruct b
  end.
  - intros H. apply in_app_or in H as [H|H].
    + repeat (destruct H as [H|H]; [discriminate H|]). exact H.
    + unfold TrimLeft in H. apply In_dropWhile in H.
      exact (cleanPosixPath_no_backslash _ H).
  - apply cleanPosixPath_no_backslash.
Qed.

Lemma HasPrefix_cons (c a : ascii) (s p : gostring) :
  HasPrefix (c :: s) (a :: p) = eqc a c && HasPrefix s p.
Proof. reflexivity. Qed.

Lemma ReplaceByte_tilde (s : gostring) :
  HasPrefix (ReplaceByte Config.BACKSLASH Filepath.SLASH s) (str "~") =
  HasPrefix s (str "~").
Proof.
  destruct s as [|c s]; [reflexivity|].
  cbn [ReplaceByte map str list_ascii_of_string].
  rewrite !HasPrefix_cons. f_equal; [|destruct s; reflexivity].
  destruct (eqc c Config.BACKSLASH) eqn:E; [|reflexivity].
  apply eqc_true in E. subst. reflexivity.
Qed.

(** X15: For a path that is absolute and does not start with a tilde, only
    the path with its backslashes turned into slashes matters: two
    spellings that differ in the kind of slash, and in white space
    around them, have the same canonical form. *)
Theorem NormalizeWorkDir_slashes (env : Config.Env) (v1 v2 : gostring) :
  ReplaceByte Config.BACKSLASH Filepath.SLASH (TrimSpace v1) =
  ReplaceByte Config.BACKSLASH Filepath.SLASH (TrimSpace v2) ->
  HasPrefix (TrimSpace v1) (str "~") = false ->
  HasPrefix (ReplaceByte Config.BACKSLASH Filepath.SLASH (TrimSpace v1))
    (str "/")
  || accepts Config.winDriveRE
       (ReplaceByte Config.BACKSLASH Filepath.SLASH (TrimSpace v1)) = true ->
  Config.NormalizeWorkDir env v1 = Config.NormalizeWorkDir env v2.
Proof.
  intros Hsame Htilde Habs.
  assert (Htilde2 : HasPrefix (TrimSpace v2) (str "~") = false).
  { rewrite <- ReplaceByte_tilde, <- Hsame, ReplaceByte_tilde. exact Htilde. }
  assert (Hgen : forall raw,
    HasPrefix raw (str "~") = false ->
    HasPrefix (ReplaceByte Config.BACKSLASH Filepath.SLASH raw) (str "/")
    || accepts Config.winDriveRE
         (ReplaceByte Config.BACKSLASH Filepath.SLASH raw) = true ->
    (if HasPrefix raw (str "~")
     then match Config.UserHomeDir env with
          | Some home => home ++ drop 1 raw
          | None => raw
          end
     else raw) = raw /\
    HasPrefix (ReplaceByte Config.BACKSLASH Filepath.SLASH raw) (str "/")
    || HasPrefix (ReplaceByte Config.BACKSLASH Filepath.SLASH raw) (str "//")
    || HasPrefix raw [Config.BACKSLASH; Config.BACKSLASH]
    || accepts Config.winDriveRE
         (ReplaceByte Config.BACKSLASH Filepath.SLASH raw) = true).
  { intros raw Ht Ha. rewrite Ht. split; [reflexivity|].
    apply orb_true_iff in Ha as [Ha|Ha]; rewrite Ha;
      rewrite ?orb_true_r; reflexivity. }
  unfold Config.NormalizeWorkDir.
  destruct (TrimSpace v1) as [|c1 r1] eqn:E1;
    destruct (TrimSpace v2) as [|c2 r2] eqn:E2;
    try discriminate Hsame; [reflexivity|].
  cbv zeta.
  destruct (Hgen (c1 :: r1) Htilde Habs) as [Hr1 Ha1].
  rewrite Hsame in Habs.
  destruct (Hgen (c2 :: r2) Htilde2 Habs) as [Hr2 Ha2].
  rewrite Hr1, Hr2, Ha1, Ha2, Hsame. reflexivity.
Qed.

Lemma NormalizeWorkDir_slashes_witness :
  Config.NormalizeWorkDir sampleEnv (str " D:\work\My Project\  ") =
  Config.NormalizeWorkDir sampleEnv (str "D:/work\My Project/").
Proof.
  apply (NormalizeWorkDir_slashes sampleEnv).
  - vm_compute. reflexivity.
  - vm_compute. reflexivity.
  - vm_compute. reflexivity.
Defined.

(** *** Drive letters *)

Lemma letter_facts (c : ascii) :
  isLetter c = true ->
  eqc c Config.BACKSLASH = false /\ eqc c Filepath.SLASH = false /\
  eqc "/" c = false /\ eqc "~" c = false /\
  isLetter (toLowerByte c) = true /\
  toLowerByte (toLowerByte c) = toLowerByte c /\
  Config.mntDrive [c] = None.
Proof.
  destruct c as [[] [] [] [] [] [] [] []]; vm_compute; intros H;
    try discriminate H; repeat split.
Qed.

Lemma mntDrive_letter (c : ascii) (t : gostring) :
  isLetter c = true ->
  Config.mntDrive (c :: t) = None /\ Config.msysDrive (c :: t) = None.
Proof.
  destruct c as [[] [] [] [] [] [] [] []]; vm_compute isLetter; intros H;
    try discriminate H; split; reflexivity.
Qed.

Lemma drive_element (x : ascii) :
  Filepath.isDot [x; ":"%char] = false /\
  Filepath.isDotDot [x; ":"%char] = false.
Proof.
  destruct x as [[] [] [] [] [] [] [] []]; split; reflexivity.
Qed.

(** The element at the bottom of the output of [Clean] either stays
    where it is or is dropped, whatever it is. *)
Lemma cleanElems_bottom (a b : gostring) (elems out : list gostring) :
  Filepath.isDotDot a = false -> Filepath.isDotDot b = false ->
  exists R,
    (Filepath.cleanElems false elems (out ++ [a]) = R ++ [a] /\
     Filepath.cleanElems false elems (out ++ [b]) = R ++ [b]) \/
    (Filepath.cleanElems false elems (out ++ [a]) = R /\
     Filepath.cleanElems false elems (out ++ [b]) = R).
Proof.
  intros Ha Hb. revert out. induction elems as [|e elems IH]; intros out.
  - exists out. left. split; reflexivity.
  - cbn [Filepath.cleanElems].
    destruct (Comm.isEmpty e || Filepath.isDot e); [apply IH|].
    destruct (Filepath.isDotDot e) eqn:Ee; [|apply (IH (e :: out))].
    destruct out as [|top out].
    + cbn [app]. rewrite Ha, Hb. exists (Filepath.cleanElems false elems []).
      right. split; reflexivity.
    + cbn [app]. destruct (Filepath.isDotDot top).
      * apply (IH (e :: top :: out)).
      * apply IH.
Qed.

Lemma SplitOn_drive (x : ascii) (r : gostring) :
  eqc x Filepath.SLASH = false ->
  Filepath.SplitOn Filepath.SLASH (x :: ":"%char :: "/"%char :: r) =
  [x; ":"%char] :: Filepath.SplitOn Filepath.SLASH r.
Proof.
  intros Hx. cbn [Filepath.SplitOn]. rewrite Hx.
  change (eqc ":" Filepath.SLASH) with false.
  change (eqc "/" Filepath.SLASH) with true. cbv iota. reflexivity.
Qed.

Lemma JoinOn_head (e : gostring) (L : list gostring) :
  exists tail,
    (tail = [] \/ exists t, tail = Filepath.SLASH :: t) /\
    forall e' : gostring, Filepath.JoinOn Filepath.SLASH (e' :: L) = e' ++ tail.
Proof.
  destruct L as [|l L].
  - exists []. split; [left; reflexivity|]. intros e'. cbn. rewrite app_nil_r.
    reflexivity.
  - exists (Filepath.SLASH :: Filepath.JoinOn Filepath.SLASH (l :: L)).
    split; [right; eauto|]. intros e'. reflexivity.
Qed.

Lemma Clean_drive (x y : ascii) (r : gostring) :
  isLetter x = true -> isLetter y = true ->
  (exists tail,
     (tail = [] \/ exists t, tail = Filepath.SLASH :: t) /\
     Filepath.Clean (x :: ":"%char :: "/"%char :: r) = x :: ":"%char :: tail /\
     Filepath.Clean (y :: ":"%char :: "/"%char :: r) = y :: ":"%char :: tail)
  \/
  Filepath.Clean (x :: ":"%char :: "/"%char :: r) =
  Filepath.Clean (y :: ":"%char :: "/"%char :: r).
Proof.
  intros Hx Hy.
  destruct (letter_facts x Hx) as (_ & Hxs & _).
  destruct (letter_facts y Hy) as (_ & Hys & _).
  unfold Filepath.Clean. rewrite Hxs, Hys, !SplitOn_drive by assumption.
  cbn [Filepath.cleanElems].
  destruct (drive_element x) as [Hx1 Hx2].
  destruct (drive_element y) as [Hy1 Hy2].
  change (Comm.isEmpty [x; ":"%char]) with false.
  change (Comm.isEmpty [y; ":"%char]) with false.
  rewrite Hx1, Hx2, Hy1, Hy2. cbn [orb].
  destruct (cleanElems_bottom [x; ":"%char] [y; ":"%char]
              (Filepath.SplitOn Filepath.SLASH r) [] Hx2 Hy2)
    as [R [[E1 E2]|[E1 E2]]]; cbn [app] in E1, E2; rewrite E1, E2.
  - left. rewrite !rev_app_distr. cbn [rev app].
    destruct (JoinOn_head [] (rev R)) as (tail & Ht & Hj).
    exists tail. split; [exact Ht|]. rewrite !Hj. split; reflexivity.
  - right. reflexivity.
Qed.

Lemma winDrive_accepts (x : ascii) (tail : gostring) :
  isLetter x = true ->
  tail = [] \/ (exists t, tail = Filepath.SLASH :: t) ->
  accepts Config.winDriveRE (x :: ":"%char :: tail) = true.
Proof.
  intros Hx Ht. apply accepts_Matches. unfold Config.winDriveRE.
  change (x :: ":"%char :: tail) with ([x] ++ ([":"%char] ++ tail)).
  apply Matches_cat_cons; [constructor; exact Hx|].
  apply Matches_cat_cons; [apply Matches_Lit; reflexivity|].
  apply Matches_cat_single.
  destruct Ht as [->|[t ->]].
  - apply MAltR. constructor.
  - apply MAltL. change (Filepath.SLASH :: t) with ([Filepath.SLASH] ++ t).
    apply MSeq; [constructor; reflexivity | apply Matches_AnyTail].
Qed.

(** [NormalizeWorkDir] on an absolute path that does not start with a
    tilde. *)
Lemma NormalizeWorkDir_abs (env : Config.Env) (value raw : gostring) :
  TrimSpace value = raw -> raw <> [] ->
  HasPrefix raw (str "~") = false ->
  HasPrefix (ReplaceByte Config.BACKSLASH Filepath.SLASH raw) (str "/")
  || accepts Config.winDriveRE
       (ReplaceByte Config.BACKSLASH Filepath.SLASH raw) = true ->
  Config.NormalizeWorkDir env value =
  collapsed (driveMapped env (ReplaceByte Config.BACKSLASH Filepath.SLASH raw)).
Proof.
  intros Hraw Hne Ht Ha. unfold Config.NormalizeWorkDir. rewrite Hraw.
  destruct raw as [|c raw]; [congruence|]. cbv zeta. rewrite Ht.
  assert (Habs :
    HasPrefix (ReplaceByte Config.BACKSLASH Filepath.SLASH (c :: raw)) (str "/")
    || HasPrefix (ReplaceByte Config.BACKSLASH Filepath.SLASH (c :: raw)) (str "//")
    || HasPrefix (c :: raw) [Config.BACKSLASH; Config.BACKSLASH]
    || accepts Config.winDriveRE
         (ReplaceByte Config.BACKSLASH Filepath.SLASH (c :: raw)) = true).
  { apply orb_true_iff in Ha as [Ha|Ha]; rewrite Ha;
      rewrite ?orb_true_r; reflexivity. }
  rewrite Habs. reflexivity.
Qed.

Lemma collapsed_drive (x y : ascii) (r : gostring) :
  isLetter x = true -> isLetter y = true ->
  toLowerByte x = toLowerByte y ->
  collapsed (x :: ":"%char :: "/"%char :: r) =
  collapsed (y :: ":"%char :: "/"%char :: r).
Proof.
  intros Hx Hy Hxy. unfold collapsed.
  destruct (letter_facts x Hx) as (Hxb & _ & Hx3 & _).
  destruct (letter_facts y Hy) as (Hyb & _ & Hy3 & _).
  cbn [str list_ascii_of_string]. rewrite !HasPrefix_cons, Hx3, Hy3.
  cbn [andb]. unfold Config.cleanPosixPath.
  destruct (Clean_drive x y r Hx Hy) as [(tail & Ht & -> & ->)| ->];
    [|reflexivity].
  cbn [ReplaceByte map]. rewrite Hxb, Hyb.
  change (eqc ":" Config.BACKSLASH) with false. cbv iota.
  fold (ReplaceByte Config.BACKSLASH Filepath.SLASH tail).
  assert (Ht' : ReplaceByte Config.BACKSLASH Filepath.SLASH tail = [] \/
                exists t, ReplaceByte Config.BACKSLASH Filepath.SLASH tail =
                          Filepath.SLASH :: t).
  { destruct Ht as [->|[t ->]]; [left; reflexivity|]. right.
    eexists. reflexivity. }
  rewrite !winDrive_accepts by assumption.
  cbn [take drop map app]. rewrite ?drop_0, Hxy. reflexivity.
Qed.

Lemma ReplaceByte_no_LF (s : gostring) :
  ~ In LF s ->
  inSet (ReplaceByte Config.BACKSLASH Filepath.SLASH s) LF = false.
Proof.
  intros H. apply inSet_not_In. intros Hin. unfold ReplaceByte in Hin.
  apply in_map_iff in Hin as (c & E & Hc).
  destruct (eqc c Config.BACKSLASH); [discriminate E|]. subst. exact (H Hc).
Qed.

(** X16: The WSL spelling [/mnt/<drive>/rest] and the Windows spelling
    [<drive>:/rest] of a path have the same canonical form, for every
    drive letter, in either case, and every rest without a newline. *)
Theorem NormalizeWorkDir_wsl (env : Config.Env) (v1 v2 : gostring)
  (d : ascii) (rest : gostring) :
  isLetter d = true -> ~ In LF rest ->
  TrimSpace v1 = str "/mnt/" ++ d :: "/"%char :: rest ->
  TrimSpace v2 = d :: ":"%char :: "/"%char :: rest ->
  Config.NormalizeWorkDir env v1 = Config.NormalizeWorkDir env v2.
Proof.
  intros Hd HLF H1 H2.
  destruct (letter_facts d Hd) as (Hdb & Hds & Hd3 & Hdt & Hld & Hidem & _).
  set (rest' := ReplaceByte Config.BACKSLASH Filepath.SLASH rest).
  assert (R1 : ReplaceByte Config.BACKSLASH Filepath.SLASH
                 (str "/mnt/" ++ d :: "/"%char :: rest) =
               str "/mnt/" ++ d :: "/"%char :: rest').
  { cbn [str list_ascii_of_string app ReplaceByte map]. rewrite Hdb.
    reflexivity. }
  assert (R2 : ReplaceByte Config.BACKSLASH Filepath.SLASH
                 (d :: ":"%char :: "/"%char :: rest) =
               d :: ":"%char :: "/"%char :: rest').
  { cbn [ReplaceByte map]. rewrite Hdb. reflexivity. }
  rewrite (NormalizeWorkDir_abs env v1 _ H1);
    [|discriminate|reflexivity|rewrite R1; reflexivity].
  rewrite (NormalizeWorkDir_abs env v2 _ H2);
    [|discriminate| |].
  - rewrite R1, R2.
    assert (M1 : driveMapped env (str "/mnt/" ++ d :: "/"%char :: rest') =
                 toLowerByte d :: ":"%char :: "/"%char :: rest').
    { unfold driveMapped. cbn [str list_ascii_of_string app Config.mntDrive].
      rewrite Hd. unfold rest'. rewrite (ReplaceByte_no_LF rest HLF).
      reflexivity. }
    assert (M2 : driveMapped env (d :: ":"%char :: "/"%char :: rest') =
                 d :: ":"%char :: "/"%char :: rest').
    { unfold driveMapped.
      destruct (mntDrive_letter d (":"%char :: "/"%char :: rest') Hd)
        as [-> ->]. reflexivity. }
    rewrite M1, M2. apply collapsed_drive; assumption.
  - cbn [str list_ascii_of_string]. rewrite HasPrefix_cons, Hdt. reflexivity.
  - rewrite R2. rewrite winDrive_accepts; [apply orb_true_r | exact Hd|].
    right. eexists. reflexivity.
Qed.

Lemma NormalizeWorkDir_wsl_witness :
  Config.NormalizeWorkDir sampleEnv (str "/mnt/D/Work/../src//app") =
  Config.NormalizeWorkDir sampleEnv (str "D:/Work/../src//app").
Proof.
  apply (NormalizeWorkDir_wsl sampleEnv _ _ "D"%char (str "Work/../src//app")).
  - reflexivity.
  - intros H. repeat (destruct H as [H|H]; [discriminate H|]). exact H.
  - reflexivity.
  - reflexivity.
Defined.

Lemma mntDrive_msys (d : ascii) (r : gostring) :
  Config.mntDrive ("/"%char :: d :: "/"%char :: r) = None.
Proof.
  destruct d as [[] [] [] [] [] [] [] []]; reflexivity.
Qed.

(** X17: Under MSYS, or on Windows, the spelling [/<drive>/rest] has the
    canonical form of [<drive>:/rest] as well. *)
Theorem NormalizeWorkDir_msys (env : Config.Env) (v1 v2 : gostring)
  (d : ascii) (rest : gostring) :
  Config.hasMSYSTEM env || bool_decide (Config.GOOS env = str "windows")
    = true ->
  isLetter d = true -> ~ In LF rest ->
  TrimSpace v1 = "/"%char :: d :: "/"%char :: rest ->
  TrimSpace v2 = d :: ":"%char :: "/"%char :: rest ->
  Config.NormalizeWorkDir env v1 = Config.NormalizeWorkDir env v2.
Proof.
  intros Henv Hd HLF H1 H2.
  destruct (letter_facts d Hd) as (Hdb & Hds & Hd3 & Hdt & Hld & Hidem & _).
  set (rest' := ReplaceByte Config.BACKSLASH Filepath.SLASH rest).
  assert (R1 : ReplaceByte Config.BACKSLASH Filepath.SLASH
                 ("/"%char :: d :: "/"%char :: rest) =
               "/"%char :: d :: "/"%char :: rest').
  { cbn [ReplaceByte map]. rewrite Hdb. reflexivity. }
  assert (R2 : ReplaceByte Config.BACKSLASH Filepath.SLASH
                 (d :: ":"%char :: "/"%char :: rest) =
               d :: ":"%char :: "/"%char :: rest').
  { cbn [ReplaceByte map]. rewrite Hdb. reflexivity. }
  rewrite (NormalizeWorkDir_abs env v1 _ H1);
    [|discriminate|reflexivity|rewrite R1; reflexivity].
  rewrite (NormalizeWorkDir_abs env v2 _ H2);
    [|discriminate| |].
  - rewrite R1, R2.
    assert (M1 : driveMapped env ("/"%char :: d :: "/"%char :: rest') =
                 toLowerByte d :: ":"%char :: "/"%char :: rest').
    { unfold driveMapped. rewrite mntDrive_msys.
      cbn [Config.msysDrive]. rewrite Hd. unfold rest'.
      rewrite (ReplaceByte_no_LF rest HLF). cbn [andb negb].
      rewrite Henv. reflexivity. }
    assert (M2 : driveMapped env (d :: ":"%char :: "/"%char :: rest') =
                 d :: ":"%char :: "/"%char :: rest').
    { unfold driveMapped.
      destruct (mntDrive_letter d (":"%char :: "/"%char :: rest') Hd)
        as [-> ->]. reflexivity. }
    rewrite M1, M2. apply collapsed_drive; assumption.
  - cbn [str list_ascii_of_string]. rewrite HasPrefix_cons, Hdt. reflexivity.
  - rewrite R2. rewrite winDrive_accepts; [apply orb_true_r | exact Hd|].
    right. eexists. reflexivity.
Qed.

Lemma NormalizeWorkDir_msys_witness :
  let env := Config.mkEnv None None true (str "linux") (fun _ => false) in
  Config.NormalizeWorkDir env (str "/c/Users/x") =
  Config.NormalizeWorkDir env (str "C:/Users/x").
Proof.
  intros env. transitivity (Config.NormalizeWorkDir env (str "c:/Users/x")).
  - apply (NormalizeWorkDir_msys env _ _ "c"%char (str "Users/x")).
    + reflexivity.
    + reflexivity.
    + intros H. repeat (destruct H as [H|H]; [discriminate H|]). exact H.
    + reflexivity.
    + reflexivity.
  - vm_compute. reflexivity.
Defined.

(** *** The project id and the spelling of the work directory *)

Lemma SplitOn_cons (sep c : ascii) (s : gostring) :
  Filepath.SplitOn sep (c :: s) =
  if eqc c sep then [] :: Filepath.SplitOn sep s
  else consHead c (Filepath.SplitOn sep s).
Proof. reflexivity. Qed.

Lemma SplitOn_nonempty (sep : ascii) (s : gostring) :
  Filepath.SplitOn sep s <> [].
Proof.
  destruct s as [|c s]; [discriminate|]. rewrite SplitOn_cons.
  destruct (eqc c sep); [discriminate|].
  destruct (Filepath.SplitOn sep s); discriminate.
Qed.

Lemma SplitOn_app_sep (sep : ascii) (a b : gostring) :
  Filepath.SplitOn sep (a ++ sep :: b) =
  Filepath.SplitOn sep a ++ Filepath.SplitOn sep b.
Proof.
  induction a as [|c a IH].
  - cbn [app]. rewrite SplitOn_cons, eqc_refl. reflexivity.
  - change ((c :: a) ++ sep :: b) with (c :: (a ++ sep :: b)).
    rewrite !SplitOn_cons, IH.
    destruct (eqc c sep); [reflexivity|].
    pose proof (SplitOn_nonempty sep a) as Hne.
    destruct (Filepath.SplitOn sep a); [congruence | reflexivity].
Qed.

Lemma cleanElems_app (rooted : bool) (e1 e2 out : list gostring) :
  Filepath.cleanElems rooted (e1 ++ e2) out =
  Filepath.cleanElems rooted e2 (Filepath.cleanElems rooted e1 out).
Proof.
  revert out. induction e1 as [|e e1 IH]; intros out; [reflexivity|].
  cbn [app Filepath.cleanElems].
  destruct (Comm.isEmpty e || Filepath.isDot e); [apply IH|].
  destruct (Filepath.isDotDot e).
  - destruct out as [|top out'].
    + destruct rooted; apply IH.
    + destruct (Filepath.isDotDot top); apply IH.
  - apply IH.
Qed.

(** A trailing slash, or a trailing [/.], does not change what [Clean]
    gives. *)
Lemma Clean_trailing (p : gostring) (last : gostring) :
  p <> [] -> last = [] \/ last = str "." ->
  Filepath.Clean (p ++ Filepath.SLASH :: last) = Filepath.Clean p.
Proof.
  intros Hp Hl. destruct p as [|c p]; [congruence|].
  unfold Filepath.Clean. cbn [app].
  change (c :: p ++ Filepath.SLASH :: last)
    with ((c :: p) ++ Filepath.SLASH :: last).
  rewrite SplitOn_app_sep, cleanElems_app.
  assert (E : forall out,
            Filepath.cleanElems (eqc c Filepath.SLASH)
              (Filepath.SplitOn Filepath.SLASH last) out = out).
  { intros out. destruct Hl as [->| ->]; reflexivity. }
  rewrite E. reflexivity.
Qed.

(** X29: The project id of [.], of the empty path and of the current
    directory written with a trailing slash is the project id of the
    current directory. *)
Theorem ComputeCCBProjectID_cwd (Sum256 : gostring -> Config.Array32)
  (env : Config.Env) (cwd : gostring) :
  Config.Getwd env = Some cwd -> Filepath.IsAbs cwd = true ->
  Config.ComputeCCBProjectID Sum256 env (str ".") =
    Config.ComputeCCBProjectID Sum256 env cwd /\
  Config.ComputeCCBProjectID Sum256 env [] =
    Config.ComputeCCBProjectID Sum256 env cwd /\
  Config.ComputeCCBProjectID Sum256 env (cwd ++ str "/") =
    Config.ComputeCCBProjectID Sum256 env cwd.
Proof.
  intros Hwd Habs.
  assert (Hne : cwd <> []) by (intros ->; discriminate Habs).
  assert (A0 : Filepath.Abs (Some cwd) cwd = Some (Filepath.Clean cwd)).
  { unfold Filepath.Abs. rewrite Habs. reflexivity. }
  assert (A1 : Filepath.Abs (Some cwd) (str ".") = Some (Filepath.Clean cwd)).
  { rewrite <- (Clean_trailing cwd (str ".")) by auto.
    destruct cwd as [|c cwd']; [congruence | reflexivity]. }
  assert (A2 : Filepath.Abs (Some cwd) [] = Some (Filepath.Clean cwd)).
  { destruct cwd as [|c cwd']; [congruence | reflexivity]. }
  assert (A3 : Filepath.Abs (Some cwd) (cwd ++ str "/") =
               Some (Filepath.Clean cwd)).
  { unfold Filepath.Abs.
    assert (Hab : Filepath.IsAbs (cwd ++ str "/") = true).
    { destruct cwd as [|c cwd']; [congruence|].
      unfold Filepath.IsAbs in *. cbn [app HasPrefix] in *.
      destruct (eqc Filepath.SLASH c); [|discriminate Habs].
      destruct cwd'; reflexivity. }
    rewrite Hab. f_equal. apply (Clean_trailing cwd []); auto. }
  unfold Config.ComputeCCBProjectID. rewrite Hwd, A0, A1, A2, A3.
  repeat split.
Qed.

Lemma ComputeCCBProjectID_cwd_witness :
  Config.ComputeCCBProjectID zeroSum sampleEnv (str ".") =
  Config.ComputeCCBProjectID zeroSum sampleEnv (str "/w").
Proof.
  apply (ComputeCCBProjectID_cwd zeroSum sampleEnv (str "/w")); reflexivity.
Defined.

(** ** internal/session: the pane registry *)

Lemma pruneEntry_fold (cutoff : Z) (m0 : gmap gostring Session.PaneEntry)
  (n0 : Z) (m : gmap gostring Session.PaneEntry) :
  let r := map_fold (Session.pruneEntry cutoff) (m0, n0) m in
  (forall k, fst r !! k =
     match m !! k with
     | Some e => if Session.stale cutoff e then None else m0 !! k
     | None => m0 !! k
     end) /\
  snd r = n0 + Z.of_nat (size (filter (staleP cutoff) m)).
Proof.
  cbv zeta.
  apply (map_fold_weak_ind
    (fun r m =>
       (forall k, fst r !! k =
          match m !! k with
          | Some e => if Session.stale cutoff e then None else m0 !! k
          | None => m0 !! k
          end) /\
       snd r = n0 + Z.of_nat (size (filter (staleP cutoff) m)))).
  - split.
    + intros k. rewrite lookup_empty. reflexivity.
    + rewrite map_filter_empty, map_size_empty. simpl. lia.
  - intros i x m' r Hi [Hl Hn]. unfold Session.pruneEntry.
    destruct (Session.stale cutoff x) eqn:Hx; cbn [fst snd].
    + split.
      * intros k. destruct (decide (k = i)) as [->|Hk].
        -- rewrite lookup_delete_eq, lookup_insert_eq, Hx. reflexivity.
        -- rewrite lookup_delete_ne, lookup_insert_ne by congruence. apply Hl.
      * rewrite map_filter_insert_True by exact Hx.
        rewrite map_size_insert_None.
        -- rewrite Hn. lia.
        -- apply map_lookup_filter_None_2. left. exact Hi.
    + split.
      * intros k. destruct (decide (k = i)) as [->|Hk].
        -- rewrite lookup_insert_eq, Hx, Hl, Hi. reflexivity.
        -- rewrite lookup_insert_ne by congruence. apply Hl.
      * rewrite map_filter_insert_False by (unfold staleP; simpl; congruence).
        rewrite delete_id by exact Hi. exact Hn.
Qed.

Lemma lookup_filter_fresh (cutoff : Z) (m : gmap gostring Session.PaneEntry)
  (k : gostring) :
  filter (freshP cutoff) m !! k =
  match m !! k with
  | Some e => if Session.stale cutoff e then None else Some e
  | None => None
  end.
Proof.
  destruct (m !! k) as [e|] eqn:Hk.
  - destruct (Session.stale cutoff e) eqn:He.
    + apply map_lookup_filter_None_2. right. intros x Hx Hf.
      unfold freshP in Hf. simpl in Hf. congruence.
    + apply map_lookup_filter_Some_2; [exact Hk | exact He].
  - apply map_lookup_filter_None_2. left. exact Hk.
Qed.

(** The inner loop on a provider's own map: the fresh entries stay, the
    counter goes up by the number of stale ones. *)
Lemma pruneEntry_fold_self (cutoff : Z) (m : gmap gostring Session.PaneEntry)
  (n0 : Z) :
  map_fold (Session.pruneEntry cutoff) (m, n0) m =
  (filter (freshP cutoff) m,
   n0 + Z.of_nat (size (filter (staleP cutoff) m))).
Proof.
  destruct (pruneEntry_fold cutoff m n0 m) as [Hl Hn].
  destruct (map_fold (Session.pruneEntry cutoff) (m, n0) m) as [m' n'].
  cbn [fst snd] in *. f_equal; [|exact Hn].
  apply map_eq. intros k. rewrite Hl, lookup_filter_fresh.
  destruct (m !! k) as [e|] eqn:Hk; [|reflexivity].
  destruct (Session.stale cutoff e); reflexivity.
Qed.


Lemma pruneProvider_eq (cutoff : Z) (provider : gostring)
  (provMap : gmap gostring Session.PaneEntry)
  (acc : gmap gostring (gmap gostring Session.PaneEntry) * Z) :
  Session.pruneProvider cutoff provider provMap acc =
  (match prunedProvider cutoff provMap with
   | Some kept => <[provider := kept]> (fst acc)
   | None => delete provider (fst acc)
   end,
   snd acc + Z.of_nat (size (filter (staleP cutoff) provMap))).
Proof.
  unfold Session.pruneProvider, prunedProvider.
  rewrite pruneEntry_fold_self. cbn [fst snd].
  destruct (bool_decide _); reflexivity.
Qed.

Lemma staleCount_insert (cutoff : Z) (i : gostring)
  (x : gmap gostring Session.PaneEntry)
  (m : gmap gostring (gmap gostring Session.PaneEntry)) :
  m !! i = None ->
  staleCount cutoff (<[i := x]> m) =
  staleCount cutoff m + Z.of_nat (size (filter (staleP cutoff) x)).
Proof.
  intros Hi. unfold staleCount.
  rewrite map_fold_insert_L; [reflexivity| |exact Hi].
  intros. lia.
Qed.

Lemma entryCount_insert (i : gostring) (x : gmap gostring Session.PaneEntry)
  (m : gmap gostring (gmap gostring Session.PaneEntry)) :
  m !! i = None ->
  Session.entryCount (<[i := x]> m) =
  Session.entryCount m + Z.of_nat (size x).
Proof.
  intros Hi. unfold Session.entryCount.
  rewrite map_fold_insert_L; [reflexivity| |exact Hi].
  intros. lia.
Qed.

(** The outer loop: every provider is replaced by what is left of it. *)
Lemma pruneProvider_fold (cutoff : Z)
  (ps : gmap gostring (gmap gostring Session.PaneEntry)) :
  map_fold (Session.pruneProvider cutoff) (ps, 0) ps =
  (omap (prunedProvider cutoff) ps, staleCount cutoff ps).
Proof.
  assert (H : forall m,
    let r := map_fold (Session.pruneProvider cutoff) (ps, 0) m in
    (forall p, fst r !! p =
       match m !! p with
       | Some pm => prunedProvider cutoff pm
       | None => ps !! p
       end) /\
    snd r = staleCount cutoff m).
  { cbv zeta.
    apply (map_fold_weak_ind
      (fun r m =>
         (forall p, fst r !! p =
            match m !! p with
            | Some pm => prunedProvider cutoff pm
            | None => ps !! p
            end) /\
         snd r = staleCount cutoff m)).
    - split; [intros p; rewrite lookup_empty; reflexivity | reflexivity].
    - intros i x m r Hi [Hl Hn]. rewrite pruneProvider_eq. cbn [fst snd].
      split.
      + intros p. destruct (decide (p = i)) as [->|Hp].
        * rewrite lookup_insert_eq.
          destruct (prunedProvider cutoff x).
          -- apply lookup_insert_eq.
          -- apply lookup_delete_eq.
        * rewrite lookup_insert_ne by congruence.
          destruct (prunedProvider cutoff x).
          -- rewrite lookup_insert_ne by congruence. apply Hl.
          -- rewrite lookup_delete_ne by congruence. apply Hl.
      + rewrite staleCount_insert by exact Hi. rewrite Hn. reflexivity. }
  destruct (H ps) as [Hl Hn].
  destruct (map_fold (Session.pruneProvider cutoff) (ps, 0) ps) as [ps' n'].
  cbn [fst snd] in *. f_equal; [|exact Hn].
  apply map_eq. intros p. rewrite Hl, lookup_omap.
  destruct (ps !! p); reflexivity.
Qed.



Lemma PruneStalePanes_eq (now ttl : Z) (d : Session.RegistryData) :
  Session.PruneStalePanes now ttl d =
  (Session.mkRegistryData
     (omap (prunedProvider (pruneCutoff now ttl)) (Session.Providers d))
     (Session.Version d) (Session.Legacy d),
   staleCount (pruneCutoff now ttl) (Session.Providers d)).
Proof.
  unfold Session.PruneStalePanes. fold (pruneCutoff now ttl).
  rewrite pruneProvider_fold. reflexivity.
Qed.



(** ** internal/session: pruning dead panes *)

Lemma pruneDeadEntry_fold (isAlive : gostring -> bool) (m0 : gmap gostring Session.PaneEntry)
  (n0 : Z) (m : gmap gostring Session.PaneEntry) :
  let r := map_fold (Session.pruneDeadEntry isAlive) (m0, n0) m in
  (forall k, fst r !! k =
     match m !! k with
     | Some e => if Session.dead isAlive e then None else m0 !! k
     | None => m0 !! k
     end) /\
  snd r = n0 + Z.of_nat (size (filter (deadP isAlive) m)).
Proof.
  cbv zeta.
  apply (map_fold_weak_ind
    (fun r m =>
       (forall k, fst r !! k =
          match m !! k with
          | Some e => if Session.dead isAlive e then None else m0 !! k
          | None => m0 !! k
          end) /\
       snd r = n0 + Z.of_nat (size (filter (deadP isAlive) m)))).
  - split.
    + intros k. rewrite lookup_empty. reflexivity.
    + rewrite map_filter_empty, map_size_empty. simpl. lia.
  - intros i x m' r Hi [Hl Hn]. unfold Session.pruneDeadEntry.
    destruct (Session.dead isAlive x) eqn:Hx; cbn [fst snd].
    + split.
      * intros k. destruct (decide (k = i)) as [->|Hk].
        -- rewrite lookup_delete_eq, lookup_insert_eq, Hx. reflexivity.
        -- rewrite lookup_delete_ne, lookup_insert_ne by congruence. apply Hl.
      * rewrite map_filter_insert_True by exact Hx.
        rewrite map_size_insert_None.
        -- rewrite Hn. lia.
        -- apply map_lookup_filter_None_2. left. exact Hi.
    + split.
      * intros k. destruct (decide (k = i)) as [->|Hk].
        -- rewrite lookup_insert_eq, Hx, Hl, Hi. reflexivity.
        -- rewrite lookup_insert_ne by congruence. apply Hl.
      * rewrite map_filter_insert_False by (unfold deadP; simpl; congruence).
        rewrite delete_id by exact Hi. exact Hn.
Qed.

Lemma lookup_filter_live (isAlive : gostring -> bool) (m : gmap gostring Session.PaneEntry)
  (k : gostring) :
  filter (liveP isAlive) m !! k =
  match m !! k with
  | Some e => if Session.dead isAlive e then None else Some e
  | None => None
  end.
Proof.
  destruct (m !! k) as [e|] eqn:Hk.
  - destruct (Session.dead isAlive e) eqn:He.
    + apply map_lookup_filter_None_2. right. intros x Hx Hf.
      unfold liveP in Hf. simpl in Hf. congruence.
    + apply map_lookup_filter_Some_2; [exact Hk | exact He].
  - apply map_lookup_filter_None_2. left. exact Hk.
Qed.

(** The inner loop on a provider's own map: the live entries stay, the
    counter goes up by the number of dead ones. *)
Lemma pruneDeadEntry_fold_self (isAlive : gostring -> bool) (m : gmap gostring Session.PaneEntry)
  (n0 : Z) :
  map_fold (Session.pruneDeadEntry isAlive) (m, n0) m =
  (filter (liveP isAlive) m,
   n0 + Z.of_nat (size (filter (deadP isAlive) m))).
Proof.
  destruct (pruneDeadEntry_fold isAlive m n0 m) as [Hl Hn].
  destruct (map_fold (Session.pruneDeadEntry isAlive) (m, n0) m) as [m' n'].
  cbn [fst snd] in *. f_equal; [|exact Hn].
  apply map_eq. intros k. rewrite Hl, lookup_filter_live.
  destruct (m !! k) as [e|] eqn:Hk; [|reflexivity].
  destruct (Session.dead isAlive e); reflexivity.
Qed.

Lemma size_filter_dead_live (isAlive : gostring -> bool)
  (m : gmap gostring Session.PaneEntry) :
  size m = (size (filter (deadP isAlive) m) + size (filter (liveP isAlive) m))%nat.
Proof.
  induction m as [|i x m Hi IH] using map_ind.
  - rewrite !map_filter_empty, map_size_empty. reflexivity.
  - rewrite map_size_insert_None by exact Hi.
    destruct (Session.dead isAlive x) eqn:Hx.
    + rewrite (map_filter_insert_True (deadP isAlive)) by exact Hx.
      rewrite (map_filter_insert_False (liveP isAlive))
        by (unfold liveP; simpl; congruence).
      rewrite delete_id by exact Hi.
      rewrite map_size_insert_None
        by (apply map_lookup_filter_None_2; left; exact Hi).
      lia.
    + rewrite (map_filter_insert_False (deadP isAlive))
        by (unfold deadP; simpl; congruence).
      rewrite (map_filter_insert_True (liveP isAlive)) by exact Hx.
      rewrite delete_id by exact Hi.
      rewrite map_size_insert_None
        by (apply map_lookup_filter_None_2; left; exact Hi).
      lia.
Qed.

Lemma pruneDeadProvider_eq (isAlive : gostring -> bool) (provider : gostring)
  (provMap : gmap gostring Session.PaneEntry)
  (acc : gmap gostring (gmap gostring Session.PaneEntry) * Z) :
  Session.pruneDeadProvider isAlive provider provMap acc =
  (match prunedDeadProvider isAlive provMap with
   | Some kept => <[provider := kept]> (fst acc)
   | None => delete provider (fst acc)
   end,
   snd acc + Z.of_nat (size (filter (deadP isAlive) provMap))).
Proof.
  unfold Session.pruneDeadProvider, prunedDeadProvider.
  rewrite pruneDeadEntry_fold_self. cbn [fst snd].
  destruct (bool_decide _); reflexivity.
Qed.

Lemma deadCount_insert (isAlive : gostring -> bool) (i : gostring)
  (x : gmap gostring Session.PaneEntry)
  (m : gmap gostring (gmap gostring Session.PaneEntry)) :
  m !! i = None ->
  deadCount isAlive (<[i := x]> m) =
  deadCount isAlive m + Z.of_nat (size (filter (deadP isAlive) x)).
Proof.
  intros Hi. unfold deadCount.
  rewrite map_fold_insert_L; [reflexivity| |exact Hi].
  intros. lia.
Qed.

(** The outer loop: every provider is replaced by what is left of it. *)
Lemma pruneDeadProvider_fold (isAlive : gostring -> bool)
  (ps : gmap gostring (gmap gostring Session.PaneEntry)) :
  map_fold (Session.pruneDeadProvider isAlive) (ps, 0) ps =
  (omap (prunedDeadProvider isAlive) ps, deadCount isAlive ps).
Proof.
  assert (H : forall m,
    let r := map_fold (Session.pruneDeadProvider isAlive) (ps, 0) m in
    (forall p, fst r !! p =
       match m !! p with
       | Some pm => prunedDeadProvider isAlive pm
       | None => ps !! p
       end) /\
    snd r = deadCount isAlive m).
  { cbv zeta.
    apply (map_fold_weak_ind
      (fun r m =>
         (forall p, fst r !! p =
            match m !! p with
            | Some pm => prunedDeadProvider isAlive pm
            | None => ps !! p
            end) /\
         snd r = deadCount isAlive m)).
    - split; [intros p; rewrite lookup_empty; reflexivity | reflexivity].
    - intros i x m r Hi [Hl Hn]. rewrite pruneDeadProvider_eq. cbn [fst snd].
      split.
      + intros p. destruct (decide (p = i)) as [->|Hp].
        * rewrite lookup_insert_eq.
          destruct (prunedDeadProvider isAlive x).
          -- apply lookup_insert_eq.
          -- apply lookup_delete_eq.
        * rewrite lookup_insert_ne by congruence.
          destruct (prunedDeadProvider isAlive x).
          -- rewrite lookup_insert_ne by congruence. apply Hl.
          -- rewrite lookup_delete_ne by congruence. apply Hl.
      + rewrite deadCount_insert by exact Hi. rewrite Hn. reflexivity. }
  destruct (H ps) as [Hl Hn].
  destruct (map_fold (Session.pruneDeadProvider isAlive) (ps, 0) ps) as [ps' n'].
  cbn [fst snd] in *. f_equal; [|exact Hn].
  apply map_eq. intros p. rewrite Hl, lookup_omap.
  destruct (ps !! p); reflexivity.
Qed.

(** Entries before = dead entries + entries after. *)
Lemma entryCount_prunedDead (isAlive : gostring -> bool)
  (ps : gmap gostring (gmap gostring Session.PaneEntry)) :
  Session.entryCount ps =
  deadCount isAlive ps + Session.entryCount (omap (prunedDeadProvider isAlive) ps).
Proof.
  induction ps as [|i x m Hi IH] using map_ind.
  - rewrite omap_empty. reflexivity.
  - rewrite entryCount_insert, deadCount_insert by exact Hi.
    assert (Ho : omap (prunedDeadProvider isAlive) m !! i = None)
      by (rewrite lookup_omap, Hi; reflexivity).
    pose proof (size_filter_dead_live isAlive x) as Hs.
    destruct (prunedDeadProvider isAlive x) as [kept|] eqn:Hp.
    + rewrite (omap_insert_Some _ _ _ _ kept) by exact Hp.
      rewrite entryCount_insert by exact Ho.
      unfold prunedDeadProvider in Hp.
      destruct (bool_decide _); [discriminate|].
      injection Hp as <-. lia.
    + rewrite omap_insert_None by exact Hp.
      rewrite delete_id by exact Ho.
      unfold prunedDeadProvider in Hp.
      destruct (bool_decide _) eqn:Hb; [|discriminate].
      apply bool_decide_eq_true_1 in Hb. lia.
Qed.

Lemma GetEntry_prunedDead (isAlive : gostring -> bool) (d : Session.RegistryData)
  (provider projectID : gostring) :
  Session.GetEntry
    (Session.mkRegistryData (omap (prunedDeadProvider isAlive) (Session.Providers d))
       (Session.Version d) (Session.Legacy d)) provider projectID =
  match Session.GetEntry d provider projectID with
  | Some e => if Session.dead isAlive e then None else Some e
  | None => None
  end.
Proof.
  unfold Session.GetEntry. cbn [Session.Providers].
  rewrite lookup_omap.
  destruct (Session.Providers d !! provider) as [pm|]; [|reflexivity].
  cbn. unfold prunedDeadProvider.
  pose proof (lookup_filter_live isAlive pm projectID) as Hf.
  destruct (bool_decide _) eqn:Hb.
  - apply bool_decide_eq_true_1 in Hb. apply map_size_empty_inv in Hb.
    rewrite <- Hf, Hb, lookup_empty. reflexivity.
  - exact Hf.
Qed.

Lemma PruneDeadPanes_eq (isAlive : gostring -> bool) (d : Session.RegistryData) :
  Session.PruneDeadPanes (Some isAlive) d =
  (Session.mkRegistryData
     (omap (prunedDeadProvider isAlive) (Session.Providers d))
     (Session.Version d) (Session.Legacy d),
   deadCount isAlive (Session.Providers d)).
Proof.
  unfold Session.PruneDeadPanes. rewrite pruneDeadProvider_fold. reflexivity.
Qed.

(** X18: [PruneDeadPanes] removes exactly the entries that have a pane id the
    backend reports as not alive; entries without a pane id and entries
    with a live pane are kept as they are; the number returned is the
    number of entries before the call minus the number after it.
    Without a backend nothing is removed and the count is zero. *)
Theorem PruneDeadPanes_removes_dead (d : Session.RegistryData) :
  Session.PruneDeadPanes None d = (d, 0) /\
  forall isAlive,
    let after := fst (Session.PruneDeadPanes (Some isAlive) d) in
    (forall provider projectID,
       Session.GetEntry after provider projectID =
       match Session.GetEntry d provider projectID with
       | Some e =>
           match Session.PaneID e with
           | [] => Some e
           | pane => if isAlive pane then Some e else None
           end
       | None => None
       end) /\
    snd (Session.PruneDeadPanes (Some isAlive) d) =
      Session.entryCount (Session.Providers d)
      - Session.entryCount (Session.Providers after).
Proof.
  split; [reflexivity|]. intros isAlive. cbv zeta.
  rewrite PruneDeadPanes_eq. cbn [fst snd]. split.
  - intros provider projectID. rewrite GetEntry_prunedDead.
    destruct (Session.GetEntry d provider projectID) as [e|]; [|reflexivity].
    unfold Session.dead. destruct (Session.PaneID e); [reflexivity|].
    destruct (isAlive _); reflexivity.
  - cbn [Session.Providers].
    rewrite (entryCount_prunedDead isAlive (Session.Providers d)) at 1.
    lia.
Qed.

(** X19: After [PruneDeadPanes] every entry that is left and has a pane id
    is alive: [VerifyAlive] with the backend gives what it gives without
    one. *)
Theorem VerifyAlive_after_PruneDeadPanes (isAlive : gostring -> bool)
  (d : Session.RegistryData) (provider projectID : gostring) :
  let after := fst (Session.PruneDeadPanes (Some isAlive) d) in
  Session.VerifyAlive (Some isAlive) after provider projectID =
  Session.VerifyAlive None after provider projectID.
Proof.
  cbv zeta. rewrite PruneDeadPanes_eq. cbn [fst].
  unfold Session.VerifyAlive. rewrite GetEntry_prunedDead.
  destruct (Session.GetEntry d provider projectID) as [e|]; [|reflexivity].
  destruct (Session.dead isAlive e) eqn:E; [reflexivity|].
  unfold Session.dead in E.
  destruct (Session.PaneID e); [reflexivity|].
  destruct (isAlive _); [reflexivity | discriminate E].
Qed.

(** ** internal/session: registering and removing panes *)

Lemma GetEntry_Upsert_same (now : Z) (d : Session.RegistryData)
  (provider projectID : gostring) (entry : Session.PaneEntry) :
  Session.GetEntry (Session.Upsert now d provider projectID entry)
    provider projectID =
  Some (if Session.UpdatedAt entry =? 0
        then Session.setUpdatedAt entry (Session.Unix now) else entry).
Proof.
  unfold Session.GetEntry, Session.Upsert. cbn [Session.Providers].
  rewrite lookup_insert_eq. apply lookup_insert_eq.
Qed.

Lemma GetEntry_Upsert_other (now : Z) (d : Session.RegistryData)
  (provider projectID provider' projectID' : gostring)
  (entry : Session.PaneEntry) :
  (provider', projectID') <> (provider, projectID) ->
  Session.GetEntry (Session.Upsert now d provider projectID entry)
    provider' projectID' =
  Session.GetEntry d provider' projectID'.
Proof.
  intros Hne. unfold Session.GetEntry, Session.Upsert.
  cbn [Session.Providers].
  destruct (decide (provider' = provider)) as [->|Hp].
  - rewrite lookup_insert_eq.
    rewrite lookup_insert_ne by congruence.
    destruct (Session.Providers d !! provider); [reflexivity|].
    apply lookup_empty.
  - rewrite lookup_insert_ne by congruence. reflexivity.
Qed.

(** X20: An entry that was upserted is what [GetEntry] returns, with
    [updated_at] set to the current time when it was zero, and its pane
    id is what [Get] returns; the other entries are as before.  [Set]
    followed by [Get] gives back the pane id. *)
Theorem Upsert_then_Get (now : Z) (d : Session.RegistryData)
  (provider projectID : gostring) (entry : Session.PaneEntry) :
  Session.GetEntry (Session.Upsert now d provider projectID entry)
    provider projectID =
    Some (if Session.UpdatedAt entry =? 0
          then Session.setUpdatedAt entry (Session.Unix now) else entry) /\
  Session.Get (Session.Upsert now d provider projectID entry)
    provider projectID = Session.PaneID entry /\
  (forall paneID,
     Session.Get (Session.Set_ now d provider projectID paneID)
       provider projectID = paneID) /\
  (forall provider' projectID',
     (provider', projectID') <> (provider, projectID) ->
     Session.GetEntry (Session.Upsert now d provider projectID entry)
       provider' projectID' =
     Session.GetEntry d provider' projectID').
Proof.
  split; [apply GetEntry_Upsert_same|].
  split; [|split].
  - unfold Session.Get. rewrite GetEntry_Upsert_same.
    destruct (Session.UpdatedAt entry =? 0); reflexivity.
  - intros paneID. unfold Session.Get, Session.Set_.
    rewrite GetEntry_Upsert_same. cbn [Session.UpdatedAt].
    destruct (Session.Unix now =? 0); reflexivity.
  - intros provider' projectID'. apply GetEntry_Upsert_other.
Qed.

Lemma GetEntry_Remove_same (d : Session.RegistryData)
  (provider projectID : gostring) :
  Session.GetEntry (Session.Remove d provider projectID) provider projectID
  = None.
Proof.
  unfold Session.GetEntry, Session.Remove. cbn [Session.Providers].
  destruct (Session.Providers d !! provider) as [pm|] eqn:E.
  - destruct (bool_decide _).
    + rewrite lookup_delete_eq. reflexivity.
    + rewrite lookup_insert_eq. apply lookup_delete_eq.
  - rewrite E. reflexivity.
Qed.

Lemma GetEntry_Remove_other (d : Session.RegistryData)
  (provider projectID provider' projectID' : gostring) :
  (provider', projectID') <> (provider, projectID) ->
  Session.GetEntry (Session.Remove d provider projectID) provider' projectID'
  = Session.GetEntry d provider' projectID'.
Proof.
  intros Hne. unfold Session.GetEntry, Session.Remove.
  cbn [Session.Providers].
  destruct (Session.Providers d !! provider) as [pm|] eqn:E; [|reflexivity].
  destruct (decide (provider' = provider)) as [->|Hp].
  - rewrite E.
    assert (Hk : delete projectID pm !! projectID' = pm !! projectID')
      by (apply lookup_delete_ne; congruence).
    destruct (bool_decide _) eqn:Hb.
    + rewrite lookup_delete_eq. rewrite <- Hk.
      apply bool_decide_eq_true_1, map_size_empty_inv in Hb.
      rewrite Hb. symmetry. apply lookup_empty.
    + rewrite lookup_insert_eq. exact Hk.
  - destruct (bool_decide _).
    + rewrite lookup_delete_ne by congruence. reflexivity.
    + rewrite lookup_insert_ne by congruence. reflexivity.
Qed.

(** X21: After [Remove] neither [GetEntry] nor [Get] finds the pair, in the
    nested schema or among the legacy keys; every other entry is as
    before, and [Get] is as before for every pair with another legacy
    key. *)
Theorem Remove_then_Get (d : Session.RegistryData)
  (provider projectID : gostring) :
  Session.GetEntry (Session.Remove d provider projectID) provider projectID
    = None /\
  Session.Get (Session.Remove d provider projectID) provider projectID = [] /\
  (forall provider' projectID',
     (provider', projectID') <> (provider, projectID) ->
     Session.GetEntry (Session.Remove d provider projectID)
       provider' projectID' =
     Session.GetEntry d provider' projectID') /\
  (forall provider' projectID',
     Session.key provider' projectID' <> Session.key provider projectID ->
     Session.Get (Session.Remove d provider projectID) provider' projectID' =
     Session.Get d provider' projectID').
Proof.
  split; [apply GetEntry_Remove_same|]. split; [|split].
  - unfold Session.Get. rewrite GetEntry_Remove_same.
    unfold Session.Remove. cbn [Session.Legacy].
    rewrite lookup_delete_eq. reflexivity.
  - intros provider' projectID'. apply GetEntry_Remove_other.
  - intros provider' projectID' Hk. unfold Session.Get.
    rewrite GetEntry_Remove_other by congruence.
    unfold Session.Remove at 1. cbn [Session.Legacy].
    rewrite lookup_delete_ne by congruence. reflexivity.
Qed.

(** ** internal/session: shape of the registry *)

Lemma omap_pruned_nonempty {A} (f : gmap gostring A -> option (gmap gostring A))
  (ps : gmap gostring (gmap gostring A)) :
  (forall pm kept, f pm = Some kept -> kept <> ∅) ->
  forall provider kept, omap f ps !! provider = Some kept -> kept <> ∅.
Proof.
  intros Hf provider kept H. rewrite lookup_omap in H.
  destruct (ps !! provider) as [pm|]; [|discriminate].
  exact (Hf pm kept H).
Qed.

(** X22: The two prunes leave no provider without entries, whatever the
    registry was; [Remove] and [Upsert] keep a registry that has none. *)
Theorem registry_no_empty_provider (d : Session.RegistryData) :
  (forall now ttl, noEmptyProvider (fst (Session.PruneStalePanes now ttl d))) /\
  (forall isAlive,
     noEmptyProvider (fst (Session.PruneDeadPanes (Some isAlive) d))) /\
  (noEmptyProvider d ->
   forall provider projectID,
     noEmptyProvider (Session.Remove d provider projectID)) /\
  (forall now provider projectID entry,
     noEmptyProvider d ->
     noEmptyProvider (Session.Upsert now d provider projectID entry)).
Proof.
  split; [|split; [|split]].
  - intros now ttl. rewrite PruneStalePanes_eq. cbn [fst].
    unfold noEmptyProvider. cbn [Session.Providers].
    apply omap_pruned_nonempty. intros pm kept. unfold prunedProvider.
    destruct (bool_decide _) eqn:Hb; [discriminate|].
    intros H. injection H as <-. apply bool_decide_eq_false_1 in Hb.
    intros E. apply Hb. rewrite E. apply map_size_empty.
  - intros isAlive. rewrite PruneDeadPanes_eq. cbn [fst].
    unfold noEmptyProvider. cbn [Session.Providers].
    apply omap_pruned_nonempty. intros pm kept. unfold prunedDeadProvider.
    destruct (bool_decide _) eqn:Hb; [discriminate|].
    intros H. injection H as <-. apply bool_decide_eq_false_1 in Hb.
    intros E. apply Hb. rewrite E. apply map_size_empty.
  - intros Hd provider projectID p pm. unfold Session.Remove.
    cbn [Session.Providers].
    destruct (Session.Providers d !! provider) as [pm0|] eqn:E; [|apply Hd].
    destruct (bool_decide _) eqn:Hb.
    + intros H. apply lookup_delete_Some in H as [_ H]. exact (Hd _ _ H).
    + destruct (decide (p = provider)) as [->|Hp].
      * rewrite lookup_insert_eq. intros H. injection H as <-.
        apply bool_decide_eq_false_1 in Hb.
        intros E'. apply Hb. rewrite E'. apply map_size_empty.
      * rewrite lookup_insert_ne by congruence. apply Hd.
  - intros now provider projectID entry Hd p pm. unfold Session.Upsert.
    cbn [Session.Providers].
    destruct (decide (p = provider)) as [->|Hp].
    + rewrite lookup_insert_eq. intros H. injection H as <-.
      apply insert_non_empty.
    + rewrite lookup_insert_ne by congruence. apply Hd.
Qed.

(** ** internal/session: searching the registry *)

Lemma In_rangeEntries (d : Session.RegistryData) (provider : gostring)
  (entry : Session.PaneEntry) :
  In (provider, entry) (Session.rangeEntries d) <->
  exists projectID, Session.GetEntry d provider projectID = Some entry.
Proof.
  unfold Session.rangeEntries, Session.GetEntry. rewrite in_flat_map. split.
  - intros ([p pm] & Hp & Hin). cbn [fst snd] in Hin.
    apply in_map_iff in Hin as ([k e] & Heq & Hke). cbn [fst snd] in Heq.
    injection Heq as -> ->.
    apply list_elem_of_In, elem_of_map_to_list in Hp, Hke.
    exists k. rewrite Hp. exact Hke.
  - intros (k & H).
    destruct (Session.Providers d !! provider) as [pm|] eqn:E; [|discriminate].
    exists (provider, pm). split.
    + apply list_elem_of_In, elem_of_map_to_list. exact E.
    + cbn [fst snd]. apply in_map_iff. exists (k, entry). split; [reflexivity|].
      apply list_elem_of_In, elem_of_map_to_list. exact H.
Qed.

(** X23: [GetBySessionID] and [GetByClaudePane] return an entry of the
    registry that has the session id, or the Claude pane, asked for,
    under the provider it is registered with; they return nothing only
    when no entry of the registry has it. *)
Theorem registry_search (d : Session.RegistryData) (wanted : gostring) :
  match Session.GetBySessionID d wanted with
  | Some (provider, entry) =>
      Session.SessionID entry = wanted /\
      exists projectID, Session.GetEntry d provider projectID = Some entry
  | None =>
      forall provider projectID entry,
        Session.GetEntry d provider projectID = Some entry ->
        Session.SessionID entry <> wanted
  end /\
  match Session.GetByClaudePane d wanted with
  | Some (provider, entry) =>
      Session.ClaudePane entry = wanted /\
      exists projectID, Session.GetEntry d provider projectID = Some entry
  | None =>
      forall provider projectID entry,
        Session.GetEntry d provider projectID = Some entry ->
        Session.ClaudePane entry <> wanted
  end.
Proof.
  split.
  - unfold Session.GetBySessionID.
    destruct (List.find _ _) as [[provider entry]|] eqn:E.
    + apply find_some in E as [Hin Hb]. cbn [snd] in Hb.
      apply bool_decide_eq_true_1 in Hb. split; [exact Hb|].
      apply In_rangeEntries. exact Hin.
    + intros provider projectID entry H.
      assert (Hin : In (provider, entry) (Session.rangeEntries d))
        by (apply In_rangeEntries; eauto).
      pose proof (find_none _ _ E _ Hin) as Hb. cbn [snd] in Hb.
      apply bool_decide_eq_false_1 in Hb. exact Hb.
  - unfold Session.GetByClaudePane.
    destruct (List.find _ _) as [[provider entry]|] eqn:E.
    + apply find_some in E as [Hin Hb]. cbn [snd] in Hb.
      apply bool_decide_eq_true_1 in Hb. split; [exact Hb|].
      apply In_rangeEntries. exact Hin.
    + intros provider projectID entry H.
      assert (Hin : In (provider, entry) (Session.rangeEntries d))
        by (apply In_rangeEntries; eauto).
      pose proof (find_none _ _ E _ Hin) as Hb. cbn [snd] in Hb.
      apply bool_decide_eq_false_1 in Hb. exact Hb.
Qed.

(** ** internal/session: migrating the legacy keys *)

Lemma splitColon_key (provider projectID : gostring) :
  ~ In ":"%char provider ->
  Session.splitColon (Session.key provider projectID) =
  Some (provider, projectID).
Proof.
  unfold Session.key. induction provider as [|c p IH]; intros H.
  - reflexivity.
  - cbn [app Session.splitColon].
    destruct (eqc c ":") eqn:E.
    + apply eqc_true in E. subst. exfalso. apply H. left. reflexivity.
    + rewrite IH; [reflexivity|]. intros Hin. apply H. right. exact Hin.
Qed.

Lemma splitColon_Some (k provider projectID : gostring) :
  Session.splitColon k = Some (provider, projectID) ->
  k = Session.key provider projectID /\ ~ In ":"%char provider.
Proof.
  revert provider. induction k as [|c k IH]; intros provider; [discriminate|].
  cbn [Session.splitColon]. destruct (eqc c ":") eqn:E.
  - intros H. injection H as <- <-. apply eqc_true in E. subst.
    split; [reflexivity | intros []].
  - destruct (Session.splitColon k) as [[a b]|]; [|discriminate].
    intros H. injection H as <- <-.
    destruct (IH a eq_refl) as [-> Ha]. split; [reflexivity|].
    intros [Hc|Hin]; [|exact (Ha Hin)].
    apply eqc_false in E. congruence.
Qed.

Lemma splitColon_None (k : gostring) :
  Session.splitColon k = None -> ~ In ":"%char k.
Proof.
  induction k as [|c k IH]; [intros _ []|].
  cbn [Session.splitColon]. destruct (eqc c ":") eqn:E; [discriminate|].
  destruct (Session.splitColon k) as [[a b]|]; [discriminate|].
  intros _ [Hc|Hin]; [|exact (IH eq_refl Hin)].
  apply eqc_false in E. congruence.
Qed.

Lemma key_has_colon (provider projectID : gostring) :
  In ":"%char (Session.key provider projectID).
Proof.
  unfold Session.key. apply in_or_app. right. left. reflexivity.
Qed.

(** The entry the migration makes for a legacy key. *)
Lemma migrateKey_fold (clock : gostring -> Z)
  (ps0 : gmap gostring (gmap gostring Session.PaneEntry))
  (legacy : gmap gostring gostring) (provider projectID : gostring) :
  let ps := map_fold (Session.migrateKey clock) ps0 legacy in
  (ps !! provider ≫= (.!! projectID)) =
  match ps0 !! provider ≫= (.!! projectID) with
  | Some e => Some e
  | None =>
      if inSet provider ":"%char then None
      else
        (fun pane =>
           Session.mkPaneEntry pane [] [] [] [] [] []
             (Session.Unix (clock (Session.key provider projectID))))
        <$> legacy !! Session.key provider projectID
  end.
Proof.
  cbv zeta.
  apply (map_fold_weak_ind
    (fun ps m =>
       (ps !! provider ≫= (.!! projectID)) =
       match ps0 !! provider ≫= (.!! projectID) with
       | Some e => Some e
       | None =>
           if inSet provider ":"%char then None
           else
             (fun pane =>
                Session.mkPaneEntry pane [] [] [] [] [] []
                  (Session.Unix (clock (Session.key provider projectID))))
             <$> m !! Session.key provider projectID
       end)).
  - rewrite lookup_empty.
    destruct (ps0 !! provider ≫= (.!! projectID)); [reflexivity|].
    destruct (inSet provider ":"%char); reflexivity.
  - intros i pane m ps Hi IH. unfold Session.migrateKey.
    destruct (Session.splitColon i) as [[p0 q0]|] eqn:Es.
    + apply splitColon_Some in Es as [-> Hp0].
      destruct (decide (provider = p0)) as [->|Hp].
      * rewrite (inSet_not_In p0 ":"%char Hp0) in *.
        destruct (decide (projectID = q0)) as [->|Hq].
        -- rewrite lookup_insert_eq, Hi in *. cbn [fmap option_fmap option_map] in *.
           destruct (ps !! p0) as [pm|] eqn:Epm; cbn in IH |- *.
           ++ destruct (pm !! q0) as [e'|] eqn:Ee.
              ** rewrite lookup_insert_eq. cbn. rewrite Ee.
                 destruct (ps0 !! p0 ≫= (.!! q0)); [exact IH | discriminate IH].
              ** rewrite lookup_insert_eq. cbn. rewrite lookup_insert_eq.
                 destruct (ps0 !! p0 ≫= (.!! q0)); [discriminate IH|reflexivity].
           ++ rewrite lookup_empty, lookup_insert_eq. cbn.
              rewrite lookup_insert_eq.
              destruct (ps0 !! p0 ≫= (.!! q0)); [discriminate IH|reflexivity].
        -- assert (Hk : Session.key p0 projectID <> Session.key p0 q0).
           { unfold Session.key. intros E. apply app_inv_head in E.
             injection E as E. congruence. }
           rewrite (lookup_insert_ne m) by congruence.
           rewrite <- IH.
           destruct (default ∅ (ps !! p0) !! q0) eqn:Ee;
             rewrite lookup_insert_eq; cbn.
           ++ destruct (ps !! p0); reflexivity.
           ++ rewrite lookup_insert_ne by congruence.
              destruct (ps !! p0); [reflexivity | cbn; apply lookup_empty].
      * assert (Hk : inSet provider ":"%char = false ->
                     Session.key provider projectID <> Session.key p0 q0).
        { intros Hb E. apply inSet_false in Hb.
          pose proof (splitColon_key provider projectID Hb) as E1.
          rewrite E, (splitColon_key p0 q0 Hp0) in E1. congruence. }
        assert (Hl : forall X : gmap gostring Session.PaneEntry,
                  <[p0 := X]> ps !! provider = ps !! provider)
          by (intros X; apply lookup_insert_ne; congruence).
        destruct (default ∅ (ps !! p0) !! q0); rewrite Hl, IH;
          (destruct (ps0 !! provider ≫= (.!! projectID)); [reflexivity|]);
          (destruct (inSet provider ":"%char) eqn:Hb; [reflexivity|]);
          rewrite lookup_insert_ne by (apply not_eq_sym, Hk; reflexivity);
          reflexivity.
    + rewrite IH.
      destruct (ps0 !! provider ≫= (.!! projectID)); [reflexivity|].
      destruct (inSet provider ":"%char); [reflexivity|].
      rewrite lookup_insert_ne; [reflexivity|].
      intros ->. apply splitColon_None in Es. apply Es, key_has_colon.
Qed.

Lemma GetEntry_bind (d : Session.RegistryData) (provider projectID : gostring) :
  Session.GetEntry d provider projectID =
  Session.Providers d !! provider ≫= (.!! projectID).
Proof.
  unfold Session.GetEntry. destruct (Session.Providers d !! provider); reflexivity.
Qed.

(** X24: [MigrateLegacy] empties the legacy keys, never overwrites an entry
    of the nested schema, and, for a provider name without a colon,
    leaves what [Get] answers as it was: a pane that was found under a
    legacy key is found in the nested schema afterwards. *)
Theorem MigrateLegacy_keeps_Get (clock : gostring -> Z)
  (d : Session.RegistryData) (provider projectID : gostring) :
  ~ In ":"%char provider ->
  Session.Get (Session.MigrateLegacy clock d) provider projectID =
    Session.Get d provider projectID /\
  (forall e, Session.GetEntry d provider projectID = Some e ->
             Session.GetEntry (Session.MigrateLegacy clock d)
               provider projectID = Some e) /\
  Session.Legacy (Session.MigrateLegacy clock d) = ∅.
Proof.
  intros Hp. unfold Session.MigrateLegacy.
  destruct (bool_decide (size (Session.Legacy d) = 0%nat)) eqn:Hb.
  { apply bool_decide_eq_true_1, map_size_empty_inv in Hb. auto. }
  pose proof (migrateKey_fold clock (Session.Providers d) (Session.Legacy d)
                provider projectID) as H.
  cbv zeta in H. rewrite (inSet_not_In provider ":"%char Hp) in H.
  rewrite <- GetEntry_bind in H.
  split; [|split; [|reflexivity]].
  - unfold Session.Get. rewrite !GetEntry_bind. cbn [Session.Providers Session.Legacy].
    rewrite H, <- GetEntry_bind.
    destruct (Session.GetEntry d provider projectID); [reflexivity|].
    rewrite lookup_empty.
    destruct (Session.Legacy d !! Session.key provider projectID); reflexivity.
  - intros e He. rewrite GetEntry_bind. cbn [Session.Providers].
    rewrite H, He. reflexivity.
Qed.

Lemma MigrateLegacy_keeps_Get_witness :
  let d := Session.mkRegistryData ∅ 1
             {[ str "codex:proj-1" := str "%7" ]} in
  Session.Get (Session.MigrateLegacy (fun _ => 0) d) (str "codex") (str "proj-1")
  = str "%7".
Proof.
  intros d.
  destruct (MigrateLegacy_keeps_Get (fun _ => 0) d (str "codex") (str "proj-1"))
    as (H & _ & _).
  - intros H. repeat (destruct H as [H|H]; [discriminate H|]). exact H.
  - rewrite H. vm_compute. reflexivity.
Defined.

(** ** internal/session: the session resolver *)

(** C5: the six stages are tried in the order env, registry_project,
    registry_unfiltered, session_file, registry_pane, fallback.  If stage
    [k] finds a session and no stage before it does, [Resolve] returns
    that session, whose [Source] is the name of stage [k], whatever the
    stages after [k] would find. *)
Theorem Resolve_first_success (Sum256 : gostring -> Config.Array32)
  (w : Resolver.World) (workDir : gostring) (k : nat)
  (r : Resolver.ResolvedSession) :
  Resolver.stages Sum256 w workDir !! k = Some (Some r) ->
  (forall j, (j < k)%nat -> Resolver.stages Sum256 w workDir !! j = Some None) ->
  Resolver.Resolve Sum256 w workDir = Comm.OK (Some r) /\
  Resolver.Source r = nth k Resolver.stageNames [].
Proof.
  intros Hk Hbefore.
  assert (H0 := Hbefore 0%nat). assert (H1 := Hbefore 1%nat).
  assert (H2 := Hbefore 2%nat). assert (H3 := Hbefore 3%nat).
  assert (H4 := Hbefore 4%nat). clear Hbefore.
  unfold Resolver.stages in *. unfold Resolver.Resolve.
  destruct k as [|[|[|[|[|[|k]]]]]]; cbn [lookup list_lookup] in Hk;
    [injection Hk as Hk .. | discriminate].
  - rewrite Hk. split; [reflexivity|].
    unfold Resolver.resolveFromEnv in Hk.
    destruct (TrimSpace _); [discriminate|].
    destruct (match Resolver.registry w with Some _ => _ | None => _ end)
      as [[? ?]|]; injection Hk as <-; reflexivity.
  - specialize (H0 ltac:(lia)). cbn [lookup list_lookup] in H0.
    injection H0 as ->. rewrite Hk. split; [reflexivity|].
    unfold Resolver.resolveFromRegistryByProject in Hk.
    destruct (Resolver.registry w); [|discriminate].
    destruct (Session.GetEntry _ _ _); [|discriminate].
    destruct (Comm.isEmpty _); [discriminate|].
    destruct (Resolver.knownDead _ _); [discriminate|].
    injection Hk as <-. reflexivity.
  - specialize (H0 ltac:(lia)). specialize (H1 ltac:(lia)).
    cbn [lookup list_lookup] in H0, H1.
    injection H0 as ->. injection H1 as ->. rewrite Hk. split; [reflexivity|].
    unfold Resolver.resolveFromRegistryUnfiltered in Hk.
    destruct (Resolver.registry w); [|discriminate].
    destruct (fst _) as [[? ?]|]; [|discriminate].
    injection Hk as <-. reflexivity.
  - specialize (H0 ltac:(lia)). specialize (H1 ltac:(lia)).
    specialize (H2 ltac:(lia)).
    cbn [lookup list_lookup] in H0, H1, H2.
    injection H0 as ->. injection H1 as ->. injection H2 as ->.
    rewrite Hk. split; [reflexivity|].
    unfold Resolver.resolveFromSessionFile in Hk.
    destruct (Resolver.FindProjectSessionFile _ _ _); [discriminate|].
    destruct (Resolver.ReadSessionFile _ _); [discriminate|].
    injection Hk as <-. reflexivity.
  - specialize (H0 ltac:(lia)). specialize (H1 ltac:(lia)).
    specialize (H2 ltac:(lia)). specialize (H3 ltac:(lia)).
    cbn [lookup list_lookup] in H0, H1, H2, H3.
    injection H0 as ->. injection H1 as ->. injection H2 as ->.
    injection H3 as ->.
    rewrite Hk. split; [reflexivity|].
    unfold Resolver.resolveFromRegistryByPane in Hk.
    destruct (Resolver.registry w); [|discriminate].
    destruct (match TrimSpace _ with [] => _ | _ => _ end); [discriminate|].
    destruct (Session.GetByClaudePane _ _) as [[? ?]|]; [|discriminate].
    injection Hk as <-. reflexivity.
  - specialize (H0 ltac:(lia)). specialize (H1 ltac:(lia)).
    specialize (H2 ltac:(lia)). specialize (H3 ltac:(lia)).
    specialize (H4 ltac:(lia)).
    cbn [lookup list_lookup] in H0, H1, H2, H3, H4.
    injection H0 as ->. injection H1 as ->. injection H2 as ->.
    injection H3 as ->. injection H4 as ->.
    unfold Resolver.resolveBestFallback in *.
    destruct (Resolver.ResolveClaudeSession w workDir) as [[info|]|];
      try discriminate.
    injection Hk as <-. split; reflexivity.
Qed.

Lemma Resolve_first_success_witness :
  let r := Resolver.mkResolved (str "s-1") (repeat "0"%char 64)
             (str "/log/s-1.jsonl") (str "%1") (str "registry_project") in
  Resolver.Resolve zeroSum sampleWorld (str "/w") = Comm.OK (Some r) /\
  Resolver.Source r = nth 1 Resolver.stageNames [].
Proof.
  intros r.
  apply (Resolve_first_success zeroSum sampleWorld (str "/w") 1 r).
  - vm_compute. reflexivity.
  - intros [|j] Hj; [vm_compute; reflexivity | lia].
Defined.

(** *** Stage 3: the entry updated last *)

Lemma betterEntry_fold (w : Resolver.World)
  (l : list (gostring * Session.PaneEntry)) :
  let r := fold_left (Resolver.betterEntry w) l (None, 0) in
  0 <= snd r /\
  (forall ke, In ke l -> eligible w (snd ke) ->
              Session.UpdatedAt (snd ke) <= snd r) /\
  match fst r with
  | None => snd r = 0
  | Some ke =>
      In ke l /\ eligible w (snd ke) /\
      Session.UpdatedAt (snd ke) = snd r /\ 0 < snd r
  end.
Proof.
  cbv zeta. induction l as [|x l IH] using rev_ind.
  - cbn. split; [lia|]. split; [intros ke []|reflexivity].
  - rewrite fold_left_app. cbn [fold_left].
    destruct (fold_left (Resolver.betterEntry w) l (None, 0)) as [best t].
    cbn [fst snd] in IH. destruct IH as (Ht & Hmax & Hbest).
    unfold Resolver.betterEntry. cbn [fst snd].
    assert (Hold : match best with
                   | None => t = 0
                   | Some ke => In ke (l ++ [x]) /\ eligible w (snd ke) /\
                                Session.UpdatedAt (snd ke) = t /\ 0 < t
                   end).
    { destruct best as [ke|]; [|exact Hbest].
      destruct Hbest as (Hin & He & Hu & Hp).
      repeat split; try assumption; try apply He.
      apply in_or_app. left. exact Hin. }
    assert (Hskip : ~ eligible w (snd x) ->
              0 <= t /\
              (forall ke, In ke (l ++ [x]) -> eligible w (snd ke) ->
                          Session.UpdatedAt (snd ke) <= t) /\
              match best with
              | None => t = 0
              | Some ke => In ke (l ++ [x]) /\ eligible w (snd ke) /\
                           Session.UpdatedAt (snd ke) = t /\ 0 < t
              end).
    { intros Hx. split; [exact Ht|]. split; [|exact Hold].
      intros ke Hin He. apply in_app_or in Hin as [Hin|[<-|[]]]; [auto|].
      contradiction. }
    destruct (Comm.isEmpty (Session.PaneID (snd x))) eqn:E1.
    { apply Hskip. intros [Hne _].
      destruct (Session.PaneID (snd x)); [congruence | discriminate E1]. }
    destruct (Resolver.knownDead w (Session.PaneID (snd x))) eqn:E2.
    { apply Hskip. intros [_ Hd]. congruence. }
    assert (Hx : eligible w (snd x)).
    { split; [|exact E2]. intros E. rewrite E in E1. discriminate E1. }
    destruct (Z.ltb_spec t (Session.UpdatedAt (snd x))) as [Hlt|Hge];
      cbn [fst snd].
    + split; [lia|]. split.
      * intros ke Hin He. apply in_app_or in Hin as [Hin|[<-|[]]]; [|lia].
        specialize (Hmax ke Hin He). lia.
      * split; [apply in_or_app; right; left; reflexivity|].
        split; [exact Hx|]. split; [reflexivity | lia].
    + split; [exact Ht|]. split; [|exact Hold].
      intros ke Hin He. apply in_app_or in Hin as [Hin|[<-|[]]]; [auto|lia].
Qed.

(** X25: Stage 3 returns the Claude entry of the registry that was updated
    last among those that have a pane id, are not reported dead by the
    backend and have a positive [updated_at]; it returns nothing exactly
    when there is no such entry. *)
Theorem resolveFromRegistryUnfiltered_latest (w : Resolver.World)
  (d : Session.RegistryData) :
  Resolver.registry w = Some d ->
  match Resolver.resolveFromRegistryUnfiltered w with
  | Some r =>
      exists entry,
        Session.GetEntry d (str "claude") (Resolver.ProjectKey r) = Some entry /\
        r = Resolver.mkResolved (Session.SessionID entry) (Resolver.ProjectKey r)
              (Session.SessionPath entry) (Session.PaneID entry)
              (str "registry_unfiltered") /\
        eligible w entry /\ 0 < Session.UpdatedAt entry /\
        forall projectID other,
          Session.GetEntry d (str "claude") projectID = Some other ->
          eligible w other ->
          Session.UpdatedAt other <= Session.UpdatedAt entry
  | None =>
      forall projectID other,
        Session.GetEntry d (str "claude") projectID = Some other ->
        eligible w other -> Session.UpdatedAt other <= 0
  end.
Proof.
  intros Hd. unfold Resolver.resolveFromRegistryUnfiltered. rewrite Hd.
  pose proof (betterEntry_fold w
                (map_to_list (Session.GetByProvider d (str "claude")))) as H.
  cbv zeta in H. destruct H as (Ht & Hmax & Hbest).
  assert (Hin : forall k e,
            In (k, e) (map_to_list (Session.GetByProvider d (str "claude"))) <->
            Session.GetEntry d (str "claude") k = Some e).
  { intros k e. rewrite <- list_elem_of_In, elem_of_map_to_list.
    unfold Session.GetByProvider, Session.GetEntry.
    destruct (Session.Providers d !! str "claude"); cbn; [reflexivity|].
    rewrite lookup_empty. reflexivity. }
  destruct (fst (fold_left _ _ _)) as [[k e]|].
  - destruct Hbest as (Hk & He & Hu & Hp). cbn [snd] in *.
    exists e. cbn [Resolver.ProjectKey].
    split; [apply Hin; exact Hk|]. split; [reflexivity|].
    split; [exact He|]. split; [lia|].
    intros projectID other Ho Hel. rewrite Hu.
    apply (Hmax (projectID, other)); [apply Hin; exact Ho | exact Hel].
  - intros projectID other Ho Hel. rewrite <- Hbest.
    apply (Hmax (projectID, other)); [apply Hin; exact Ho | exact Hel].
Qed.

Lemma resolveFromRegistryUnfiltered_latest_witness :
  exists entry,
    Session.GetEntry sampleRegistry (str "claude") (repeat "0"%char 64)
      = Some entry /\
    0 < Session.UpdatedAt entry.
Proof.
  pose proof (resolveFromRegistryUnfiltered_latest sampleWorld sampleRegistry
                eq_refl) as H.
  vm_compute Resolver.resolveFromRegistryUnfiltered in H.
  destruct H as (entry & Hg & _ & _ & Hp & _).
  exists entry. split; [exact Hg | exact Hp].
Defined.

(** *** The chain as a whole *)

Lemma stage_sources (Sum256 : gostring -> Config.Array32) (w : Resolver.World)
  (workDir : gostring) (r : Resolver.ResolvedSession) :
  Resolver.Resolve Sum256 w workDir = Comm.OK (Some r) ->
  exists k,
    Resolver.stages Sum256 w workDir !! k = Some (Some r) /\
    forall j, (j < k)%nat -> Resolver.stages Sum256 w workDir !! j = Some None.
Proof.
  unfold Resolver.Resolve, Resolver.stages. intros H.
  destruct (Resolver.resolveFromEnv w) as [r1|] eqn:E1.
  { injection H as <-. exists 0%nat. split; [reflexivity | intros j Hj; lia]. }
  destruct (Resolver.resolveFromRegistryByProject w _) as [r2|] eqn:E2.
  { injection H as <-. exists 1%nat. split; [reflexivity|].
    intros [|j] Hj; [reflexivity | lia]. }
  destruct (Resolver.resolveFromRegistryUnfiltered w) as [r3|] eqn:E3.
  { injection H as <-. exists 2%nat. split; [reflexivity|].
    intros [|[|j]] Hj; try reflexivity; lia. }
  destruct (Resolver.resolveFromSessionFile w workDir) as [r4|] eqn:E4.
  { injection H as <-. exists 3%nat. split; [reflexivity|].
    intros [|[|[|j]]] Hj; try reflexivity; lia. }
  destruct (Resolver.resolveFromRegistryByPane w) as [r5|] eqn:E5.
  { injection H as <-. exists 4%nat. split; [reflexivity|].
    intros [|[|[|[|j]]]] Hj; try reflexivity; lia. }
  exists 5%nat. cbn [lookup list_lookup]. rewrite H.
  split; [reflexivity|].
  intros [|[|[|[|[|j]]]]] Hj; try reflexivity; lia.
Qed.

(** X26: [Resolve] fails only in its last stage: it returns an error exactly
    when the five stages before the fallback find nothing and the
    fallback scan fails, and it returns no session (and no error)
    exactly when they find nothing and the scan finds nothing. *)
Theorem Resolve_error_only_from_fallback
  (Sum256 : gostring -> Config.Array32) (w : Resolver.World)
  (workDir : gostring) :
  let firstFive :=
    take 5 (Resolver.stages Sum256 w workDir) in
  (Resolver.Resolve Sum256 w workDir = Comm.Err <->
   firstFive = repeat None 5 /\
   Resolver.ResolveClaudeSession w workDir = Comm.Err) /\
  (Resolver.Resolve Sum256 w workDir = Comm.OK None <->
   firstFive = repeat None 5 /\
   Resolver.ResolveClaudeSession w workDir = Comm.OK None).
Proof.
  cbv zeta. unfold Resolver.Resolve, Resolver.stages.
  cbn [take repeat].
  destruct (Resolver.resolveFromEnv w);
    [split; split; first [discriminate | intros [H _]; discriminate H]|].
  destruct (Resolver.resolveFromRegistryByProject w _);
    [split; split; first [discriminate | intros [H _]; discriminate H]|].
  destruct (Resolver.resolveFromRegistryUnfiltered w);
    [split; split; first [discriminate | intros [H _]; discriminate H]|].
  destruct (Resolver.resolveFromSessionFile w workDir);
    [split; split; first [discriminate | intros [H _]; discriminate H]|].
  destruct (Resolver.resolveFromRegistryByPane w);
    [split; split; first [discriminate | intros [H _]; discriminate H]|].
  unfold Resolver.resolveBestFallback.
  destruct (Resolver.ResolveClaudeSession w workDir) as [[info|]|];
    split; split;
    first [ discriminate
          | intros [_ H]; discriminate H
          | intros _; split; reflexivity
          | intros _; reflexivity ].
Qed.

(** X27: With a backend, a session [Resolve] takes from the registry by
    project or unfiltered always has a pane id, and the backend reports
    that pane alive. *)
Theorem Resolve_registry_pane_alive
  (Sum256 : gostring -> Config.Array32) (w : Resolver.World)
  (workDir : gostring) (isAlive : gostring -> bool)
  (r : Resolver.ResolvedSession) :
  Resolver.backend w = Some isAlive ->
  Resolver.Resolve Sum256 w workDir = Comm.OK (Some r) ->
  Resolver.Source r = str "registry_project" \/
  Resolver.Source r = str "registry_unfiltered" ->
  Resolver.PaneID r <> [] /\ isAlive (Resolver.PaneID r) = true.
Proof.
  intros Hb Hres Hsrc.
  assert (Halive : forall pane, Resolver.knownDead w pane = false ->
                                isAlive pane = true).
  { intros pane H. unfold Resolver.knownDead in H. rewrite Hb in H.
    destruct (isAlive pane); [reflexivity | discriminate H]. }
  destruct (stage_sources Sum256 w workDir r Hres) as (k & Hk & _).
  unfold Resolver.stages in Hk.
  destruct k as [|[|[|[|[|[|k]]]]]]; cbn [lookup list_lookup] in Hk;
    [injection Hk as Hk .. | discriminate].
  - exfalso. unfold Resolver.resolveFromEnv in Hk.
    destruct (TrimSpace _); [discriminate|].
    destruct (match Resolver.registry w with Some _ => _ | None => _ end)
      as [[? ?]|]; injection Hk as <-; destruct Hsrc as [H|H]; discriminate H.
  - unfold Resolver.resolveFromRegistryByProject in Hk.
    destruct (Resolver.registry w); [|discriminate].
    destruct (Session.GetEntry _ _ _) as [e|]; [|discriminate].
    destruct (Comm.isEmpty (Session.PaneID e)) eqn:E1; [discriminate|].
    destruct (Resolver.knownDead w (Session.PaneID e)) eqn:E2; [discriminate|].
    injection Hk as <-. cbn [Resolver.PaneID]. split; [|auto].
    intros E. rewrite E in E1. discriminate E1.
  - destruct (Resolver.registry w) as [d|] eqn:Hd.
    2:{ unfold Resolver.resolveFromRegistryUnfiltered in Hk.
        rewrite Hd in Hk. discriminate. }
    unfold Resolver.resolveFromRegistryUnfiltered in Hk. rewrite Hd in Hk.
    pose proof (betterEntry_fold w
                  (map_to_list (Session.GetByProvider d (str "claude")))) as H.
    cbv zeta in H. destruct H as (_ & _ & Hbest).
    destruct (fst (fold_left _ _ _)) as [[key e]|]; [|discriminate].
    destruct Hbest as (_ & [Hne Hd'] & _). cbn [snd] in *.
    injection Hk as <-. cbn [Resolver.PaneID]. auto.
  - exfalso. unfold Resolver.resolveFromSessionFile in Hk.
    destruct (Resolver.FindProjectSessionFile _ _ _); [discriminate|].
    destruct (Resolver.ReadSessionFile _ _); [discriminate|].
    injection Hk as <-. destruct Hsrc as [H|H]; discriminate H.
  - exfalso. unfold Resolver.resolveFromRegistryByPane in Hk.
    destruct (Resolver.registry w); [|discriminate].
    destruct (match TrimSpace _ with [] => _ | _ => _ end); [discriminate|].
    destruct (Session.GetByClaudePane _ _) as [[? ?]|]; [|discriminate].
    injection Hk as <-. destruct Hsrc as [H|H]; discriminate H.
  - exfalso. unfold Resolver.resolveBestFallback in Hk.
    destruct (Resolver.ResolveClaudeSession w workDir) as [[info|]|];
      try discriminate.
    injection Hk as <-. destruct Hsrc as [H|H]; discriminate H.
Qed.

Lemma Resolve_registry_pane_alive_witness :
  str "%1" <> [] /\ (fun _ : gostring => true) (str "%1") = true.
Proof.
  apply (Resolve_registry_pane_alive zeroSum sampleWorldLive (str "/w")
           (fun _ => true)
           (Resolver.mkResolved (str "s-1") (repeat "0"%char 64)
              (str "/log/s-1.jsonl") (str "%1") (str "registry_project"))).
  - reflexivity.
  - vm_compute. reflexivity.
  - left. reflexivity.
Defined.



(** ** internal/daemon: the server *)

Lemma getStr_mismatch (req : Daemon.object) (key tok : gostring) :
  tok <> [] ->
  req !! key = None \/ (exists v, req !! key = Some v /\ v <> Daemon.JStr tok) ->
  Daemon.getStr req key <> tok.
Proof.
  intros Htok H. unfold Daemon.getStr.
  destruct H as [->|(v & -> & Hv)]; [congruence|].
  destruct v; congruence.
Qed.

(** A server made by [NewServer] has a token as soon as the random one
    is not empty. *)
Lemma NewServer_token (cfg : Daemon.ServerConfig) (fresh : gostring) (now : Z) :
  fresh <> [] -> Daemon.token (Daemon.NewServer cfg fresh now) <> [].
Proof.
  intros H. unfold Daemon.NewServer. cbn [Daemon.token].
  destruct (Daemon.cfgToken cfg); congruence.
Qed.

(** C6: on a server that has a token, a request whose [token] field is
    absent or is any value other than the server's token gets the one
    reply [{status: error, error: invalid token}] and the connection is
    closed; no method handler runs and the server, its last-activity time
    included, is unchanged. *)
Theorem handleConn_invalid_token (now : Z) (s : Daemon.Server)
  (req : Daemon.object) :
  Daemon.token s <> [] ->
  req !! str "token" = None \/
    (exists v, req !! str "token" = Some v /\ v <> Daemon.JStr (Daemon.token s)) ->
  Daemon.handleConn now s (Some req) =
    (s, [Daemon.SetDeadline;
         Daemon.SendJSON (<[str "status" := Daemon.JStr (str "error")]>
                            (<[str "error" := Daemon.JStr (str "invalid token")]> ∅));
         Daemon.CloseConn]).
Proof.
  intros Htok H. unfold Daemon.handleConn.
  rewrite bool_decide_eq_false_2; [reflexivity|].
  apply getStr_mismatch; assumption.
Qed.

Lemma handleConn_invalid_token_witness :
  let s := Daemon.NewServer
             (Daemon.mkServerConfig [] 0 (str "secret") [] [] 0 0) (str "r") 5 in
  let req : Daemon.object :=
    <[str "token" := Daemon.JStr (str "guess")]>
      (<[str "method" := Daemon.JStr (str "shutdown")]> ∅) in
  Daemon.handleConn 9 s (Some req) =
    (s, [Daemon.SetDeadline; Daemon.sendError (str "invalid token");
         Daemon.CloseConn]).
Proof.
  intros s req.
  apply (handleConn_invalid_token 9 s req).
  - discriminate.
  - right. exists (Daemon.JStr (str "guess")). split.
    + apply lookup_insert_eq.
    + discriminate.
Defined.

(** C8: on a Unix build a tick of the parent monitor leaves the server
    as it is and keeps the monitor running whatever the process table
    holds, so also when the parent process is gone: [FindProcess] does
    not fail there and its result is dropped. *)
Theorem parentMonitorTick_unix (exists_ : Z -> bool) (s : Daemon.Server) :
  Daemon.parentMonitorTick (Daemon.mkOS Daemon.UnixLike exists_) s = (s, true).
Proof. reflexivity. Qed.

(** *** Activity and the idle monitor *)



